(** * tusker: ephemeral databases, schema diff and orphan sweep

    A shallow embedding of [tusker/__init__.py].  The Python code talks to
    a PostgreSQL server, to the file system and to the [migra] diff engine;
    those collaborators are modelled as a [world] threaded through a state
    and exception monad.  The program's own functions ([createdb],
    [cmd_diff], [cmd_clean]) are transcribed statement by statement. *)

From Stdlib Require Import String Ascii List Bool Arith NArith Lia.
From Stdlib Require Import Decimal DecimalString DecimalPos DecimalN.
From Stdlib Require Import Sorting.Permutation Sorting.Sorted.
From Stdlib Require Import OrderedTypeEx.
Import ListNotations.
Open Scope string_scope.

(** ** Python strings *)

Definition dquote : ascii := "034"%char.
Definition squote : ascii := "039"%char.
Definition newline : ascii := "010"%char.

(** [c in s] for a one-character string [c]. *)
Fixpoint str_contains (c : ascii) (s : string) : bool :=
  match s with
  | EmptyString => false
  | String d s' => Ascii.eqb c d || str_contains c s'
  end.

(** [s.startswith(p)], returning what follows the prefix. *)
Fixpoint strip_prefix (p s : string) : option string :=
  match p with
  | EmptyString => Some s
  | String c p' =>
      match s with
      | EmptyString => None
      | String d s' => if Ascii.eqb c d then strip_prefix p' s' else None
      end
  end.

Definition startswith (s p : string) : bool :=
  match strip_prefix p s with Some _ => true | None => false end.

(** [s.endswith(suffix)]. *)
Definition endswith (s suffix : string) : bool :=
  let n := String.length s in
  let k := String.length suffix in
  (k <=? n)%nat && String.eqb (substring (n - k) k s) suffix.

(** Text -- file contents, file names, configured names -- is held as
    the bytes of its UTF-8 encoding. *)

Definition in_range (lo hi : nat) (c : ascii) : bool :=
  ((lo <=? nat_of_ascii c) && (nat_of_ascii c <=? hi))%nat.

Definition is_byte (n : nat) (c : ascii) : bool := (nat_of_ascii c =? n)%nat.

(** [str.isspace] on a character of the ASCII range: U+0009 to U+000D
    and U+001C to U+0020. *)
Definition is_space (c : ascii) : bool :=
  let n := nat_of_ascii c in
  ((9 <=? n) && (n <=? 13) || (28 <=? n) && (n <=? 32))%nat.

(** The other white space of [str.isspace], by encoding: U+0085 and
    U+00A0 take two bytes (C2 85, C2 A0); U+1680 (E1 9A 80), U+2000 to
    U+200A (E2 80 80 to E2 80 8A), U+2028, U+2029, U+202F (E2 80 A8,
    E2 80 A9, E2 80 AF), U+205F (E2 81 9F) and U+3000 (E3 80 80) take
    three. *)
Definition space2 (a b : ascii) : bool :=
  is_byte 194 a && (is_byte 133 b || is_byte 160 b).

Definition space3 (a b c : ascii) : bool :=
  is_byte 225 a && is_byte 154 b && is_byte 128 c
  || is_byte 226 a && is_byte 128 b
     && (in_range 128 138 c || is_byte 168 c || is_byte 169 c || is_byte 175 c)
  || is_byte 226 a && is_byte 129 b && is_byte 159 c
  || is_byte 227 a && is_byte 128 b && is_byte 128 c.

(** [s.lstrip()]: [s] without its leading white space. *)
Fixpoint lstrip (s : string) : string :=
  match s with
  | EmptyString => EmptyString
  | String a r =>
      if is_space a then lstrip r
      else
        match r with
        | String b r1 =>
            if space2 a b then lstrip r1
            else
              match r1 with
              | String c r2 => if space3 a b c then lstrip r2 else s
              | EmptyString => s
              end
        | EmptyString => s
        end
  end.

(** Well-formed UTF-8, by the table of the Unicode standard: one byte
    00-7F; two bytes C2-DF 80-BF; three bytes E0 A0-BF 80-BF, E1-EC 80-BF
    80-BF, ED 80-9F 80-BF, EE-EF 80-BF 80-BF; four bytes F0 90-BF 80-BF
    80-BF, F1-F3 80-BF 80-BF 80-BF, F4 80-8F 80-BF 80-BF.  Text that
    Python decoded from such bytes has no escaped byte in it, and is
    ordered by code points as its encoding is ordered by bytes. *)
Definition cont_byte (c : ascii) : bool := in_range 128 191 c.

Definition second_of_three (a b : ascii) : bool :=
  if is_byte 224 a then in_range 160 191 b
  else if is_byte 237 a then in_range 128 159 b
  else cont_byte b.

Definition second_of_four (a b : ascii) : bool :=
  if is_byte 240 a then in_range 144 191 b
  else if is_byte 244 a then in_range 128 143 b
  else cont_byte b.

Fixpoint utf8_valid (s : string) : bool :=
  match s with
  | EmptyString => true
  | String a r =>
      if in_range 0 127 a then utf8_valid r
      else
        match r with
        | String b r1 =>
            if in_range 194 223 a then cont_byte b && utf8_valid r1
            else
              match r1 with
              | String c r2 =>
                  if in_range 224 239 a
                  then second_of_three a b && cont_byte c && utf8_valid r2
                  else
                    match r2 with
                    | String d r3 =>
                        in_range 240 244 a && second_of_four a b
                        && cont_byte c && cont_byte d && utf8_valid r3
                    | EmptyString => false
                    end
              | EmptyString => false
              end
        | EmptyString => false
        end
  end.

Fixpoint all_chars (p : ascii -> bool) (s : string) : bool :=
  match s with
  | EmptyString => true
  | String c s' => p c && all_chars p s'
  end.

(** Truth value of [s.strip()]: some character is not white space. *)
Definition strip_nonempty (s : string) : bool :=
  match lstrip s with
  | EmptyString => false
  | String _ _ => true
  end.

(** An f-string field [{n}] for a non-negative integer. *)
Definition str_of_N (n : N) : string := NilZero.string_of_uint (N.to_uint n).

(** [os.path.join(a, b)] for two components. *)
Definition os_path_join (a b : string) : string :=
  if startswith b "/" then b
  else if String.eqb a "" || endswith a "/" then a ++ b
  else a ++ "/" ++ b.

(** [sorted] on a list of [str].  Python orders text by code points;
    [String.leb] orders the encodings by bytes, which is the same order on
    well-formed UTF-8.  A name with bytes that are not UTF-8, which
    [os.listdir] hands over with escapes, is outside this model. *)
Fixpoint insert_sorted (x : string) (l : list string) : list string :=
  match l with
  | [] => [x]
  | y :: l' => if String.leb x y then x :: l else y :: insert_sorted x l'
  end.

Fixpoint sorted (l : list string) : list string :=
  match l with
  | [] => []
  | x :: l' => insert_sorted x (sorted l')
  end.

(** ** Exceptions

    An exception carries its class, its message and, as Python 3 does, the
    exception that was being handled when it was raised ([__context__]). *)

Inductive exn_class :=
| TypeError
| RuntimeError
| FileNotFoundError
| OperationalError      (* psycopg2 / sqlalchemy: connection and server failures *)
| ProgrammingError      (* psycopg2: the server rejected the statement *)
| ArgumentError         (* sqlalchemy.create_engine *)
| MigraError.           (* raised inside the diff engine *)

Inductive exn :=
| Exn (cls : exn_class) (msg : string)
| ExnDuring (cls : exn_class) (msg : string) (context : exn).

Definition exn_cls (e : exn) : exn_class :=
  match e with Exn c _ | ExnDuring c _ _ => c end.

Definition exn_context (e : exn) : option exn :=
  match e with Exn _ _ => None | ExnDuring _ _ c => Some c end.

(** Raising [e] while [handled] is in flight: the innermost exception of
    [e]'s own chain gets [handled] as its context. *)
Fixpoint with_context (e handled : exn) : exn :=
  match e with
  | Exn c m => ExnDuring c m handled
  | ExnDuring c m e' => ExnDuring c m (with_context e' handled)
  end.

(** ** The database server

    One cluster: its databases ([pg_database]), their shared comments
    ([pg_shdescription]), the number of backend sessions connected to each
    ([pg_stat_activity]) and what has been executed inside each one.

    The model covers what the program relies on.  The server reads the
    three statement forms the program sends, with the name as one quoted
    or one unquoted identifier, and rejects any other text: white space,
    comments and option clauses around a name are not read, so the model
    speaks for names written as one word.  Names are kept as they are: the
    server keeps the first 63 bytes of an identifier, so the model speaks
    for names within that bound.  A database with connected backends
    cannot be dropped; a script run through a working connection changes
    only the database it is connected to; no other client changes the
    catalog during a run.  Failures that the catalog does not explain (a
    lost connection, a missing privilege, a bad script) come from the
    failure oracle of the world. *)

Record pg_database := mk_database {
  datname : string;
  description : option string;
  backends : nat;
  applied : list string
}.

(** What the admin cursor sends: statement text with the name interpolated,
    or one of the two queries with a bound parameter. *)
Inductive request :=
| Sql (text : string)
| TerminateBackends (param : string)
    (* SELECT pg_terminate_backend(pid) FROM pg_stat_activity
       WHERE datname = %s *)
| SelectMarked (param : string).
    (* SELECT db.datname FROM pg_database db
       JOIN pg_shdescription dsc ON dsc.objoid = db.oid
       WHERE dsc.description = %s *)

Inductive pg_error :=
| syntax_error
| duplicate_database
| invalid_catalog_name
| object_in_use
| server_fault.

Inductive effect :=
| Created (name : string)
| Commented (name text : string)
| Dropped (name : string)
| Terminated (name : string)
| Selected (rows : list string).

Inductive response :=
| Accepted (e : effect)
| Rejected (err : pg_error).

(** *** Identifier lexing

    A double-quoted identifier is taken literally (a doubled quote inside
    stands for one quote character); an unquoted one must start with a
    letter or underscore, continue with letters, digits, underscores or
    dollar signs, and is folded to lower case. *)

Definition is_upper (c : ascii) : bool :=
  let n := nat_of_ascii c in ((65 <=? n) && (n <=? 90))%nat.
Definition is_lower (c : ascii) : bool :=
  let n := nat_of_ascii c in ((97 <=? n) && (n <=? 122))%nat.
Definition is_digit (c : ascii) : bool :=
  let n := nat_of_ascii c in ((48 <=? n) && (n <=? 57))%nat.
Definition is_high (c : ascii) : bool := (128 <=? nat_of_ascii c)%nat.

Definition ident_start (c : ascii) : bool :=
  is_upper c || is_lower c || Ascii.eqb c "_" || is_high c.
Definition ident_cont (c : ascii) : bool :=
  ident_start c || is_digit c || Ascii.eqb c "$".

Definition downcase_char (c : ascii) : ascii :=
  if is_upper c then ascii_of_nat (nat_of_ascii c + 32) else c.

Fixpoint downcase (s : string) : string :=
  match s with
  | EmptyString => EmptyString
  | String c s' => String (downcase_char c) (downcase s')
  end.

(** Longest prefix of [s] whose characters satisfy [p], and the rest. *)
Fixpoint span (p : ascii -> bool) (s : string) : string * string :=
  match s with
  | EmptyString => (EmptyString, EmptyString)
  | String c s' =>
      if p c then let (w, r) := span p s' in (String c w, r)
      else (EmptyString, s)
  end.

(** The text after an opening double quote: the identifier up to the
    closing quote, and what follows it. *)
Fixpoint lex_quoted (s : string) : option (string * string) :=
  match s with
  | EmptyString => None
  | String c s' =>
      if Ascii.eqb c dquote then
        match s' with
        | String d s'' =>
            if Ascii.eqb d dquote then
              match lex_quoted s'' with
              | Some (w, r) => Some (String dquote w, r)
              | None => None
              end
            else Some (EmptyString, s')
        | EmptyString => Some (EmptyString, EmptyString)
        end
      else
        match lex_quoted s' with
        | Some (w, r) => Some (String c w, r)
        | None => None
        end
  end.

Definition lex_ident (s : string) : option (string * string) :=
  match s with
  | EmptyString => None
  | String c s' =>
      if Ascii.eqb c dquote then
        match lex_quoted s' with
        | Some (EmptyString, _) => None
        | r => r
        end
      else if ident_start c then
        let (w, r) := span ident_cont s in Some (downcase w, r)
      else None
  end.

(** A string constant after its opening quote: no embedded quote, and the
    closing quote ends the statement. *)
Fixpoint lex_literal (s : string) : option string :=
  match s with
  | EmptyString => None
  | String c s' =>
      if Ascii.eqb c squote then
        match s' with EmptyString => Some EmptyString | _ => None end
      else
        match lex_literal s' with
        | Some t => Some (String c t)
        | None => None
        end
  end.

Inductive statement :=
| CreateDatabase (name : string)
| CommentOnDatabase (name text : string)
| DropDatabase (name : string).

(** The three statement forms the program issues; any other text is a
    syntax error. *)
Definition parse_statement (text : string) : option statement :=
  match strip_prefix "CREATE DATABASE " text with
  | Some r =>
      match lex_ident r with
      | Some (n, EmptyString) => Some (CreateDatabase n)
      | _ => None
      end
  | None =>
  match strip_prefix "COMMENT ON DATABASE " text with
  | Some r =>
      match lex_ident r with
      | Some (n, r') =>
          match strip_prefix " IS '" r' with
          | Some lit =>
              match lex_literal lit with
              | Some t => Some (CommentOnDatabase n t)
              | None => None
              end
          | None => None
          end
      | None => None
      end
  | None =>
  match strip_prefix "DROP DATABASE " text with
  | Some r =>
      match lex_ident r with
      | Some (n, EmptyString) => Some (DropDatabase n)
      | _ => None
      end
  | None => None
  end end end.

(** *** Catalog operations *)

Definition named (n : string) (d : pg_database) : bool := String.eqb (datname d) n.

Definition names (cat : list pg_database) : list string := map datname cat.

Definition lookup_db (n : string) (cat : list pg_database) : option pg_database :=
  find (named n) cat.

Definition update_db (n : string) (f : pg_database -> pg_database)
    (cat : list pg_database) : list pg_database :=
  map (fun d => if named n d then f d else d) cat.

Definition remove_db (n : string) (cat : list pg_database) : list pg_database :=
  filter (fun d => negb (named n d)) cat.

Definition new_database (n : string) : pg_database :=
  mk_database n None 0 [].

Definition set_description (t : string) (d : pg_database) : pg_database :=
  mk_database (datname d) (Some t) (backends d) (applied d).

Definition set_backends (k : nat) (d : pg_database) : pg_database :=
  mk_database (datname d) (description d) k (applied d).

(** [d] after its session has received the commands [l]. *)
Definition add_commands (l : list string) (d : pg_database) : pg_database :=
  mk_database (datname d) (description d) (backends d) (applied d ++ l)%list.

Definition has_description (t : string) (d : pg_database) : bool :=
  match description d with
  | Some t' => String.eqb t' t
  | None => false
  end.

Definition pg_statement (st : statement) (cat : list pg_database)
    : response * list pg_database :=
  match st with
  | CreateDatabase n =>
      match lookup_db n cat with
      | Some _ => (Rejected duplicate_database, cat)
      | None => (Accepted (Created n), (cat ++ [new_database n])%list)
      end
  | CommentOnDatabase n t =>
      match lookup_db n cat with
      | Some _ => (Accepted (Commented n t), update_db n (set_description t) cat)
      | None => (Rejected invalid_catalog_name, cat)
      end
  | DropDatabase n =>
      match lookup_db n cat with
      | Some d =>
          if (backends d =? 0)%nat
          then (Accepted (Dropped n), remove_db n cat)
          else (Rejected object_in_use, cat)
      | None => (Rejected invalid_catalog_name, cat)
      end
  end.

Definition pg_execute (rq : request) (cat : list pg_database)
    : response * list pg_database :=
  match rq with
  | Sql text =>
      match parse_statement text with
      | Some st => pg_statement st cat
      | None => (Rejected syntax_error, cat)
      end
  | TerminateBackends n =>
      (Accepted (Terminated n), update_db n (set_backends 0) cat)
  | SelectMarked t =>
      (Accepted (Selected (names (filter (has_description t) cat))), cat)
  end.

(** ** The world and the monad of effects *)

Record filesystem := mk_filesystem {
  files : list (string * string);          (* path, content *)
  dirs : list (string * list string)       (* path, [os.listdir] result *)
}.

Record world := mk_world {
  catalog : list pg_database;
  fs : filesystem;
  faults : list bool;       (* one entry per fallible external call *)
  clock : list N;           (* successive readings of [int(time.time())] *)
  admin_log : list (request * response);
  opened : list string;     (* paths given to [open], in order *)
  stdout : string;
  stderr : string
}.

Definition set_catalog (cat : list pg_database) (w : world) : world :=
  mk_world cat (fs w) (faults w) (clock w) (admin_log w) (opened w)
           (stdout w) (stderr w).

Definition set_faults (f : list bool) (w : world) : world :=
  mk_world (catalog w) (fs w) f (clock w) (admin_log w) (opened w)
           (stdout w) (stderr w).

Definition set_clock (c : list N) (w : world) : world :=
  mk_world (catalog w) (fs w) (faults w) c (admin_log w) (opened w)
           (stdout w) (stderr w).

Definition log_admin (rq : request) (r : response) (w : world) : world :=
  mk_world (catalog w) (fs w) (faults w) (clock w)
           (admin_log w ++ [(rq, r)])%list (opened w) (stdout w) (stderr w).

Definition log_open (path : string) (w : world) : world :=
  mk_world (catalog w) (fs w) (faults w) (clock w) (admin_log w)
           (opened w ++ [path])%list (stdout w) (stderr w).

Definition write_stdout (s : string) (w : world) : world :=
  mk_world (catalog w) (fs w) (faults w) (clock w) (admin_log w) (opened w)
           (stdout w ++ s) (stderr w).

Definition write_stderr (s : string) (w : world) : world :=
  mk_world (catalog w) (fs w) (faults w) (clock w) (admin_log w) (opened w)
           (stdout w) (stderr w ++ s).

Inductive outcome (A : Type) :=
| Return (a : A)
| Raise (e : exn).

Arguments Return {A} a.
Arguments Raise {A} e.

Definition M (A : Type) : Type := world -> outcome A * world.

Definition ret {A} (a : A) : M A := fun w => (Return a, w).

Definition raise {A} (e : exn) : M A := fun w => (Raise e, w).

Definition bind {A B} (m : M A) (k : A -> M B) : M B :=
  fun w =>
    match m w with
    | (Return a, w') => k a w'
    | (Raise e, w') => (Raise e, w')
    end.

Declare Scope py_scope.
Delimit Scope py_scope with py.
Notation "x <- m ;; k" := (bind m (fun x => k))
  (at level 100, m at next level, right associativity) : py_scope.
Notation "m ;; k" := (bind m (fun _ => k))
  (at level 100, right associativity) : py_scope.
Open Scope py_scope.

(** [try: body finally: final].  The final block always runs; an exception
    it raises replaces the one in flight and keeps it as its context. *)
Definition try_finally {A} (body : M A) (final : M unit) : M A :=
  fun w =>
    match body w with
    | (Return a, w1) =>
        match final w1 with
        | (Return _, w2) => (Return a, w2)
        | (Raise e', w2) => (Raise e', w2)
        end
    | (Raise e, w1) =>
        match final w1 with
        | (Return _, w2) => (Raise e, w2)
        | (Raise e', w2) => (Raise (with_context e' e), w2)
        end
    end.

(** [for x in l: body x]. *)
Fixpoint for_each {X} (l : list X) (body : X -> M unit) : M unit :=
  match l with
  | [] => ret tt
  | x :: l' => body x ;; for_each l' body
  end.

(** Next entry of the failure oracle; an exhausted oracle never fails. *)
Definition fault : M bool :=
  fun w =>
    match faults w with
    | [] => (Return false, w)
    | b :: f => (Return b, set_faults f w)
    end.

(** [int(time.time())]. *)
Definition time_time : M N :=
  fun w =>
    match clock w with
    | [] => (Return 0%N, w)
    | t :: c => (Return t, set_clock c w)
    end.

(** ** Built-ins and libraries *)

Inductive stream := sys_stdout | sys_stderr.

Inductive kwarg :=
| kw_str (s : string)
| kw_stream (f : stream).

Definition print_keywords : list string := ["sep"; "end"; "file"; "flush"].

Fixpoint kw_lookup (k : string) (kwargs : list (string * kwarg)) : option kwarg :=
  match kwargs with
  | [] => None
  | (k', v) :: rest => if String.eqb k k' then Some v else kw_lookup k rest
  end.

(** [print(text, **kwargs)]: a keyword that [print] does not know is a
    [TypeError]; otherwise the text and the terminator go to [file]
    (default [sys.stdout]). *)
Definition print (text : string) (kwargs : list (string * kwarg)) : M unit :=
  match find (fun kv => negb (existsb (String.eqb (fst kv)) print_keywords)) kwargs with
  | Some (k, _) =>
      raise (Exn TypeError ("'" ++ k ++ "' is an invalid keyword argument for print()"))
  | None =>
      let terminator :=
        match kw_lookup "end" kwargs with
        | Some (kw_str s) => s
        | _ => String newline EmptyString
        end in
      match kw_lookup "file" kwargs with
      | Some (kw_stream sys_stderr) => fun w => (Return tt, write_stderr (text ++ terminator) w)
      | _ => fun w => (Return tt, write_stdout (text ++ terminator) w)
      end
  end.

Fixpoint assoc {V} (k : string) (l : list (string * V)) : option V :=
  match l with
  | [] => None
  | (k', v) :: rest => if String.eqb k k' then Some v else assoc k rest
  end.

(** [open(path).read()]. *)
Definition open_read (path : string) : M string :=
  fun w =>
    match assoc path (files (fs w)) with
    | Some content => (Return content, log_open path w)
    | None => (Raise (Exn FileNotFoundError path), log_open path w)
    end.

(** [os.listdir(path)]. *)
Definition os_listdir (path : string) : M (list string) :=
  fun w =>
    match assoc path (dirs (fs w)) with
    | Some l => (Return l, w)
    | None => (Raise (Exn FileNotFoundError path), w)
    end.

(** *** psycopg2 *)

Record connection := mk_connection {
  conn_dbname : string;
  autocommit : bool
}.

(** [psycopg2.connect], by connection string or by discrete fields. *)
Definition psycopg2_connect (dsn : option string) (dbname : string) : M connection :=
  failed <- fault ;;
  if failed then raise (Exn OperationalError "could not connect to server")
  else ret (mk_connection dbname false).

Definition set_autocommit (b : bool) (c : connection) : connection :=
  mk_connection (conn_dbname c) b.

Definition pg_error_class (err : pg_error) : exn_class :=
  match err with
  | object_in_use | server_fault => OperationalError
  | _ => ProgrammingError
  end.

Definition pg_error_message (err : pg_error) : string :=
  match err with
  | syntax_error => "syntax error"
  | duplicate_database => "database already exists"
  | invalid_catalog_name => "database does not exist"
  | object_in_use => "database is being accessed by other users"
  | server_fault => "server closed the connection unexpectedly"
  end.

Definition pg_raise {A} (err : pg_error) : M A :=
  raise (Exn (pg_error_class err) (pg_error_message err)).

(** [cursor.execute(...)] on the admin connection, whose statements take
    effect at once (autocommit); the result is what a later [fetchall()]
    yields, one [datname] per row. *)
Definition cursor_execute (rq : request) : M (list string) :=
  failed <- fault ;;
  if failed then
    (fun w => (Return tt, log_admin rq (Rejected server_fault) w)) ;;
    pg_raise server_fault
  else
    fun w =>
      let (r, cat) := pg_execute rq (catalog w) in
      let w' := log_admin rq r (set_catalog cat w) in
      match r with
      | Accepted (Selected rows) => (Return rows, w')
      | Accepted _ => (Return [], w')
      | Rejected err => pg_raise err w'
      end.

(** *** sqlalchemy *)

Record Engine := mk_Engine {
  engine_url : string;
  engine_dbname : string
}.

Definition create_engine (url dbname : string) : M Engine :=
  failed <- fault ;;
  if failed then raise (Exn ArgumentError "could not parse URL")
  else ret (mk_Engine url dbname).

(** [engine.dispose()] closes the pooled connections; a connection handed
    out by [engine.connect()] and never closed keeps its backend. *)
Definition engine_dispose (e : Engine) : M unit :=
  failed <- fault ;;
  if failed then raise (Exn OperationalError "dispose failed")
  else ret tt.

Record Connection := mk_Connection { connected_to : string }.

(** [engine.connect()]: one more backend on the engine's database. *)
Definition engine_connect (e : Engine) : M Connection :=
  failed <- fault ;;
  if failed then raise (Exn OperationalError "could not connect to server")
  else fun w =>
    match lookup_db (engine_dbname e) (catalog w) with
    | Some d =>
        (Return (mk_Connection (engine_dbname e)),
         set_catalog
           (update_db (engine_dbname e) (set_backends (S (backends d))) (catalog w)) w)
    | None => (Raise (Exn OperationalError "database does not exist"), w)
    end.

(** One character of a keyword as a pattern with [re.IGNORECASE] matches
    it at the start of a text, and what follows: a letter in either case
    and, for I, S and K, the letters U+0130, U+0131 (C4 B0, C4 B1),
    U+017F (C5 BF) and U+212A (E2 84 AA); a blank matches itself. *)
Definition match_letter (k : ascii) (s : string) : option string :=
  match s with
  | EmptyString => None
  | String a r =>
      if Ascii.eqb a k || Ascii.eqb a (downcase_char k) then Some r
      else
        match r with
        | String b r1 =>
            if Ascii.eqb k "I" && is_byte 196 a && (is_byte 176 b || is_byte 177 b)
               || Ascii.eqb k "S" && is_byte 197 a && is_byte 191 b
            then Some r1
            else
              match r1 with
              | String c r2 =>
                  if Ascii.eqb k "K" && is_byte 226 a && is_byte 132 b
                     && is_byte 170 c
                  then Some r2
                  else None
              | EmptyString => None
              end
        | EmptyString => None
        end
  end.

Fixpoint match_keyword (kw s : string) : bool :=
  match kw with
  | EmptyString => true
  | String k kw' =>
      match match_letter k s with
      | Some r => match_keyword kw' r
      | None => false
      end
  end.

(** The library's test (version 1) for a statement given as text and run
    outside an explicit transaction, as its PostgreSQL dialect has it: the
    pattern
    [\s*(?:UPDATE|INSERT|CREATE|DELETE|DROP|ALTER|GRANT|REVOKE|IMPORT FOREIGN SCHEMA|REFRESH MATERIALIZED VIEW|TRUNCATE)],
    ignoring case, matched at the start of the text.  The first six key
    words are the library's default pattern, the others are the
    dialect's. *)
Definition autocommit_keywords : list string :=
  ["UPDATE"; "INSERT"; "CREATE"; "DELETE"; "DROP"; "ALTER"; "GRANT"; "REVOKE";
   "IMPORT FOREIGN SCHEMA"; "REFRESH MATERIALIZED VIEW"; "TRUNCATE"].

Definition autocommits (sql : string) : bool :=
  existsb (fun kw => match_keyword kw (lstrip sql)) autocommit_keywords.

(** What the session receives for [connection.execute(sql)]: the script
    and, when the text passes the test above, the [COMMIT] that the
    library sends after it.  A script that does not pass stays in the
    session's open transaction, with whatever ran before it there, until
    a later script brings a [COMMIT]. *)
Definition COMMIT : string := "COMMIT".

Definition commands_of (sql : string) : list string :=
  if autocommits sql then [sql; COMMIT] else [sql].

(** [connection.execute(sql)]: the script runs inside the connection's
    database.  What a session does to its database is recorded as the
    commands it received, in order. *)
Definition connection_execute (c : Connection) (sql : string) : M unit :=
  failed <- fault ;;
  if failed then raise (Exn ProgrammingError "script failed")
  else fun w =>
    match lookup_db (connected_to c) (catalog w) with
    | Some _ =>
        (Return tt,
         set_catalog
           (update_db (connected_to c) (add_commands (commands_of sql)) (catalog w))
           w)
    | None => (Raise (Exn OperationalError "database does not exist"), w)
    end.

(** *** migra

    The diff engine is an injected capability: [changes a b] is the script
    that takes a database in state [a] to state [b].  A database's state
    is given by the commands its session received, in order: the scripts
    and the commits between them.  What of it the engine's own sessions
    see -- nothing of a script left in an open transaction -- is for
    [changes] to tell. *)

Record Migration := mk_Migration {
  from_state : list string;
  target_state : list string;
  safe : bool;
  statements : string
}.

Section DiffEngine.

Variable changes : list string -> list string -> string.

(** [migra.Migration(x_from, x_target)] inspects both databases. *)
Definition migra_Migration (x_from x_target : Engine) : M Migration :=
  failed <- fault ;;
  if failed then raise (Exn MigraError "inspection failed")
  else fun w =>
    match lookup_db (engine_dbname x_from) (catalog w),
          lookup_db (engine_dbname x_target) (catalog w) with
    | Some a, Some b => (Return (mk_Migration (applied a) (applied b) true ""), w)
    | _, _ => (Raise (Exn OperationalError "database does not exist"), w)
    end.

Definition set_safety (m : Migration) (b : bool) : Migration :=
  mk_Migration (from_state m) (target_state m) b (statements m).

Definition add_all_changes (m : Migration) : M Migration :=
  failed <- fault ;;
  if failed then raise (Exn MigraError "diff failed")
  else ret (mk_Migration (from_state m) (target_state m) (safe m)
              (statements m ++ changes (from_state m) (target_state m))).

Definition migration_sql (m : Migration) : string := statements m.

End DiffEngine.

(** ** Configuration *)

(** Modelled from the spec: the class [Config] of [tusker/config.py],
    which the program imports.  The connection part has a composite
    connection string ([url], absent or empty when the discrete fields
    are used) and the base prefix of database names ([dbname]); the
    discrete fields behind [args(...)] do not matter here. *)
Record DatabaseConfig := mk_DatabaseConfig {
  url : option string;
  dbname : string
}.

(** Modelled from the spec: the path of the declared schema file. *)
Record SchemaConfig := mk_SchemaConfig { filename : string }.

(** Modelled from the spec: the path of the migration directory. *)
Record MigrationsConfig := mk_MigrationsConfig { directory : string }.

Record Config := mk_Config {
  database : DatabaseConfig;
  schema : SchemaConfig;
  migrations : MigrationsConfig
}.

Record Args := mk_Args { verbose : bool }.

(** Truth value of an optional string. *)
Definition truthy (o : option string) : bool :=
  match o with
  | Some s => negb (String.eqb s "")
  | None => false
  end.

(** ** The program *)

Definition TUSKER_COMMENT : string :=
  "CREATED BY TUSKER - If this table is left behind tusker probably crashed and was not able to clean up after itself. Either try running `tusker clean` or remove this database manually.".

Record DatabaseAdmin := mk_DatabaseAdmin {
  config : DatabaseConfig;
  conn : connection
}.

Definition _connect (config : DatabaseConfig) (name : string) : M connection :=
  if truthy (url config)
  then psycopg2_connect (url config) "template1"
  else psycopg2_connect None "template1".

Definition DatabaseAdmin_init (cfg : Config) : M DatabaseAdmin :=
  let config := database cfg in
  conn <- _connect config "template1" ;;
  ret (mk_DatabaseAdmin config (set_autocommit true conn)).

Definition dq : string := String dquote EmptyString.

(** The f-string [{self.config.dbname}_{now}_{suffix}]. *)
Definition ephemeral_name (prefix : string) (now : N) (suffix : string) : string :=
  prefix ++ "_" ++ str_of_N now ++ "_" ++ suffix.

(** The f-string [CREATE DATABASE {dbname}], the name in double quotes. *)
Definition create_sql (dbname : string) : string :=
  "CREATE DATABASE " ++ dq ++ dbname ++ dq.

(** The f-string [COMMENT ON DATABASE {dbname} IS {TUSKER_COMMENT}], the
    name in double quotes and the comment in single quotes. *)
Definition comment_sql (dbname : string) : string :=
  "COMMENT ON DATABASE " ++ dq ++ dbname ++ dq ++ " IS '" ++ TUSKER_COMMENT ++ "'".

(** The f-string [DROP DATABASE {dbname}], the name as it is. *)
Definition drop_sql (dbname : string) : string :=
  "DROP DATABASE " ++ dbname.

(** The teardown of [createdb]'s outer [finally]. *)
Definition teardown (dbname : string) : M unit :=
  cursor_execute (TerminateBackends dbname) ;;
  cursor_execute (Sql (drop_sql dbname)) ;;
  ret tt.

(** The block of [createdb]'s outer [try]: the engine is made, [body] runs
    at the [yield] and the engine is disposed of. *)
Definition createdb_try {A} (self : DatabaseAdmin) (dbname : string)
    (body : Engine -> M A) : M A :=
  engine <- (match url (config self) with
             | Some u =>
                 if truthy (url (config self)) then create_engine u dbname
                 else create_engine "postgresql://" dbname
             | None => create_engine "postgresql://" dbname
             end) ;;
  try_finally (body engine) (engine_dispose engine).

(** The scope of one ephemeral database: the outer [try ... finally] of
    [createdb]. *)
Definition createdb_scope {A} (self : DatabaseAdmin) (dbname : string)
    (body : Engine -> M A) : M A :=
  try_finally (createdb_try self dbname body) (teardown dbname).

(** [DatabaseAdmin.createdb], a generator-based context manager: [body] is
    the block of the [with] statement, run at the [yield]. *)
Definition createdb {A} (self : DatabaseAdmin) (suffix : string)
    (body : Engine -> M A) : M A :=
  now <- time_time ;;
  let dbname := ephemeral_name (dbname (config self)) now suffix in
  cursor_execute (Sql (create_sql dbname)) ;;
  cursor_execute (Sql (comment_sql dbname)) ;;
  createdb_scope self dbname body.

Definition when_ (b : bool) (m : M unit) : M unit :=
  if b then m else ret tt.

Section Commands.

Variable changes : list string -> list string -> string.

(** The keyword argument [out=sys.stderr] of the progress notices. *)
Definition out_stderr : list (string * kwarg) := [("out", kw_stream sys_stderr)].

(** One iteration of the migration loop. *)
Definition apply_migration (args : Args) (cfg : Config)
    (migrations_cursor : Connection) (filename : string) : M unit :=
  if negb (endswith filename ".sql") then ret tt
  else
    when_ (verbose args) (print ("- " ++ filename) out_stderr) ;;
    let filename := os_path_join (directory (migrations cfg)) filename in
    sql <- open_read filename ;;
    when_ (strip_nonempty sql) (connection_execute migrations_cursor sql).

(** The block of the [with] statement in [cmd_diff]. *)
Definition diff_body (args : Args) (cfg : Config)
    (schema_engine migrations_engine : Engine) : M unit :=
  schema_cursor <- engine_connect schema_engine ;;
  when_ (verbose args) (print "Creating target schema..." out_stderr) ;;
  sql <- open_read (filename (schema cfg)) ;;
  when_ (strip_nonempty sql) (connection_execute schema_cursor sql) ;;
  when_ (verbose args) (print "Creating migrated schema..." out_stderr) ;;
  migrations_cursor <- engine_connect migrations_engine ;;
  listing <- os_listdir (directory (migrations cfg)) ;;
  for_each (sorted listing) (apply_migration args cfg migrations_cursor) ;;
  when_ (verbose args) (print "Diffing..." out_stderr) ;;
  migration <- migra_Migration migrations_engine schema_engine ;;
  let migration := set_safety migration false in
  migration <- add_all_changes changes migration ;;
  print (migration_sql migration) [("end", kw_str "")].

Definition cmd_diff (args : Args) (cfg : Config) : M unit :=
  dba <- DatabaseAdmin_init cfg ;;
  when_ (verbose args) (print "Creating databases..." out_stderr) ;;
  createdb dba "schema" (fun schema_engine =>
    createdb dba "migrations" (fun migrations_engine =>
      diff_body args cfg schema_engine migrations_engine)).

End Commands.

(** The f-string [DROP DATABASE {dbname}] of the sweep, the name in double
    quotes. *)
Definition drop_quoted_sql (dbname : string) : string :=
  "DROP DATABASE " ++ dq ++ dbname ++ dq.

Definition unsafe_name_error : exn :=
  Exn RuntimeError
      ("Database with an " ++ dq ++ " in its name found. Please fix that manually.").

(** One iteration of the sweep loop ([row[0]] is [dbname]). *)
Definition drop_orphan (args : Args) (dbname : string) : M unit :=
  (if str_contains dquote dbname then raise unsafe_name_error else ret tt) ;;
  when_ (verbose args)
        (print ("Dropping " ++ dbname ++ " ...")
               [("out", kw_stream sys_stderr)]) ;;
  cursor_execute (Sql (drop_quoted_sql dbname)) ;;
  ret tt.

Definition cmd_clean (args : Args) (cfg : Config) : M unit :=
  dba <- DatabaseAdmin_init cfg ;;
  try_finally
    (rows <- cursor_execute (SelectMarked TUSKER_COMMENT) ;;
     for_each rows (drop_orphan args))
    (ret tt).

(** * Vocabulary of the properties *)

(** ** Identifiers *)

(** A valid unquoted identifier, the server's key words apart: a derived
    name holds the digits of the clock reading and is none of them. *)
Definition unquoted_ok (s : string) : bool :=
  match s with
  | EmptyString => false
  | String c _ => ident_start c && all_chars ident_cont s
  end.

(** The server keeps the first 63 bytes of an identifier; a name within
    that bound is kept whole, as the server model keeps every name. *)
Definition fits_identifier (s : string) : bool := (String.length s <=? 63)%nat.

(** A name written as one word that the server's lexer reads in one way
    only when it meets it unquoted: identifier characters, hyphens and
    dots, with no two hyphens in a row (they would open a comment).  No
    white space, quote, semicolon or parenthesis is among them. *)
Definition word_char (c : ascii) : bool :=
  ident_cont c || Ascii.eqb c "-" || Ascii.eqb c ".".

Fixpoint no_comment (s : string) : bool :=
  match s with
  | EmptyString => true
  | String a r =>
      match r with
      | String b _ => negb (Ascii.eqb a "-" && Ascii.eqb b "-")
      | EmptyString => true
      end && no_comment r
  end.

Definition one_word (s : string) : bool :=
  all_chars word_char s && no_comment s && utf8_valid s.

(** No character that case folding would change. *)
Definition no_upper (s : string) : bool :=
  all_chars (fun c => negb (is_upper c)) s.

(** Characters that may appear inside an unquoted identifier and that
    case folding leaves alone. *)
Definition plain (s : string) : bool :=
  all_chars ident_cont s && no_upper s.

(** A base prefix whose derived names read the same quoted and unquoted. *)
Definition plain_prefix (p : string) : bool :=
  plain p &&
  match p with
  | EmptyString => true
  | String c _ => ident_start c
  end.

(** The server reads the name [n] in the three statements built from [x]. *)
Record reads_as (x n : string) : Prop := {
  reads_create : parse_statement (create_sql x) = Some (CreateDatabase n);
  reads_comment :
    parse_statement (comment_sql x) = Some (CommentOnDatabase n TUSKER_COMMENT);
  reads_drop : parse_statement (drop_sql x) = Some (DropDatabase n)
}.

(** The 256 characters, to compare character classes exhaustively. *)
Definition all_ascii : list ascii := map ascii_of_nat (seq 0 256).

(** ** Answers of the server *)

(** The server's answer to one admin statement, as [cursor_execute]
    surfaces it. *)
Definition surfaced (r : response) : outcome (list string) :=
  match r with
  | Accepted (Selected rows) => Return rows
  | Accepted _ => Return []
  | Rejected err => Raise (Exn (pg_error_class err) (pg_error_message err))
  end.

(** The part of the world an admin statement leaves alone. *)
Definition same_io (w w' : world) : Prop :=
  fs w' = fs w /\ opened w' = opened w /\
  stdout w' = stdout w /\ stderr w' = stderr w.

Definition accepted (r : response) : bool :=
  match r with Accepted _ => true | Rejected _ => false end.

Definition create_request (rq : request) : bool :=
  match rq with
  | Sql text => startswith text "CREATE DATABASE "
  | _ => false
  end.

(** Every statement the server rejected was a creation statement: the
    marker, session-termination and drop statements all went through. *)
Definition critical_ok (log : list (request * response)) : bool :=
  forallb (fun e => accepted (snd e) || create_request (fst e)) log.

(** [n] was created by a statement of [log]. *)
Definition created_in (log : list (request * response)) (n : string) : Prop :=
  exists rq, In (rq, Accepted (Created n)) log.

(** The reading of the clock that [time_time] returns next, and the world
    after it. *)
Definition now_of (w : world) : N :=
  match clock w with [] => 0%N | t :: _ => t end.

Definition after_time (w : world) : world :=
  match clock w with [] => w | _ :: c => set_clock c w end.

(** ** Scopes *)

(** A computation that sends nothing to the server and leaves the set of
    databases alone. *)
Definition quiet {A} (m : M A) : Prop :=
  forall w,
    admin_log (snd (m w)) = admin_log w /\
    names (catalog (snd (m w))) = names (catalog w).

(** A computation that only appends [d] to the admin log, creates only
    names that were free, removes no database that was there, and gives
    back the set of databases it found whenever [d] is [critical_ok]. *)
Definition leak_free {A} (m : M A) : Prop :=
  forall w, exists d,
    admin_log (snd (m w)) = (admin_log w ++ d)%list /\
    (forall n, created_in d n -> ~ In n (names (catalog w))) /\
    incl (names (catalog w)) (names (catalog (snd (m w)))) /\
    (critical_ok d = true ->
     names (catalog (snd (m w))) = names (catalog w)).


(** ** The sweep *)

(** The database carries the marker, character for character. *)
Definition marked (d : pg_database) : bool := has_description TUSKER_COMMENT d.

(** The rows of the sweep's query. *)
Definition sweep_rows (cat : list pg_database) : list string :=
  names (filter marked cat).

(** The catalog once the databases named in [l] have been dropped. *)
Definition drop_all (l : list string) (cat : list pg_database) : list pg_database :=
  fold_left (fun c n => remove_db n c) l cat.

Definition mem (n : string) (l : list string) : bool := existsb (String.eqb n) l.

(** ** Migration files *)

(** Code-point order on file names. *)
Definition str_le (a b : string) : Prop := String.leb a b = true.

Definition is_sql (f : string) : bool := endswith f ".sql".

(** The error of a [print] call with the keyword [out]. *)
Definition print_type_error : exn :=
  Exn TypeError "'out' is an invalid keyword argument for print()".

(** What a session receives for the non-blank scripts of the files
    [paths], in order. *)
Definition scripts_of (fsys : filesystem) (paths : list string) : list string :=
  flat_map (fun p =>
              match assoc p (files fsys) with
              | Some s => if strip_nonempty s then commands_of s else []
              | None => []
              end) paths.

(** * Example inputs *)

Definition example_cfg : Config :=
  mk_Config (mk_DatabaseConfig None "app")
            (mk_SchemaConfig "schema.sql")
            (mk_MigrationsConfig "migrations").

Definition example_fs : filesystem :=
  mk_filesystem
    [("schema.sql", "create table t (a int, b int);");
     ("migrations/10-a.sql", "create table t (a int);");
     ("migrations/2-b.sql", "alter table t add b int;")]
    [("migrations", ["2-b.sql"; "README"; "10-a.sql"])].

(** A server holding [server], a failure oracle [f] and an empty log. *)
Definition example_world (server : list pg_database) (f : list bool) : world :=
  mk_world server example_fs f [1700000000%N; 1700000001%N] [] [] "" "".

(** A stand-in for the diff engine that shows which state is which. *)
Definition example_changes (a b : list string) : string :=
  "-- from [" ++ String.concat " " a ++ "] to [" ++ String.concat " " b ++ "]".




Definition quiet_args : Args := mk_Args false.
Definition verbose_args : Args := mk_Args true.

(** An admin connection whose base prefix has a hyphen. *)
Definition dashed_admin : DatabaseAdmin :=
  mk_DatabaseAdmin (mk_DatabaseConfig None "my-app")
                   (mk_connection "template1" true).

(** A configuration whose base prefix has a double quote. *)
Definition quoted_cfg : Config :=
  mk_Config (mk_DatabaseConfig None ("a" ++ dq ++ "b"))
            (mk_SchemaConfig "schema.sql")
            (mk_MigrationsConfig "migrations").

(** A marked database, one whose comment has a trailing blank, and one
    that only looks like an ephemeral database by its name. *)
Definition sweep_catalog : list pg_database :=
  [mk_database "app_1600000000_schema" (Some TUSKER_COMMENT) 0 [];
   mk_database "app_1600000000_migrations" (Some (TUSKER_COMMENT ++ " ")) 0 [];
   mk_database "app_1600000001_schema" None 0 []].

Definition unsafe_name : string := "app" ++ dq ++ "x".

(** Three marked databases, the second with a double quote in its name. *)
Definition unsafe_catalog : list pg_database :=
  [mk_database "app_1600000000_schema" (Some TUSKER_COMMENT) 0 [];
   mk_database unsafe_name (Some TUSKER_COMMENT) 0 [];
   mk_database "app_1600000000_migrations" (Some TUSKER_COMMENT) 0 []].

(** * Further vocabulary *)

(** The next answer of the failure oracle, and the world once it has been
    consumed. *)
Definition next_fault (w : world) : bool := nth 0 (faults w) false.

Definition pop_fault (w : world) : world := set_faults (tl (faults w)) w.

(** The failure oracle fails none of the next [k] fallible calls. *)
Definition calm (k : nat) (w : world) : bool :=
  forallb negb (firstn k (faults w)).

(** The error of a failed [psycopg2.connect]. *)
Definition connect_error : exn :=
  Exn OperationalError "could not connect to server".

(** The last character of a string. *)
Fixpoint last_char (s : string) : option ascii :=
  match s with
  | EmptyString => None
  | String c EmptyString => Some c
  | String _ s' => last_char s'
  end.

(** The error of a statement that names a database already there, one
    that names none, and one whose database has sessions. *)
Definition duplicate_error : exn :=
  Exn ProgrammingError "database already exists".

Definition missing_error : exn :=
  Exn ProgrammingError "database does not exist".

Definition in_use_error : exn :=
  Exn OperationalError "database is being accessed by other users".

(** The failure oracle fails no call at all. *)
Definition fault_free (w : world) : bool := forallb negb (faults w).

(** The world once the server has answered the admin statement [rq], the
    oracle not failing it. *)
Definition answered (rq : request) (w : world) : world :=
  log_admin rq (fst (pg_execute rq (catalog w)))
    (set_catalog (snd (pg_execute rq (catalog w))) (pop_fault w)).

(** The engine [createdb] makes for the database [name]. *)
Definition engine_for (self : DatabaseAdmin) (name : string) : Engine :=
  mk_Engine
    (match url (config self) with
     | Some u => if truthy (url (config self)) then u else "postgresql://"
     | None => "postgresql://"
     end)
    name.

(** A database as [createdb] hands it to the block: marked, idle, empty. *)
Definition fresh_database (name : string) : pg_database :=
  mk_database name (Some TUSKER_COMMENT) 0 [].

(** The world in which the block of [createdb] starts, and the one its
    teardown leaves, when no statement fails. *)
Definition scope_entered (name : string) (w : world) : world :=
  pop_fault (answered (Sql (comment_sql name))
               (answered (Sql (create_sql name)) (after_time w))).

Definition scope_left (name : string) (wb : world) : world :=
  answered (Sql (drop_sql name)) (answered (TerminateBackends name) (pop_fault wb)).

(** A point inside the block of [cmd_diff], entered in [w0]: the oracle
    fails nothing, the server holds [base] and the two ephemeral databases
    [ds] and [dm], and nothing was printed or sent to the server since
    [w0]. *)
Definition stage (base : list pg_database) (ds dm : pg_database)
    (w0 w : world) : Prop :=
  fault_free w = true /\
  catalog w = (base ++ [ds; dm])%list /\
  fs w = fs w0 /\ stdout w = stdout w0 /\ stderr w = stderr w0 /\
  admin_log w = admin_log w0.

(** The two ephemeral databases are apart from each other and from the
    databases of [base]. *)
Definition apart (base : list pg_database) (ds dm : pg_database) : Prop :=
  datname ds <> datname dm /\
  ~ In (datname ds) (names base) /\ ~ In (datname dm) (names base).

(** Every [.sql] entry of [listing] is a file of the directory [dir]. *)
Definition scripts_present (fsys : filesystem) (dir : string)
    (listing : list string) : Prop :=
  forall f, In f listing -> is_sql f = true ->
            assoc (os_path_join dir f) (files fsys) <> None.

(** The names of [listing] are well-formed text, and so is the content
    of every file among its [.sql] entries. *)
Definition listing_well_formed (fsys : filesystem) (dir : string)
    (listing : list string) : bool :=
  forallb (fun f =>
             utf8_valid f
             && (negb (is_sql f)
                 || match assoc (os_path_join dir f) (files fsys) with
                    | Some c => utf8_valid c
                    | None => true
                    end))
          listing.

(** A computation whose [print] calls write to neither output stream. *)
Definition silent {A} (m : M A) : Prop :=
  forall w, stdout (snd (m w)) = stdout w /\ stderr (snd (m w)) = stderr w.

(** A computation whose [print] calls write nothing to the diagnostic
    stream and, to the primary stream, nothing or one text that satisfies
    [P]. *)
Definition prints_only {A} (P : string -> Prop) (m : M A) : Prop :=
  forall w,
    stderr (snd (m w)) = stderr w /\
    (stdout (snd (m w)) = stdout w \/
     exists t, P t /\ stdout (snd (m w)) = stdout w ++ t).

(** A computation that opens no file and leaves the file system alone. *)
Definition keeps_files {A} (m : M A) : Prop :=
  forall w, fs (snd (m w)) = fs w /\ opened (snd (m w)) = opened w.

(** * Verification *)

Arguments Ascii.eqb : simpl never.
Arguments TUSKER_COMMENT : simpl never.
Arguments parse_statement : simpl never.

(** ** Strings *)

Lemma strip_prefix_app (p s : string) : strip_prefix p (p ++ s) = Some s.
Proof.
  induction p as [|c p IH]; simpl; [reflexivity|].
  rewrite Ascii.eqb_refl. exact IH.
Qed.


Lemma all_chars_app (p : ascii -> bool) (a b : string) :
  all_chars p (a ++ b) = all_chars p a && all_chars p b.
Proof.
  induction a as [|d a IH]; simpl; [reflexivity|].
  rewrite IH. apply andb_assoc.
Qed.

Lemma all_chars_impl (p q : ascii -> bool) (s : string) :
  (forall c, p c = true -> q c = true) ->
  all_chars p s = true -> all_chars q s = true.
Proof.
  intros Hpq. induction s as [|c s IH]; simpl; [reflexivity|].
  intros H. apply andb_true_iff in H as [Hc Hs].
  rewrite (Hpq _ Hc), (IH Hs). reflexivity.
Qed.

Lemma append_assoc (a b c : string) : (a ++ b) ++ c = a ++ (b ++ c).
Proof. induction a as [|x a IH]; simpl; [reflexivity|]. now rewrite IH. Qed.

Lemma append_nil_r (a : string) : a ++ "" = a.
Proof. induction a as [|x a IH]; simpl; [reflexivity|]. now rewrite IH. Qed.

Lemma digits_of_uint_empty (d : uint) :
  all_chars is_digit (NilEmpty.string_of_uint d) = true.
Proof.
  induction d as [|d IH|d IH|d IH|d IH|d IH|d IH|d IH|d IH|d IH|d IH];
    cbn [NilEmpty.string_of_uint all_chars]; try rewrite IH; reflexivity.
Qed.

Lemma digits_of_uint (d : uint) : all_chars is_digit (NilZero.string_of_uint d) = true.
Proof.
  destruct d; try apply digits_of_uint_empty. reflexivity.
Qed.

Lemma str_of_N_digits (n : N) : all_chars is_digit (str_of_N n) = true.
Proof. apply digits_of_uint. Qed.

Lemma in_all_ascii (c : ascii) : In c all_ascii.
Proof.
  rewrite <- (ascii_nat_embedding c). apply in_map, in_seq.
  pose proof (nat_ascii_bounded c). lia.
Qed.

Lemma class_incl (p q : ascii -> bool) :
  forallb (fun c => implb (p c) (q c)) all_ascii = true ->
  forall c, p c = true -> q c = true.
Proof.
  intros H c Hp. rewrite forallb_forall in H.
  specialize (H c (in_all_ascii c)). rewrite Hp in H. exact H.
Qed.


Lemma ident_cont_not_dquote (c : ascii) :
  ident_cont c = true -> Ascii.eqb dquote c = false.
Proof.
  intros H. apply negb_true_iff.
  revert c H. apply class_incl. vm_compute. reflexivity.
Qed.

Lemma ident_start_not_dquote (c : ascii) :
  ident_start c = true -> Ascii.eqb c dquote = false.
Proof.
  intros H. apply negb_true_iff.
  revert c H. apply class_incl. vm_compute. reflexivity.
Qed.

Lemma digit_ident_cont (c : ascii) : is_digit c = true -> ident_cont c = true.
Proof. apply class_incl. vm_compute. reflexivity. Qed.

Lemma digit_not_upper (c : ascii) : is_digit c = true -> is_upper c = false.
Proof.
  intros H. apply negb_true_iff.
  revert c H. apply class_incl. vm_compute. reflexivity.
Qed.

Lemma no_dquote_chars (p : ascii -> bool) (s : string) :
  (forall c, p c = true -> Ascii.eqb dquote c = false) ->
  all_chars p s = true -> str_contains dquote s = false.
Proof.
  intros Hp. induction s as [|c s IH]; simpl; [reflexivity|].
  intros H. apply andb_true_iff in H as [Hc Hs].
  rewrite (Hp _ Hc), (IH Hs). reflexivity.
Qed.

(** ** What the server reads in the three statements *)

Lemma lex_quoted_plain (n r : string) :
  str_contains dquote n = false ->
  startswith r dq = false ->
  lex_quoted (n ++ String dquote r) = Some (n, r).
Proof.
  intros Hn Hr. induction n as [|c n IH]; simpl.
  - destruct r as [|d r]; [reflexivity|].
    unfold startswith in Hr. simpl in Hr.
    destruct (Ascii.eqb dquote d) eqn:E; [discriminate|].
    rewrite Ascii.eqb_sym, E. reflexivity.
  - simpl in Hn. apply orb_false_iff in Hn as [Hc Hn].
    rewrite Ascii.eqb_sym, Hc, (IH Hn). reflexivity.
Qed.

(** A derived name is never empty. *)
Lemma ephemeral_name_not_empty (p : string) (now : N) (s : string) :
  ephemeral_name p now s <> "".
Proof.
  unfold ephemeral_name. destruct p; simpl; discriminate.
Qed.


(** The closing quote of [CREATE DATABASE {x}] closes the identifier of
    [COMMENT ON DATABASE {x} IS ...] as well, whatever [x] contains. *)
Lemma lex_quoted_closing_aux (k : nat) :
  forall x n rest,
    (String.length x <= k)%nat ->
    lex_quoted (x ++ dq) = Some (n, "") ->
    startswith rest dq = false ->
    lex_quoted (x ++ dq ++ rest) = Some (n, rest).
Proof.
  induction k as [|k IH]; intros x n rest Hlen Hx Hrest.
  - destruct x; [|simpl in Hlen; lia].
    simpl in Hx. injection Hx as <-.
    apply (lex_quoted_plain "" rest); [reflexivity|exact Hrest].
  - destruct x as [|c x].
    + simpl in Hx. injection Hx as <-.
      apply (lex_quoted_plain "" rest); [reflexivity|exact Hrest].
    + simpl in Hlen. cbn [append lex_quoted] in Hx |- *.
      destruct (Ascii.eqb c dquote) eqn:Ec.
      * destruct x as [|d x]; cbn [append] in Hx |- *.
        -- simpl in Hx. discriminate.
        -- destruct (Ascii.eqb d dquote) eqn:Ed.
           ++ destruct (lex_quoted (x ++ dq)) as [[w r]|] eqn:E; [|discriminate].
              injection Hx as <- ->.
              simpl in Hlen.
              rewrite (IH x w rest); [reflexivity|lia|exact E|exact Hrest].
           ++ discriminate.
      * destruct (lex_quoted (x ++ dq)) as [[w r]|] eqn:E; [|discriminate].
        injection Hx as <- ->.
        rewrite (IH x w rest); [reflexivity|lia|exact E|exact Hrest].
Qed.

Lemma lex_quoted_closing (x n rest : string) :
  lex_quoted (x ++ dq) = Some (n, "") ->
  startswith rest dq = false ->
  lex_quoted (x ++ dq ++ rest) = Some (n, rest).
Proof. apply (lex_quoted_closing_aux (String.length x)). lia. Qed.

Lemma strip_create_comment (x : string) :
  strip_prefix "CREATE DATABASE " (comment_sql x) = None.
Proof. reflexivity. Qed.

Lemma strip_create_drop (x : string) :
  strip_prefix "CREATE DATABASE " (drop_sql x) = None.
Proof. reflexivity. Qed.

Lemma strip_comment_drop (x : string) :
  strip_prefix "COMMENT ON DATABASE " (drop_sql x) = None.
Proof. reflexivity. Qed.

Lemma lex_marker_literal : lex_literal (TUSKER_COMMENT ++ "'") = Some TUSKER_COMMENT.
Proof. vm_compute. reflexivity. Qed.

Lemma marker_tail_not_quote :
  startswith (" IS '" ++ TUSKER_COMMENT ++ "'") dq = false.
Proof. reflexivity. Qed.

(** Whenever the server accepts the text of the creation statement, it
    reads the same database name in the text of the marker statement. *)
Lemma parse_create_comment (x : string) (st : statement) :
  parse_statement (create_sql x) = Some st ->
  exists n, st = CreateDatabase n /\
            parse_statement (comment_sql x)
            = Some (CommentOnDatabase n TUSKER_COMMENT).
Proof.
  unfold parse_statement at 1. unfold create_sql.
  rewrite strip_prefix_app.
  change (dq ++ x ++ dq) with (String dquote (x ++ dq)).
  cbn [lex_ident]. rewrite Ascii.eqb_refl.
  destruct (lex_quoted (x ++ dq)) as [[n r]|] eqn:E; [|discriminate].
  destruct n as [|c n]; [discriminate|].
  destruct r; [|discriminate].
  intros H. injection H as <-. exists (String c n). split; [reflexivity|].
  unfold parse_statement. rewrite strip_create_comment.
  unfold comment_sql. rewrite strip_prefix_app.
  change (dq ++ x ++ dq ++ " IS '" ++ TUSKER_COMMENT ++ "'")
    with (String dquote (x ++ dq ++ (" IS '" ++ TUSKER_COMMENT ++ "'"))).
  cbn [lex_ident]. rewrite Ascii.eqb_refl.
  rewrite (lex_quoted_closing x _ _ E marker_tail_not_quote).
  rewrite strip_prefix_app, lex_marker_literal. reflexivity.
Qed.

Lemma parse_create (n : string) :
  str_contains dquote n = false -> n <> "" ->
  parse_statement (create_sql n) = Some (CreateDatabase n).
Proof.
  intros Hq Hne. unfold parse_statement, create_sql.
  rewrite strip_prefix_app.
  change (dq ++ n ++ dq) with (String dquote (n ++ String dquote "")).
  cbn [lex_ident]. rewrite Ascii.eqb_refl.
  rewrite (lex_quoted_plain n "" Hq eq_refl).
  destruct n; [congruence|reflexivity].
Qed.

Lemma parse_comment (n : string) :
  str_contains dquote n = false -> n <> "" ->
  parse_statement (comment_sql n) = Some (CommentOnDatabase n TUSKER_COMMENT).
Proof.
  intros Hq Hne.
  destruct (parse_create_comment n _ (parse_create n Hq Hne)) as (m & Hm & H).
  injection Hm as <-. exact H.
Qed.

(** *** The unquoted name of the drop statement *)

Lemma span_all (p : ascii -> bool) (s : string) :
  all_chars p s = true -> span p s = (s, "").
Proof.
  induction s as [|c s IH]; simpl; [reflexivity|].
  intros H. apply andb_true_iff in H as [Hc Hs].
  rewrite Hc, (IH Hs). reflexivity.
Qed.

Lemma span_rest (p : ascii -> bool) (s : string) :
  all_chars p s = false -> snd (span p s) <> "".
Proof.
  induction s as [|c s IH]; simpl; [discriminate|].
  destruct (p c); simpl.
  - intros H. specialize (IH H). destruct (span p s). exact IH.
  - discriminate.
Qed.

Lemma downcase_no_upper (s : string) : no_upper s = true -> downcase s = s.
Proof.
  unfold no_upper. induction s as [|c s IH]; simpl; [reflexivity|].
  intros H. apply andb_true_iff in H as [Hc Hs].
  unfold downcase_char. apply negb_true_iff in Hc. rewrite Hc, (IH Hs).
  reflexivity.
Qed.

Lemma lex_ident_unquoted (n : string) :
  unquoted_ok n = true -> lex_ident n = Some (downcase n, "").
Proof.
  destruct n as [|c s]; [discriminate|]. unfold unquoted_ok.
  intros H. apply andb_true_iff in H as [Hc Hs].
  unfold lex_ident. rewrite (ident_start_not_dquote c Hc), Hc.
  rewrite (span_all _ _ Hs). reflexivity.
Qed.

Lemma parse_drop_unquoted (n : string) :
  unquoted_ok n = true ->
  parse_statement (drop_sql n) = Some (DropDatabase (downcase n)).
Proof.
  intros H. unfold parse_statement.
  rewrite strip_create_drop, strip_comment_drop.
  unfold drop_sql. rewrite strip_prefix_app, (lex_ident_unquoted n H).
  reflexivity.
Qed.

Lemma parse_drop_plain (n : string) :
  unquoted_ok n = true -> no_upper n = true ->
  parse_statement (drop_sql n) = Some (DropDatabase n).
Proof.
  intros H1 H2. rewrite (parse_drop_unquoted n H1), (downcase_no_upper n H2).
  reflexivity.
Qed.

Lemma parse_drop_rejected (n : string) :
  str_contains dquote n = false -> unquoted_ok n = false ->
  parse_statement (drop_sql n) = None.
Proof.
  intros Hq H. unfold parse_statement.
  rewrite strip_create_drop, strip_comment_drop.
  unfold drop_sql. rewrite strip_prefix_app.
  destruct n as [|c s]; [reflexivity|].
  simpl in Hq. apply orb_false_iff in Hq as [Hc _].
  unfold lex_ident. rewrite Ascii.eqb_sym, Hc.
  unfold unquoted_ok in H.
  destruct (ident_start c); [|reflexivity].
  simpl in H. pose proof (span_rest ident_cont (String c s) H) as Hr.
  destruct (span ident_cont (String c s)) as [w r]. simpl in Hr.
  destruct r; [congruence|reflexivity].
Qed.

(** ** The catalog *)

Lemma names_app (a b : list pg_database) :
  names (a ++ b) = (names a ++ names b)%list.
Proof. apply map_app. Qed.

Lemma names_update_db (n : string) (f : pg_database -> pg_database)
    (cat : list pg_database) :
  (forall d, datname (f d) = datname d) ->
  names (update_db n f cat) = names cat.
Proof.
  intros Hf. unfold names, update_db. rewrite map_map.
  apply map_ext. intros d. destruct (named n d); [apply Hf|reflexivity].
Qed.

Lemma names_remove_db (n : string) (cat : list pg_database) :
  names (remove_db n cat) = filter (fun m => negb (String.eqb m n)) (names cat).
Proof.
  induction cat as [|d cat IH]; [reflexivity|].
  unfold remove_db, names, named in *. simpl.
  destruct (String.eqb (datname d) n); simpl; now rewrite IH.
Qed.

Lemma lookup_db_none (n : string) (cat : list pg_database) :
  lookup_db n cat = None <-> ~ In n (names cat).
Proof.
  unfold lookup_db, names, named. induction cat as [|d cat IH]; simpl.
  - tauto.
  - destruct (String.eqb_spec (datname d) n) as [E|E].
    + split; [discriminate|]. intros H. exfalso. apply H. now left.
    + rewrite IH. tauto.
Qed.

Lemma lookup_db_some (n : string) (cat : list pg_database) (d : pg_database) :
  lookup_db n cat = Some d -> In d cat /\ datname d = n.
Proof.
  unfold lookup_db. intros H. apply find_some in H as [Hin Hn].
  split; [exact Hin|]. now apply String.eqb_eq.
Qed.

Lemma lookup_db_in (n : string) (cat : list pg_database) :
  In n (names cat) -> exists d, lookup_db n cat = Some d.
Proof.
  intros H. destruct (lookup_db n cat) as [d|] eqn:E; [now exists d|].
  apply lookup_db_none in E. contradiction.
Qed.

Lemma lookup_db_app (n : string) (a b : list pg_database) :
  lookup_db n (a ++ b) =
  match lookup_db n a with Some d => Some d | None => lookup_db n b end.
Proof.
  unfold lookup_db. induction a as [|d a IH]; simpl; [reflexivity|].
  destruct (named n d); [reflexivity|exact IH].
Qed.

Lemma lookup_db_new (n : string) : lookup_db n [new_database n] = Some (new_database n).
Proof. unfold lookup_db, named. simpl. now rewrite String.eqb_refl. Qed.

Lemma lookup_db_update_same (n : string) (f : pg_database -> pg_database)
    (cat : list pg_database) :
  (forall d, datname (f d) = datname d) ->
  lookup_db n (update_db n f cat) = option_map f (lookup_db n cat).
Proof.
  intros Hf. unfold lookup_db, update_db.
  induction cat as [|d cat IH]; simpl; [reflexivity|].
  destruct (named n d) eqn:E.
  - unfold named in *. rewrite Hf, E. reflexivity.
  - rewrite E. exact IH.
Qed.

Lemma lookup_db_update_other (n m : string) (f : pg_database -> pg_database)
    (cat : list pg_database) :
  (forall d, datname (f d) = datname d) -> m <> n ->
  lookup_db m (update_db n f cat) = lookup_db m cat.
Proof.
  intros Hf Hmn. unfold lookup_db, update_db.
  induction cat as [|d cat IH]; simpl; [reflexivity|].
  destruct (named n d) eqn:E.
  - unfold named in *. rewrite Hf.
    apply String.eqb_eq in E. rewrite E.
    destruct (String.eqb_spec n m); [congruence|exact IH].
  - destruct (named m d); [reflexivity|exact IH].
Qed.

Lemma filter_drop_last (n : string) (l : list string) :
  ~ In n l ->
  filter (fun m => negb (String.eqb m n)) (l ++ [n]) = l.
Proof.
  intros H. rewrite filter_app. simpl. rewrite String.eqb_refl. simpl.
  rewrite app_nil_r. induction l as [|x l IH]; [reflexivity|].
  simpl. destruct (String.eqb_spec x n) as [E|E].
  - exfalso. apply H. now left.
  - simpl. f_equal. apply IH. intros Hin. apply H. now right.
Qed.

Lemma datname_set_description (t : string) (d : pg_database) :
  datname (set_description t d) = datname d.
Proof. reflexivity. Qed.

Lemma datname_set_backends (k : nat) (d : pg_database) :
  datname (set_backends k d) = datname d.
Proof. reflexivity. Qed.

Lemma datname_add_commands (l : list string) (d : pg_database) :
  datname (add_commands l d) = datname d.
Proof. reflexivity. Qed.

(** ** Steps of the monad *)

Lemma bind_return_inv {A B} (m : M A) (k : A -> M B) (w w' : world) (b : B) :
  bind m k w = (Return b, w') ->
  exists a w1, m w = (Return a, w1) /\ k a w1 = (Return b, w').
Proof.
  unfold bind. destruct (m w) as [[a|e] w1]; [|discriminate].
  intros H. now exists a, w1.
Qed.


Lemma cursor_execute_eq (rq : request) (w : world) :
  cursor_execute rq w =
  match faults w with
  | true :: f =>
      (surfaced (Rejected server_fault),
       log_admin rq (Rejected server_fault) (set_faults f w))
  | false :: f =>
      let (r, cat) := pg_execute rq (catalog w) in
      (surfaced r, log_admin rq r (set_catalog cat (set_faults f w)))
  | [] =>
      let (r, cat) := pg_execute rq (catalog w) in
      (surfaced r, log_admin rq r (set_catalog cat w))
  end.
Proof.
  unfold cursor_execute, bind, fault.
  destruct (faults w) as [|[|] f]; cbn [set_faults catalog]; try reflexivity.
  - destruct (pg_execute rq (catalog w)) as [[[]|err] cat]; reflexivity.
  - destruct (pg_execute rq (catalog w)) as [[[]|err] cat]; reflexivity.
Qed.

Lemma cursor_execute_cases (rq : request) (w : world) :
  exists r,
    fst (cursor_execute rq w) = surfaced r /\
    admin_log (snd (cursor_execute rq w)) = (admin_log w ++ [(rq, r)])%list /\
    same_io w (snd (cursor_execute rq w)) /\
    ((r = Rejected server_fault /\
      catalog (snd (cursor_execute rq w)) = catalog w) \/
     pg_execute rq (catalog w) = (r, catalog (snd (cursor_execute rq w)))).
Proof.
  rewrite cursor_execute_eq. unfold same_io.
  destruct (faults w) as [|[|] f].
  - destruct (pg_execute rq (catalog w)) as [r cat].
    exists r. cbn. auto 10.
  - exists (Rejected server_fault). cbn. auto 10.
  - destruct (pg_execute rq (catalog w)) as [r cat].
    exists r. cbn. auto 10.
Qed.

(** ** Names that read the same quoted and unquoted *)

Lemma plain_app (a b : string) : plain (a ++ b) = plain a && plain b.
Proof.
  unfold plain, no_upper. rewrite !all_chars_app.
  destruct (all_chars ident_cont a), (all_chars ident_cont b),
    (all_chars (fun c => negb (is_upper c)) a); reflexivity.
Qed.

Lemma plain_digits (n : N) : plain (str_of_N n) = true.
Proof.
  unfold plain, no_upper. apply andb_true_iff. split.
  - apply (all_chars_impl is_digit); [exact digit_ident_cont|apply str_of_N_digits].
  - apply (all_chars_impl is_digit); [|apply str_of_N_digits].
    intros c H. now rewrite (digit_not_upper c H).
Qed.

Lemma plain_ephemeral (p : string) (now : N) (s : string) :
  plain p = true -> plain s = true -> plain (ephemeral_name p now s) = true.
Proof.
  intros Hp Hs. unfold ephemeral_name.
  rewrite !plain_app, Hp, Hs, plain_digits. reflexivity.
Qed.

Lemma plain_no_dquote (s : string) : plain s = true -> str_contains dquote s = false.
Proof.
  unfold plain. intros H. apply andb_true_iff in H as [H _].
  exact (no_dquote_chars ident_cont s ident_cont_not_dquote H).
Qed.

Lemma ephemeral_unquoted_ok (p : string) (now : N) (s : string) :
  plain_prefix p = true -> plain s = true ->
  unquoted_ok (ephemeral_name p now s) = true.
Proof.
  unfold plain_prefix. intros Hp Hs.
  apply andb_true_iff in Hp as [Hp Hc].
  pose proof (plain_ephemeral p now s Hp Hs) as Hn.
  unfold plain in Hn. apply andb_true_iff in Hn as [Hn _].
  unfold unquoted_ok. destruct p as [|c p].
  - unfold ephemeral_name in *. cbn [append] in *. rewrite Hn. reflexivity.
  - unfold ephemeral_name in *. cbn [append] in *. rewrite Hc, Hn. reflexivity.
Qed.

Lemma plain_name_reads (p : string) (now : N) (s : string) :
  plain_prefix p = true -> plain s = true ->
  reads_as (ephemeral_name p now s) (ephemeral_name p now s).
Proof.
  intros Hp Hs.
  assert (Hpl : plain (ephemeral_name p now s) = true).
  { apply plain_ephemeral; [|exact Hs].
    unfold plain_prefix in Hp. now apply andb_true_iff in Hp as [Hp _]. }
  pose proof (plain_no_dquote _ Hpl) as Hq.
  pose proof (ephemeral_name_not_empty p now s) as Hne.
  split.
  - now apply parse_create.
  - now apply parse_comment.
  - apply parse_drop_plain; [now apply ephemeral_unquoted_ok|].
    unfold plain in Hpl. now apply andb_true_iff in Hpl as [_ Hpl].
Qed.

(** ** Computations that do not touch the set of databases *)

Lemma quiet_ret {A} (a : A) : quiet (ret a).
Proof. intros w. split; reflexivity. Qed.

Lemma quiet_raise {A} (e : exn) : quiet (@raise A e).
Proof. intros w. split; reflexivity. Qed.

Lemma quiet_bind {A B} (m : M A) (k : A -> M B) :
  quiet m -> (forall a, quiet (k a)) -> quiet (bind m k).
Proof.
  intros Hm Hk w. unfold bind. specialize (Hm w).
  destruct (m w) as [[a|e] w1]; simpl in *.
  - specialize (Hk a w1). destruct Hm, Hk. split; congruence.
  - exact Hm.
Qed.

Lemma quiet_try_finally {A} (m : M A) (f : M unit) :
  quiet m -> quiet f -> quiet (try_finally m f).
Proof.
  intros Hm Hf w. unfold try_finally. specialize (Hm w).
  destruct (m w) as [[a|e] w1]; simpl in *; specialize (Hf w1);
    destruct (f w1) as [[u|e'] w2]; simpl in *;
    destruct Hm, Hf; split; congruence.
Qed.

Lemma quiet_when (b : bool) (m : M unit) : quiet m -> quiet (when_ b m).
Proof. intros H. destruct b; [exact H|apply quiet_ret]. Qed.

Lemma quiet_for_each {X} (l : list X) (body : X -> M unit) :
  (forall x, quiet (body x)) -> quiet (for_each l body).
Proof.
  intros H. induction l as [|x l IH]; simpl.
  - apply quiet_ret.
  - apply quiet_bind; [apply H|intros _; exact IH].
Qed.

Lemma quiet_fault : quiet fault.
Proof. intros w. unfold fault. destruct (faults w); split; reflexivity. Qed.

Lemma quiet_time : quiet time_time.
Proof. intros w. unfold time_time. destruct (clock w); split; reflexivity. Qed.

Lemma quiet_print (text : string) (kwargs : list (string * kwarg)) :
  quiet (print text kwargs).
Proof.
  intros w. unfold print.
  destruct (find _ kwargs) as [[k v]|]; [split; reflexivity|].
  destruct (kw_lookup "file" kwargs) as [[s|[|]]|]; split; reflexivity.
Qed.

Lemma quiet_open_read (path : string) : quiet (open_read path).
Proof.
  intros w. unfold open_read.
  destruct (assoc path (files (fs w))); split; reflexivity.
Qed.

Lemma quiet_listdir (path : string) : quiet (os_listdir path).
Proof.
  intros w. unfold os_listdir.
  destruct (assoc path (dirs (fs w))); split; reflexivity.
Qed.

Ltac quiet_guarded :=
  apply quiet_bind; [apply quiet_fault|];
  intros [|]; [apply quiet_raise|].

Lemma quiet_psycopg2_connect (dsn : option string) (n : string) :
  quiet (psycopg2_connect dsn n).
Proof. unfold psycopg2_connect. quiet_guarded. apply quiet_ret. Qed.

Lemma quiet_create_engine (u n : string) : quiet (create_engine u n).
Proof. unfold create_engine. quiet_guarded. apply quiet_ret. Qed.

Lemma quiet_engine_dispose (e : Engine) : quiet (engine_dispose e).
Proof. unfold engine_dispose. quiet_guarded. apply quiet_ret. Qed.

Lemma quiet_engine_connect (e : Engine) : quiet (engine_connect e).
Proof.
  unfold engine_connect. quiet_guarded. intros w.
  destruct (lookup_db (engine_dbname e) (catalog w)); cbn; split; try reflexivity.
  apply names_update_db. reflexivity.
Qed.

Lemma quiet_connection_execute (c : Connection) (sql : string) :
  quiet (connection_execute c sql).
Proof.
  unfold connection_execute. quiet_guarded. intros w.
  destruct (lookup_db (connected_to c) (catalog w)); cbn; split; try reflexivity.
  apply names_update_db. reflexivity.
Qed.

Lemma quiet_migra_Migration (a b : Engine) : quiet (migra_Migration a b).
Proof.
  unfold migra_Migration. quiet_guarded. intros w.
  destruct (lookup_db (engine_dbname a) (catalog w));
    destruct (lookup_db (engine_dbname b) (catalog w)); split; reflexivity.
Qed.

Lemma quiet_add_all_changes (changes : list string -> list string -> string)
    (m : Migration) :
  quiet (add_all_changes changes m).
Proof. unfold add_all_changes. quiet_guarded. apply quiet_ret. Qed.

Lemma quiet_DatabaseAdmin_init (cfg : Config) : quiet (DatabaseAdmin_init cfg).
Proof.
  unfold DatabaseAdmin_init, _connect. apply quiet_bind.
  - destruct (truthy (url (database cfg))); apply quiet_psycopg2_connect.
  - intros c. apply quiet_ret.
Qed.

Lemma quiet_apply_migration (args : Args) (cfg : Config) (c : Connection)
    (f : string) :
  quiet (apply_migration args cfg c f).
Proof.
  unfold apply_migration. destruct (negb (endswith f ".sql")); [apply quiet_ret|].
  apply quiet_bind; [apply quiet_when, quiet_print|]. intros _.
  apply quiet_bind; [apply quiet_open_read|]. intros sql.
  apply quiet_when, quiet_connection_execute.
Qed.

Lemma quiet_diff_body (changes : list string -> list string -> string)
    (args : Args) (cfg : Config) (se me : Engine) :
  quiet (diff_body changes args cfg se me).
Proof.
  unfold diff_body.
  apply quiet_bind; [apply quiet_engine_connect|]. intros sc.
  apply quiet_bind; [apply quiet_when, quiet_print|]. intros _.
  apply quiet_bind; [apply quiet_open_read|]. intros sql.
  apply quiet_bind; [apply quiet_when, quiet_connection_execute|]. intros _.
  apply quiet_bind; [apply quiet_when, quiet_print|]. intros _.
  apply quiet_bind; [apply quiet_engine_connect|]. intros mc.
  apply quiet_bind; [apply quiet_listdir|]. intros listing.
  apply quiet_bind; [apply quiet_for_each; intros f; apply quiet_apply_migration|].
  intros _.
  apply quiet_bind; [apply quiet_when, quiet_print|]. intros _.
  apply quiet_bind; [apply quiet_migra_Migration|]. intros m.
  apply quiet_bind; [apply quiet_add_all_changes|]. intros m'.
  apply quiet_print.
Qed.

(** ** Scopes that give back what they take *)

Lemma created_in_app (a b : list (request * response)) (n : string) :
  created_in (a ++ b) n -> created_in a n \/ created_in b n.
Proof.
  intros [rq H]. apply in_app_or in H as [H|H]; [left|right]; now exists rq.
Qed.

Lemma critical_ok_app (a b : list (request * response)) :
  critical_ok (a ++ b) = critical_ok a && critical_ok b.
Proof. apply forallb_app. Qed.

Lemma critical_ok_rejected (l : list (request * response)) (rq : request)
    (err : pg_error) :
  In (rq, Rejected err) l -> critical_ok l = true -> create_request rq = true.
Proof.
  intros Hin H. unfold critical_ok in H. rewrite forallb_forall in H.
  exact (H _ Hin).
Qed.

Lemma leak_free_quiet {A} (m : M A) : quiet m -> leak_free m.
Proof.
  intros H w. destruct (H w) as [Hlog Hn]. exists [].
  rewrite app_nil_r, Hn. repeat split; auto.
  - intros n [rq []].
  - apply incl_refl.
Qed.

Lemma bind_eq {A B} (m : M A) (k : A -> M B) (w : world) :
  bind m k w =
  match fst (m w) with
  | Return a => k a (snd (m w))
  | Raise e => (Raise e, snd (m w))
  end.
Proof. unfold bind. destruct (m w) as [[a|e] w1]; reflexivity. Qed.

Lemma try_finally_snd {A} (m : M A) (f : M unit) (w : world) :
  snd (try_finally m f w) = snd (f (snd (m w))).
Proof.
  unfold try_finally. destruct (m w) as [[a|e] w1]; simpl;
    destruct (f w1) as [[u|e'] w2]; reflexivity.
Qed.

(** Two steps in a row, the second from wherever the first one ended. *)
Lemma leak_free_seq (w w1 w2 : world) (d1 d2 : list (request * response)) :
  admin_log w1 = (admin_log w ++ d1)%list ->
  (forall n, created_in d1 n -> ~ In n (names (catalog w))) ->
  incl (names (catalog w)) (names (catalog w1)) ->
  (critical_ok d1 = true -> names (catalog w1) = names (catalog w)) ->
  admin_log w2 = (admin_log w1 ++ d2)%list ->
  (forall n, created_in d2 n -> ~ In n (names (catalog w1))) ->
  incl (names (catalog w1)) (names (catalog w2)) ->
  (critical_ok d2 = true -> names (catalog w2) = names (catalog w1)) ->
  admin_log w2 = (admin_log w ++ (d1 ++ d2))%list /\
  (forall n, created_in (d1 ++ d2) n -> ~ In n (names (catalog w))) /\
  incl (names (catalog w)) (names (catalog w2)) /\
  (critical_ok (d1 ++ d2) = true -> names (catalog w2) = names (catalog w)).
Proof.
  intros L1 C1 I1 K1 L2 C2 I2 K2. repeat split.
  - rewrite L2, L1. symmetry. apply app_assoc.
  - intros n Hn. apply created_in_app in Hn as [Hn|Hn]; [now apply C1|].
    intros Hin. apply (C2 n Hn). now apply I1.
  - eapply incl_tran; eassumption.
  - rewrite critical_ok_app. intros H. apply andb_true_iff in H as [H1 H2].
    rewrite (K2 H2). now apply K1.
Qed.

Lemma leak_free_bind {A B} (m : M A) (k : A -> M B) :
  leak_free m -> (forall a, leak_free (k a)) -> leak_free (bind m k).
Proof.
  intros Hm Hk w. rewrite bind_eq.
  destruct (Hm w) as (d1 & L1 & C1 & I1 & K1).
  destruct (fst (m w)) as [a|e]; [|now exists d1].
  destruct (Hk a (snd (m w))) as (d2 & L2 & C2 & I2 & K2).
  exists (d1 ++ d2)%list. now apply (leak_free_seq w (snd (m w))).
Qed.

Lemma leak_free_try_finally {A} (m : M A) (f : M unit) :
  leak_free m -> leak_free f -> leak_free (try_finally m f).
Proof.
  intros Hm Hf w. rewrite try_finally_snd.
  destruct (Hm w) as (d1 & L1 & C1 & I1 & K1).
  destruct (Hf (snd (m w))) as (d2 & L2 & C2 & I2 & K2).
  exists (d1 ++ d2)%list. now apply (leak_free_seq w (snd (m w))).
Qed.

Lemma not_create_comment (x : string) : create_request (Sql (comment_sql x)) = false.
Proof. reflexivity. Qed.

Lemma not_create_drop (x : string) : create_request (Sql (drop_sql x)) = false.
Proof. reflexivity. Qed.

(** *** The teardown *)

Lemma teardown_snd (name : string) (w : world) :
  snd (teardown name w) =
  match fst (cursor_execute (TerminateBackends name) w) with
  | Return _ =>
      snd (cursor_execute (Sql (drop_sql name))
             (snd (cursor_execute (TerminateBackends name) w)))
  | Raise _ => snd (cursor_execute (TerminateBackends name) w)
  end.
Proof.
  unfold teardown. rewrite bind_eq.
  destruct (fst (cursor_execute (TerminateBackends name) w)); [|reflexivity].
  rewrite bind_eq.
  destruct (fst (cursor_execute (Sql (drop_sql name)) _)); reflexivity.
Qed.

Lemma terminate_cases (name : string) (w : world) :
  let w1 := snd (cursor_execute (TerminateBackends name) w) in
  same_io w w1 /\
  ((fst (cursor_execute (TerminateBackends name) w)
    = surfaced (Rejected server_fault) /\
    admin_log w1 = (admin_log w ++ [(TerminateBackends name, Rejected server_fault)])%list /\
    catalog w1 = catalog w) \/
   (fst (cursor_execute (TerminateBackends name) w) = Return [] /\
    admin_log w1
    = (admin_log w ++ [(TerminateBackends name, Accepted (Terminated name))])%list /\
    catalog w1 = update_db name (set_backends 0) (catalog w))).
Proof.
  intros w1. subst w1.
  destruct (cursor_execute_cases (TerminateBackends name) w)
    as (r & Ho & Hl & Hio & [[-> Hc]|Hp]).
  - split; [exact Hio|]. left. auto.
  - split; [exact Hio|]. right. cbn in Hp. injection Hp as <- Hc.
    rewrite Ho, Hl, <- Hc. auto.
Qed.

Lemma drop_cases (name n : string) (w : world) :
  parse_statement (drop_sql name) = Some (DropDatabase n) ->
  let w1 := snd (cursor_execute (Sql (drop_sql name)) w) in
  same_io w w1 /\
  ((exists err,
      fst (cursor_execute (Sql (drop_sql name)) w) = surfaced (Rejected err) /\
      admin_log w1 = (admin_log w ++ [(Sql (drop_sql name), Rejected err)])%list /\
      catalog w1 = catalog w) \/
   (exists d,
      lookup_db n (catalog w) = Some d /\ backends d = 0 /\
      fst (cursor_execute (Sql (drop_sql name)) w) = Return [] /\
      admin_log w1
      = (admin_log w ++ [(Sql (drop_sql name), Accepted (Dropped n))])%list /\
      catalog w1 = remove_db n (catalog w))).
Proof.
  intros Hparse w1. subst w1.
  destruct (cursor_execute_cases (Sql (drop_sql name)) w)
    as (r & Ho & Hl & Hio & [[-> Hc]|Hp]).
  - split; [exact Hio|]. left. exists server_fault. auto.
  - split; [exact Hio|]. unfold pg_execute in Hp. rewrite Hparse in Hp.
    unfold pg_statement in Hp.
    destruct (lookup_db n (catalog w)) as [d|] eqn:E.
    + destruct (Nat.eqb_spec (backends d) 0) as [E0|E0].
      * injection Hp as <- Hc. right. exists d. rewrite Ho, Hl, <- Hc. auto 10.
      * injection Hp as <- Hc. left. exists object_in_use.
        rewrite Ho, Hl, <- Hc. auto.
    + injection Hp as <- Hc. left. exists invalid_catalog_name.
      rewrite Ho, Hl, <- Hc. auto.
Qed.

Lemma incl_filter_absent (n : string) (l0 l : list string) :
  ~ In n l0 -> incl l0 l ->
  incl l0 (filter (fun m => negb (String.eqb m n)) l).
Proof.
  intros Hn Hi x Hx. apply filter_In. split; [now apply Hi|].
  apply negb_true_iff, String.eqb_neq. intros ->. contradiction.
Qed.

(** The teardown of a database whose name the drop statement reads back
    unchanged: it removes that database and no other, and it removes it
    whenever both of its statements go through. *)
Lemma teardown_effect (name : string) (w : world) :
  parse_statement (drop_sql name) = Some (DropDatabase name) ->
  exists d,
    admin_log (snd (teardown name w)) = (admin_log w ++ d)%list /\
    (forall n, ~ created_in d n) /\
    (names (catalog (snd (teardown name w))) = names (catalog w) \/
     names (catalog (snd (teardown name w)))
     = filter (fun m => negb (String.eqb m name)) (names (catalog w))) /\
    (critical_ok d = true -> In name (names (catalog w)) ->
     names (catalog (snd (teardown name w)))
     = filter (fun m => negb (String.eqb m name)) (names (catalog w))).
Proof.
  intros Hparse. rewrite teardown_snd.
  destruct (terminate_cases name w) as (_ & [(Ho & Hl & Hc)|(Ho & Hl & Hc)]);
    rewrite Ho; cbn [surfaced].
  - eexists. split; [exact Hl|]. rewrite Hc. repeat split.
    + intros n [rq [H|[]]]. discriminate.
    + now left.
    + intros H.
      apply (critical_ok_rejected _ (TerminateBackends name) server_fault) in H;
        [discriminate H|now left].
  - set (w1 := snd (cursor_execute (TerminateBackends name) w)) in *.
    assert (Hn1 : names (catalog w1) = names (catalog w)).
    { rewrite Hc. apply names_update_db. reflexivity. }
    destruct (drop_cases name name w1 Hparse)
      as (_ & [(err & Ho2 & Hl2 & Hc2)|(d & Hd & Hb & Ho2 & Hl2 & Hc2)]).
    + eexists. split; [rewrite Hl2, Hl, <- app_assoc; reflexivity|].
      rewrite Hc2, Hn1. repeat split.
      * intros n [rq [H|[H|[]]]]; discriminate.
      * now left.
      * intros H.
        apply (critical_ok_rejected _ (Sql (drop_sql name)) err) in H;
          [discriminate H|].
        apply in_or_app. right. now left.
    + eexists. split; [rewrite Hl2, Hl, <- app_assoc; reflexivity|].
      rewrite Hc2, names_remove_db, Hn1. repeat split.
      * intros n [rq [H|[H|[]]]]; discriminate.
      * now right.
Qed.

(** *** Creation *)

Lemma time_time_eq (w : world) : time_time w = (Return (now_of w), after_time w).
Proof. unfold time_time, now_of, after_time. destruct (clock w); reflexivity. Qed.

Lemma after_time_catalog (w : world) : catalog (after_time w) = catalog w.
Proof. unfold after_time. destruct (clock w); reflexivity. Qed.

Lemma after_time_log (w : world) : admin_log (after_time w) = admin_log w.
Proof. unfold after_time. destruct (clock w); reflexivity. Qed.

Lemma create_cases (name n : string) (w : world) :
  parse_statement (create_sql name) = Some (CreateDatabase n) ->
  let w1 := snd (cursor_execute (Sql (create_sql name)) w) in
  same_io w w1 /\
  ((exists err,
      fst (cursor_execute (Sql (create_sql name)) w) = surfaced (Rejected err) /\
      admin_log w1 = (admin_log w ++ [(Sql (create_sql name), Rejected err)])%list /\
      catalog w1 = catalog w) \/
   (lookup_db n (catalog w) = None /\
    fst (cursor_execute (Sql (create_sql name)) w) = Return [] /\
    admin_log w1
    = (admin_log w ++ [(Sql (create_sql name), Accepted (Created n))])%list /\
    catalog w1 = (catalog w ++ [new_database n])%list)).
Proof.
  intros Hparse w1. subst w1.
  destruct (cursor_execute_cases (Sql (create_sql name)) w)
    as (r & Ho & Hl & Hio & [[-> Hc]|Hp]).
  - split; [exact Hio|]. left. exists server_fault. auto.
  - split; [exact Hio|]. unfold pg_execute in Hp. rewrite Hparse in Hp.
    unfold pg_statement in Hp.
    destruct (lookup_db n (catalog w)) as [d|] eqn:E.
    + injection Hp as <- Hc. left. exists duplicate_database.
      rewrite Ho, Hl, <- Hc. auto.
    + injection Hp as <- Hc. right. rewrite Ho, Hl, <- Hc. auto.
Qed.

Lemma comment_cases (name n : string) (w : world) :
  parse_statement (comment_sql name) = Some (CommentOnDatabase n TUSKER_COMMENT) ->
  let w1 := snd (cursor_execute (Sql (comment_sql name)) w) in
  same_io w w1 /\
  ((exists err,
      fst (cursor_execute (Sql (comment_sql name)) w) = surfaced (Rejected err) /\
      admin_log w1 = (admin_log w ++ [(Sql (comment_sql name), Rejected err)])%list /\
      catalog w1 = catalog w) \/
   (exists d,
      lookup_db n (catalog w) = Some d /\
      fst (cursor_execute (Sql (comment_sql name)) w) = Return [] /\
      admin_log w1
      = (admin_log w
         ++ [(Sql (comment_sql name), Accepted (Commented n TUSKER_COMMENT))])%list /\
      catalog w1 = update_db n (set_description TUSKER_COMMENT) (catalog w))).
Proof.
  intros Hparse w1. subst w1.
  destruct (cursor_execute_cases (Sql (comment_sql name)) w)
    as (r & Ho & Hl & Hio & [[-> Hc]|Hp]).
  - split; [exact Hio|]. left. exists server_fault. auto.
  - split; [exact Hio|]. unfold pg_execute in Hp. rewrite Hparse in Hp.
    unfold pg_statement in Hp.
    destruct (lookup_db n (catalog w)) as [d|] eqn:E.
    + injection Hp as <- Hc. right. exists d. rewrite Ho, Hl, <- Hc. auto.
    + injection Hp as <- Hc. left. exists invalid_catalog_name.
      rewrite Ho, Hl, <- Hc. auto.
Qed.

Lemma leak_free_createdb_try {A} (self : DatabaseAdmin) (name : string)
    (body : Engine -> M A) :
  (forall e, leak_free (body e)) -> leak_free (createdb_try self name body).
Proof.
  intros Hbody. unfold createdb_try. apply leak_free_bind.
  - apply leak_free_quiet.
    destruct (url (config self)); [destruct (truthy _)|]; apply quiet_create_engine.
  - intros e. apply leak_free_try_finally; [apply Hbody|].
    apply leak_free_quiet, quiet_engine_dispose.
Qed.

(** [createdb] around a leak-free block is leak-free, for a name that the
    three statements read alike. *)
Lemma leak_free_createdb {A} (self : DatabaseAdmin) (suffix : string)
    (body : Engine -> M A) :
  (forall now, let name := ephemeral_name (dbname (config self)) now suffix in
               reads_as name name) ->
  (forall e, leak_free (body e)) ->
  leak_free (createdb self suffix body).
Proof.
  intros Hname Hbody w. unfold createdb.
  rewrite bind_eq, time_time_eq. cbn [fst snd].
  set (name := ephemeral_name (dbname (config self)) (now_of w) suffix).
  destruct (Hname (now_of w)) as [Hcreate Hcomment Hdrop]. fold name in Hcreate, Hcomment, Hdrop.
  set (w0 := after_time w).
  assert (Hcat0 : catalog w0 = catalog w) by apply after_time_catalog.
  assert (Hlog0 : admin_log w0 = admin_log w) by apply after_time_log.
  rewrite bind_eq.
  destruct (create_cases name name w0 Hcreate)
    as (_ & [(err & Ho & Hl & Hc)|(Hfree & Ho & Hl & Hc)]); rewrite Ho; cbn [surfaced fst snd].
  { (* the creation statement is rejected *)
    eexists. split; [rewrite Hl, Hlog0; reflexivity|]. rewrite Hc, Hcat0.
    repeat split.
    - intros n [rq [H|[]]]. discriminate.
    - apply incl_refl. }
  set (w1 := snd (cursor_execute (Sql (create_sql name)) w0)) in *.
  rewrite Hcat0 in Hfree, Hc. rewrite Hlog0 in Hl.
  apply lookup_db_none in Hfree.
  assert (Hn1 : names (catalog w1) = (names (catalog w) ++ [name])%list).
  { rewrite Hc, names_app. reflexivity. }
  rewrite bind_eq.
  destruct (comment_cases name name w1 Hcomment)
    as (_ & [(err & Ho2 & Hl2 & Hc2)|(d & Hd & Ho2 & Hl2 & Hc2)]);
    rewrite Ho2; cbn [surfaced fst snd].
  { (* the marker statement is rejected *)
    eexists. split; [rewrite Hl2, Hl, <- app_assoc; reflexivity|].
    rewrite Hc2, Hn1. repeat split.
    - intros n [rq [H|[H|[]]]]; [|discriminate].
      injection H as _ <-. exact Hfree.
    - apply incl_appl, incl_refl.
    - intros H.
      apply (critical_ok_rejected _ (Sql (comment_sql name)) err) in H;
        [discriminate H|].
      apply in_or_app. right. now left. }
  set (w2 := snd (cursor_execute (Sql (comment_sql name)) w1)) in *.
  assert (Hn2 : names (catalog w2) = (names (catalog w) ++ [name])%list).
  { rewrite Hc2, names_update_db; [exact Hn1|reflexivity]. }
  unfold createdb_scope. rewrite try_finally_snd.
  destruct (leak_free_createdb_try self name body Hbody w2)
    as (db & Lb & Cb & Ib & Kb).
  set (w3 := snd (createdb_try self name body w2)) in *.
  destruct (teardown_effect name w3 Hdrop) as (dt & Lt & Ct & Nt & Kt).
  exists ([(Sql (create_sql name), Accepted (Created name));
           (Sql (comment_sql name), Accepted (Commented name TUSKER_COMMENT))]
          ++ db ++ dt)%list.
  assert (Hin3 : incl (names (catalog w)) (names (catalog w3))).
  { eapply incl_tran; [|exact Ib]. rewrite Hn2. apply incl_appl, incl_refl. }
  repeat split.
  - rewrite Lt, Lb, Hl2, Hl, <- !app_assoc. reflexivity.
  - intros n Hn. apply created_in_app in Hn as [Hn|Hn].
    + destruct Hn as [rq [H|[H|[]]]]; [|discriminate].
      injection H as _ <-. exact Hfree.
    + apply created_in_app in Hn as [Hn|Hn]; [|now apply Ct in Hn].
      intros Hin. apply (Cb n Hn). rewrite Hn2. apply in_or_app. now left.
  - destruct Nt as [-> | ->]; [exact Hin3|].
    now apply incl_filter_absent.
  - rewrite !critical_ok_app. intros H.
    apply andb_true_iff in H as [_ H]. apply andb_true_iff in H as [Hb Ht].
    specialize (Kb Hb). rewrite Hn2 in Kb.
    rewrite (Kt Ht); [rewrite Kb; now apply filter_drop_last|].
    rewrite Kb. apply in_or_app. right. now left.
Qed.

Lemma leak_free_bind_post {A B} (P : A -> Prop) (m : M A) (k : A -> M B) :
  leak_free m ->
  (forall w a w1, m w = (Return a, w1) -> P a) ->
  (forall a, P a -> leak_free (k a)) ->
  leak_free (bind m k).
Proof.
  intros Hm HP Hk w. rewrite bind_eq.
  destruct (Hm w) as (d1 & L1 & C1 & I1 & K1).
  destruct (m w) as [[a|e] w1] eqn:E; cbn [fst snd] in *; [|now exists d1].
  destruct (Hk a (HP w a w1 E) w1) as (d2 & L2 & C2 & I2 & K2).
  exists (d1 ++ d2)%list. now apply (leak_free_seq w w1).
Qed.

Lemma DatabaseAdmin_init_config (cfg : Config) (w w1 : world) (dba : DatabaseAdmin) :
  DatabaseAdmin_init cfg w = (Return dba, w1) -> config dba = database cfg.
Proof.
  unfold DatabaseAdmin_init. intros H.
  apply bind_return_inv in H as (c & w0 & _ & H).
  injection H as <- _. reflexivity.
Qed.

Lemma leak_free_cmd_diff (changes : list string -> list string -> string)
    (args : Args) (cfg : Config) :
  plain_prefix (dbname (database cfg)) = true ->
  leak_free (cmd_diff changes args cfg).
Proof.
  intros Hp. unfold cmd_diff.
  apply (leak_free_bind_post (fun dba => config dba = database cfg)).
  - apply leak_free_quiet, quiet_DatabaseAdmin_init.
  - intros w dba w1. apply DatabaseAdmin_init_config.
  - intros dba Hdba. apply leak_free_bind.
    + apply leak_free_quiet, quiet_when, quiet_print.
    + intros _. apply leak_free_createdb.
      * intros now. rewrite Hdba. now apply plain_name_reads.
      * intros se. apply leak_free_createdb.
        -- intros now. rewrite Hdba. now apply plain_name_reads.
        -- intros me. apply leak_free_quiet, quiet_diff_body.
Qed.

(** ** The no-leak property *)

(** C1 (as amended): for a base prefix that reads the same quoted and
    unquoted, a run of the diff operation in which every marker,
    session-termination and drop statement it issues goes through leaves
    the server with exactly the databases it had, and none of the
    databases the run created is among them -- whatever else fails
    (connecting, a creation statement, the engine, a script, the diff). *)
Theorem cmd_diff_no_leak (changes : list string -> list string -> string)
    (args : Args) (cfg : Config) (w : world) :
  plain_prefix (dbname (database cfg)) = true ->
  admin_log w = [] ->
  critical_ok (admin_log (snd (cmd_diff changes args cfg w))) = true ->
  names (catalog (snd (cmd_diff changes args cfg w))) = names (catalog w) /\
  forall n, created_in (admin_log (snd (cmd_diff changes args cfg w))) n ->
            ~ In n (names (catalog (snd (cmd_diff changes args cfg w)))).
Proof.
  intros Hp Hlog Hok.
  destruct (leak_free_cmd_diff changes args cfg Hp w) as (d & L & C & _ & K).
  rewrite Hlog in L. cbn [Datatypes.app] in L. rewrite L in Hok |- *.
  split; [now apply K|].
  intros n Hn. rewrite (K Hok). now apply C.
Qed.

(** A run whose schema script fails: both databases are gone afterwards. *)
Lemma cmd_diff_no_leak_witness :
  let w := example_world [] [false; false; false; false; false; false; false;
                             false; true] in
  plain_prefix (dbname (database example_cfg)) = true /\
  admin_log w = [] /\
  critical_ok (admin_log (snd (cmd_diff example_changes quiet_args example_cfg w)))
  = true /\
  fst (cmd_diff example_changes quiet_args example_cfg w)
  = Raise (Exn ProgrammingError "script failed") /\
  names (catalog (snd (cmd_diff example_changes quiet_args example_cfg w)))
  = names (catalog w) /\
  forall n,
    created_in (admin_log (snd (cmd_diff example_changes quiet_args example_cfg w))) n ->
    ~ In n (names (catalog (snd (cmd_diff example_changes quiet_args example_cfg w)))).
Proof.
  intros w.
  split; [reflexivity|]. split; [reflexivity|]. split; [vm_compute; reflexivity|].
  split; [vm_compute; reflexivity|].
  apply (cmd_diff_no_leak example_changes quiet_args example_cfg w);
    vm_compute; reflexivity.
Defined.

(** C1 (as stated) fails: when the drop statement of a teardown is
    rejected, the database that the run created is still on the server
    after the run. *)
Lemma cmd_diff_leaks_when_teardown_fails :
  let w := example_world [] [false; false; false; false; false; false; false;
                             false; false; false; false; false; false; false;
                             false; false; true] in
  let w' := snd (cmd_diff example_changes quiet_args example_cfg w) in
  In (Sql (drop_sql "app_1700000001_migrations"), Rejected server_fault)
     (admin_log w') /\
  created_in (admin_log w') "app_1700000001_migrations" /\
  In "app_1700000001_migrations" (names (catalog w')).
Proof.
  split; [|split].
  - vm_compute. tauto.
  - exists (Sql (create_sql "app_1700000001_migrations")).
    vm_compute. tauto.
  - vm_compute. tauto.
Qed.

(** ** The scope of an ephemeral database *)




Lemma world_eta (w : world) :
  mk_world (catalog w) (fs w) (faults w) (clock w) (admin_log w) (opened w)
           (stdout w) (stderr w) = w.
Proof. now destruct w. Qed.

Lemma fault_eq (w : world) : fault w = (Return (next_fault w), pop_fault w).
Proof.
  unfold fault, next_fault, pop_fault, set_faults.
  destruct (faults w) as [|b f] eqn:E; cbn; [|reflexivity].
  f_equal. rewrite <- E. symmetry. apply world_eta.
Qed.

Lemma guarded_eq {A} (e : exn) (m : M A) (w : world) :
  (failed <- fault ;; if failed then raise e else m) w
  = if next_fault w then (Raise e, pop_fault w) else m (pop_fault w).
Proof.
  unfold bind. rewrite fault_eq. destruct (next_fault w); reflexivity.
Qed.

Lemma calm_S (k : nat) (w : world) :
  calm (S k) w = true -> next_fault w = false /\ calm k (pop_fault w) = true.
Proof.
  unfold calm, next_fault, pop_fault. destruct (faults w) as [|b f]; cbn.
  - intros _. split; [reflexivity|]. now destruct k.
  - intros H. apply andb_true_iff in H as [Hb Hf]. split; [|exact Hf].
    now destruct b.
Qed.

Lemma cursor_execute_next (rq : request) (w : world) :
  cursor_execute rq w =
  if next_fault w
  then (surfaced (Rejected server_fault),
        log_admin rq (Rejected server_fault) (pop_fault w))
  else (surfaced (fst (pg_execute rq (catalog w))),
        log_admin rq (fst (pg_execute rq (catalog w)))
          (set_catalog (snd (pg_execute rq (catalog w))) (pop_fault w))).
Proof.
  rewrite cursor_execute_eq. unfold next_fault, pop_fault.
  destruct (faults w) as [|[|] f] eqn:E; cbn [nth tl].
  - destruct (pg_execute rq (catalog w)) as [r cat]. cbn [fst snd].
    replace (set_faults [] w) with w; [reflexivity|].
    unfold set_faults. rewrite <- E. symmetry. apply world_eta.
  - reflexivity.
  - destruct (pg_execute rq (catalog w)) as [r cat]. reflexivity.
Qed.

Lemma remove_update_same (n : string) (f : pg_database -> pg_database)
    (cat : list pg_database) :
  (forall d, datname (f d) = datname d) ->
  remove_db n (update_db n f cat) = remove_db n cat.
Proof.
  intros Hf. unfold remove_db, update_db, named.
  induction cat as [|d cat IH]; [reflexivity|].
  cbn [map filter]. destruct (String.eqb (datname d) n) eqn:E.
  - rewrite Hf, E. exact IH.
  - rewrite E. cbn. now rewrite IH.
Qed.

Lemma teardown_calm (name n : string) (w : world) :
  parse_statement (drop_sql name) = Some (DropDatabase n) ->
  calm 2 w = true ->
  teardown name w =
  let cat := update_db name (set_backends 0) (catalog w) in
  let w1 := log_admin (TerminateBackends name) (Accepted (Terminated name))
              (set_catalog cat (pop_fault w)) in
  let r := pg_statement (DropDatabase n) cat in
  (match fst r with Accepted _ => Return tt
                  | Rejected err => Raise (Exn (pg_error_class err) (pg_error_message err))
   end,
   log_admin (Sql (drop_sql name)) (fst r) (set_catalog (snd r) (pop_fault w1))).
Proof.
  intros Hp Hc. apply calm_S in Hc as [H1 Hc]. apply calm_S in Hc as [H2 _].
  unfold teardown. unfold bind at 1. rewrite cursor_execute_next, H1.
  cbn [pg_execute fst snd surfaced]. unfold bind at 1.
  rewrite cursor_execute_next.
  change (next_fault (log_admin _ _ (set_catalog _ (pop_fault w))))
    with (next_fault (pop_fault w)).
  rewrite H2. cbn [pg_execute catalog log_admin set_catalog]. rewrite Hp.
  cbv zeta. destruct (pg_statement _ _) as [[e|err] cat']; cbn [fst snd surfaced].
  - destruct e; reflexivity.
  - reflexivity.
Qed.

Lemma try_finally_final_ok {A} (m : M A) (f : M unit) (w w1 w2 : world)
    (o : outcome A) :
  m w = (o, w1) -> f w1 = (Return tt, w2) -> try_finally m f w = (o, w2).
Proof. intros Hm Hf. unfold try_finally. rewrite Hm. destruct o; now rewrite Hf. Qed.





(** ** The marker *)

Lemma createdb_eq {A} (self : DatabaseAdmin) (suffix : string)
    (body : Engine -> M A) (w : world) :
  let name := ephemeral_name (dbname (config self)) (now_of w) suffix in
  let w1 := snd (cursor_execute (Sql (create_sql name)) (after_time w)) in
  let w2 := snd (cursor_execute (Sql (comment_sql name)) w1) in
  createdb self suffix body w =
  match fst (cursor_execute (Sql (create_sql name)) (after_time w)) with
  | Raise e => (Raise e, w1)
  | Return _ =>
      match fst (cursor_execute (Sql (comment_sql name)) w1) with
      | Raise e => (Raise e, w2)
      | Return _ => createdb_scope self name body w2
      end
  end.
Proof.
  intros name w1 w2. unfold createdb.
  rewrite bind_eq, time_time_eq. cbn [fst snd]. fold name.
  rewrite bind_eq. fold w1.
  destruct (fst (cursor_execute (Sql (create_sql name)) (after_time w)));
    [|reflexivity].
  rewrite bind_eq. reflexivity.
Qed.

Lemma surfaced_rejected (err : pg_error) :
  surfaced (Rejected err) = Raise (Exn (pg_error_class err) (pg_error_message err)).
Proof. reflexivity. Qed.

Lemma create_unreadable (x : string) (w : world) :
  parse_statement (create_sql x) = None ->
  exists err, fst (cursor_execute (Sql (create_sql x)) w) = surfaced (Rejected err).
Proof.
  intros Hparse.
  destruct (cursor_execute_cases (Sql (create_sql x)) w)
    as (r & Ho & _ & _ & [[-> _]|Hp]).
  - now exists server_fault.
  - unfold pg_execute in Hp. rewrite Hparse in Hp. injection Hp as <- _.
    now exists syntax_error.
Qed.

(** C4 (as amended): the marker is written by a statement of its own,
    right after the creation statement and before the block of the scope
    starts.  Either [createdb] raises without entering the scope, or the
    scope is entered in a world where the database that was created
    carries the marker comment. *)
Theorem createdb_marks_before_body (self : DatabaseAdmin) (suffix : string)
    (w : world) :
  let name := ephemeral_name (dbname (config self)) (now_of w) suffix in
  (exists e w1,
      forall A (body : Engine -> M A),
        createdb self suffix body w = (Raise e, w1)) \/
  (exists w2 n d,
      (forall A (body : Engine -> M A),
          createdb self suffix body w = createdb_scope self name body w2) /\
      admin_log w2
      = (admin_log w
         ++ [(Sql (create_sql name), Accepted (Created n));
             (Sql (comment_sql name), Accepted (Commented n TUSKER_COMMENT))])%list /\
      lookup_db n (catalog w2) = Some d /\
      description d = Some TUSKER_COMMENT).
Proof.
  intros name.
  destruct (parse_statement (create_sql name)) as [st|] eqn:Hparse.
  - destruct (parse_create_comment name st Hparse) as (n & -> & Hcomment).
    destruct (create_cases name n (after_time w) Hparse)
      as (_ & [(err & Ho & Hl & Hc)|(Hfree & Ho & Hl & Hc)]).
    + left. do 2 eexists. intros A body.
      rewrite createdb_eq. fold name. rewrite Ho. reflexivity.
    + set (w1 := snd (cursor_execute (Sql (create_sql name)) (after_time w))) in *.
      destruct (comment_cases name n w1 Hcomment)
        as (_ & [(err & Ho2 & Hl2 & Hc2)|(d & Hd & Ho2 & Hl2 & Hc2)]).
      * left. do 2 eexists. intros A body.
        rewrite createdb_eq. fold name. rewrite Ho. fold w1. rewrite Ho2.
        reflexivity.
      * right.
        exists (snd (cursor_execute (Sql (comment_sql name)) w1)), n,
          (set_description TUSKER_COMMENT d).
        split; [|split; [|split]].
        -- intros A body. rewrite createdb_eq. fold name. rewrite Ho. fold w1.
           rewrite Ho2. reflexivity.
        -- rewrite Hl2, Hl, after_time_log, <- app_assoc. reflexivity.
        -- rewrite Hc2, lookup_db_update_same, Hd; reflexivity.
        -- reflexivity.
  - left. destruct (create_unreadable name (after_time w) Hparse) as [err Ho].
    do 2 eexists. intros A body.
    rewrite createdb_eq. fold name. rewrite Ho. reflexivity.
Qed.

(** C4 (as stated) fails: when the marker statement is rejected, the
    database exists without the marker, and the sweep does not find it. *)
Lemma database_without_marker :
  let w := example_world [] [false; false; true] in
  let w' := snd (cmd_diff example_changes quiet_args example_cfg w) in
  admin_log w'
  = [(Sql (create_sql "app_1700000000_schema"),
      Accepted (Created "app_1700000000_schema"));
     (Sql (comment_sql "app_1700000000_schema"), Rejected server_fault)] /\
  catalog w' = [mk_database "app_1700000000_schema" None 0 []] /\
  sweep_rows (catalog w') = [] /\
  catalog (snd (cmd_clean quiet_args example_cfg (example_world (catalog w') [])))
  = catalog w'.
Proof. vm_compute. repeat split; reflexivity. Qed.

(** ** Errors raised by the teardown *)





(** ** Quoting of the name *)

Lemma after_time_faults (w : world) : faults (after_time w) = faults w.
Proof. unfold after_time. destruct (clock w); reflexivity. Qed.

Lemma try_finally_final_raises {A} (m : M A) (f : M unit) (w : world) (e' : exn) :
  fst (f (snd (m w))) = Raise e' -> exists e, fst (try_finally m f w) = Raise e.
Proof.
  unfold try_finally. destruct (m w) as [[a|e] w1]; cbn [snd];
    destruct (f w1) as [[u|e''] w2]; cbn [fst]; try discriminate;
    intros _; eexists; reflexivity.
Qed.

Lemma teardown_unreadable (name : string) (w : world) :
  parse_statement (drop_sql name) = None ->
  (exists e, fst (teardown name w) = Raise e) /\
  names (catalog (snd (teardown name w))) = names (catalog w).
Proof.
  intros Hparse. unfold teardown. rewrite bind_eq.
  destruct (terminate_cases name w) as (_ & [(Ho & _ & Hc)|(Ho & _ & Hc)]);
    rewrite Ho; cbn [surfaced fst snd].
  - split; [eexists; reflexivity|now rewrite Hc].
  - set (w1 := snd (cursor_execute (TerminateBackends name) w)) in *.
    assert (Hn1 : names (catalog w1) = names (catalog w)).
    { rewrite Hc. apply names_update_db. reflexivity. }
    rewrite bind_eq.
    destruct (cursor_execute_cases (Sql (drop_sql name)) w1)
      as (r & Ho2 & _ & _ & [[-> Hc2]|Hp]).
    + rewrite Ho2. cbn [surfaced fst snd].
      split; [eexists; reflexivity|now rewrite Hc2].
    + unfold pg_execute in Hp. rewrite Hparse in Hp. injection Hp as <- Hc2.
      rewrite Ho2. cbn [surfaced fst snd].
      split; [eexists; reflexivity|now rewrite <- Hc2].
Qed.

(** C10 (as amended): the creation and marker statements carry the derived
    name in double quotes and the teardown's drop statement carries it
    bare.  For a derived name that is one word within the identifier
    limit -- identifier characters, hyphens and dots, no comment opener --
    and is not a valid unquoted identifier, the server reads the name
    itself in the first two statements and rejects the third as a syntax
    error; so on a server where the name is free and the two creation
    statements are not failed, creation succeeds (the scope is entered
    with the database marked), the teardown fails, the scope ends with an
    error and the server holds the databases the block left, the created
    one among them. *)
Theorem unquoted_drop_fails {A} (self : DatabaseAdmin) (suffix : string)
    (body : Engine -> M A) (w : world) :
  let name := ephemeral_name (dbname (config self)) (now_of w) suffix in
  one_word name = true ->
  fits_identifier name = true ->
  str_contains dquote name = false ->
  unquoted_ok name = false ->
  lookup_db name (catalog w) = None ->
  nth 0 (faults w) false = false ->
  nth 1 (faults w) false = false ->
  parse_statement (create_sql name) = Some (CreateDatabase name) /\
  parse_statement (comment_sql name)
  = Some (CommentOnDatabase name TUSKER_COMMENT) /\
  parse_statement (drop_sql name) = None /\
  exists w2 d,
    createdb self suffix body w = createdb_scope self name body w2 /\
    lookup_db name (catalog w2) = Some d /\
    description d = Some TUSKER_COMMENT /\
    (exists e, fst (createdb self suffix body w) = Raise e) /\
    names (catalog (snd (createdb self suffix body w)))
    = names (catalog (snd (createdb_try self name body w2))).
Proof.
  intros name _ _ Hq Hbad Hfree Hf0 Hf1.
  pose proof (ephemeral_name_not_empty (dbname (config self)) (now_of w) suffix)
    as Hne. fold name in Hne.
  pose proof (parse_create name Hq Hne) as Hcreate.
  pose proof (parse_comment name Hq Hne) as Hcomment.
  pose proof (parse_drop_rejected name Hq Hbad) as Hdrop.
  split; [exact Hcreate|]. split; [exact Hcomment|]. split; [exact Hdrop|].
  pose proof (createdb_eq self suffix body w) as Heq. cbn zeta in Heq.
  fold name in Heq.
  set (w0 := after_time w) in *.
  assert (Hcat0 : catalog w0 = catalog w) by apply after_time_catalog.
  assert (Hfl0 : faults w0 = faults w) by apply after_time_faults.
  (* the creation statement *)
  assert (H1 : cursor_execute (Sql (create_sql name)) w0
               = (Return [],
                  log_admin (Sql (create_sql name)) (Accepted (Created name))
                    (set_catalog (catalog w ++ [new_database name])%list
                       (set_faults (tl (faults w)) w0)))).
  { rewrite cursor_execute_eq, Hfl0. unfold pg_execute.
    rewrite Hcreate. unfold pg_statement. rewrite Hcat0, Hfree.
    destruct (faults w) as [|[|] f]; cbn in Hf0 |- *; try discriminate;
      try reflexivity.
    unfold set_faults. rewrite <- Hfl0. now destruct w0. }
  rewrite H1 in Heq. cbn [fst snd] in Heq.
  set (w1 := log_admin _ _ _) in *.
  assert (Hl1 : lookup_db name (catalog w1) = Some (new_database name)).
  { unfold w1. cbn [catalog log_admin set_catalog].
    rewrite lookup_db_app, Hfree. apply lookup_db_new. }
  (* the marker statement *)
  assert (H2 : exists w2,
             cursor_execute (Sql (comment_sql name)) w1 = (Return [], w2) /\
             catalog w2 = update_db name (set_description TUSKER_COMMENT) (catalog w1)).
  { rewrite cursor_execute_eq. unfold pg_execute.
    rewrite Hcomment. unfold pg_statement. rewrite Hl1.
    assert (Hf : faults w1 = tl (faults w)) by reflexivity. rewrite Hf.
    destruct (faults w) as [|b [|[|] f]]; cbn in Hf1 |- *; try discriminate;
      eexists; split; reflexivity. }
  destruct H2 as (w2 & H2 & Hc2). rewrite H2 in Heq. cbn [fst snd] in Heq.
  exists w2, (set_description TUSKER_COMMENT (new_database name)).
  split; [exact Heq|].
  split; [rewrite Hc2, lookup_db_update_same, Hl1; reflexivity|].
  split; [reflexivity|].
  rewrite Heq. unfold createdb_scope.
  destruct (teardown_unreadable name (snd (createdb_try self name body w2)) Hdrop)
    as [[e He] Hn].
  split.
  - exact (try_finally_final_raises _ _ w2 e He).
  - rewrite try_finally_snd. exact Hn.
Qed.

(** The prefix [my-app]: the two databases are created, no drop statement
    is readable. *)
Lemma unquoted_drop_fails_witness :
  let w := example_world [] [] in
  let name := "my-app_1700000000_schema" in
  one_word name = true /\
  fits_identifier name = true /\
  str_contains dquote name = false /\
  unquoted_ok name = false /\
  lookup_db name (catalog w) = None /\
  nth 0 (faults w) false = false /\
  nth 1 (faults w) false = false /\
  parse_statement (drop_sql name) = None /\
  exists e, fst (createdb dashed_admin "schema" (fun _ => ret tt) w) = Raise e.
Proof.
  intros w name. do 7 (split; [reflexivity|]).
  destruct (unquoted_drop_fails dashed_admin "schema" (fun _ => ret tt) w
              eq_refl eq_refl eq_refl eq_refl eq_refl eq_refl eq_refl)
    as (_ & _ & Hdrop & w2 & d & _ & _ & _ & He & _).
  split; [exact Hdrop|exact He].
Defined.

(** C10 (as stated) fails for a prefix with a double-quote character: the
    derived name is not a valid unquoted identifier, yet creation does not
    succeed -- the creation statement itself is rejected and no teardown is
    attempted. *)
Lemma quoted_prefix_creation_fails :
  let w := example_world [] [] in
  let name := ephemeral_name (dbname (database quoted_cfg)) 1700000000 "schema" in
  let w' := snd (cmd_diff example_changes quiet_args quoted_cfg w) in
  unquoted_ok name = false /\
  fst (cmd_diff example_changes quiet_args quoted_cfg w)
  = Raise (Exn ProgrammingError "syntax error") /\
  admin_log w' = [(Sql (create_sql name), Rejected syntax_error)] /\
  catalog w' = [].
Proof. vm_compute. repeat split; reflexivity. Qed.

(** ** Verbose mode *)

(** C3 fails on the code: every progress notice is printed with the
    keyword [out], which [print] does not have.  In verbose mode the diff
    operation raises at its first notice (unless connecting already
    failed): nothing reaches either stream, no database is created and no
    DDL script is printed. *)
Theorem verbose_diff_prints_nothing
    (changes : list string -> list string -> string) (cfg : Config) (w : world) :
  let r := fst (cmd_diff changes verbose_args cfg w) in
  let w' := snd (cmd_diff changes verbose_args cfg w) in
  (r = Raise (Exn TypeError "'out' is an invalid keyword argument for print()") \/
   r = Raise (Exn OperationalError "could not connect to server")) /\
  stdout w' = stdout w /\ stderr w' = stderr w /\
  catalog w' = catalog w /\ admin_log w' = admin_log w.
Proof.
  unfold cmd_diff, DatabaseAdmin_init, _connect, psycopg2_connect, bind, fault.
  destruct (truthy (url (database cfg))); destruct (faults w) as [|[|] f];
    cbn; auto 10.
Qed.

(** ** The sweep *)

Lemma mem_In (n : string) (l : list string) : mem n l = true <-> In n l.
Proof.
  unfold mem. rewrite existsb_exists. split.
  - intros (x & Hx & E). apply String.eqb_eq in E. now subst.
  - intros H. exists n. split; [exact H|apply String.eqb_refl].
Qed.

Lemma mem_cons (x n : string) (l : list string) :
  mem x (n :: l) = String.eqb x n || mem x l.
Proof. reflexivity. Qed.

Lemma drop_all_filter (l : list string) (cat : list pg_database) :
  drop_all l cat = filter (fun d => negb (mem (datname d) l)) cat.
Proof.
  revert cat. induction l as [|n l IH]; intros cat.
  - change (drop_all [] cat) with cat.
    induction cat as [|d cat IHc]; [reflexivity|].
    cbn [filter mem existsb negb]. f_equal. exact IHc.
  - change (drop_all (n :: l) cat) with (drop_all l (remove_db n cat)).
    rewrite IH. unfold remove_db, named.
    induction cat as [|d cat IHc]; [reflexivity|].
    cbn [filter]. rewrite mem_cons.
    destruct (String.eqb (datname d) n); cbn [negb orb filter]; [exact IHc|].
    destruct (negb (mem (datname d) l)); [now rewrite IHc|exact IHc].
Qed.

Lemma drop_all_In (l : list string) (cat : list pg_database) (d : pg_database) :
  In d (drop_all l cat) <-> In d cat /\ ~ In (datname d) l.
Proof.
  rewrite drop_all_filter, filter_In, negb_true_iff, <- mem_In.
  destruct (mem (datname d) l); intuition congruence.
Qed.

Lemma NoDup_map_inj {X Y} (f : X -> Y) (l : list X) (x y : X) :
  NoDup (map f l) -> In x l -> In y l -> f x = f y -> x = y.
Proof.
  induction l as [|a l IH]; simpl; [tauto|].
  intros Hnd Hx Hy E. inversion Hnd as [|? ? Hnotin Hnd']; subst.
  destruct Hx as [->|Hx], Hy as [->|Hy]; auto.
  - exfalso. apply Hnotin. rewrite E. now apply in_map.
  - exfalso. apply Hnotin. rewrite <- E. now apply in_map.
Qed.

Lemma NoDup_map_filter {X Y} (f : X -> Y) (p : X -> bool) (l : list X) :
  NoDup (map f l) -> NoDup (map f (filter p l)).
Proof.
  induction l as [|a l IH]; simpl; [auto|].
  intros Hnd. inversion Hnd as [|? ? Hnotin Hnd']; subst.
  destruct (p a); simpl; [|auto].
  constructor; [|auto].
  intros H. apply Hnotin. apply in_map_iff in H as (x & E & Hx).
  apply filter_In in Hx as [Hx _]. rewrite <- E. now apply in_map.
Qed.

Lemma NoDup_app_disjoint {X} (a b : list X) (x : X) :
  NoDup (a ++ b) -> In x a -> In x b -> False.
Proof.
  induction a as [|y a IH]; simpl; [tauto|].
  intros Hnd Ha Hb. inversion Hnd as [|? ? Hnotin Hnd']; subst.
  destruct Ha as [->|Ha]; [|now apply IH].
  apply Hnotin, in_or_app. now right.
Qed.

(** With unique database names, a name is among the rows exactly when its
    database carries the marker. *)
Lemma mem_sweep_rows (cat : list pg_database) (d : pg_database) :
  NoDup (names cat) -> In d cat ->
  mem (datname d) (sweep_rows cat) = marked d.
Proof.
  intros Hnd Hd. destruct (marked d) eqn:E.
  - apply mem_In. unfold sweep_rows, names. apply in_map.
    apply filter_In. now split.
  - destruct (mem (datname d) (sweep_rows cat)) eqn:Hm; [|reflexivity].
    apply mem_In in Hm. unfold sweep_rows, names in Hm.
    apply in_map_iff in Hm as (d' & En & Hd').
    apply filter_In in Hd' as [Hd' Hmark].
    rewrite (NoDup_map_inj datname cat d' d Hnd Hd' Hd En) in Hmark.
    congruence.
Qed.

Lemma drop_all_rows (cat : list pg_database) :
  NoDup (names cat) ->
  drop_all (sweep_rows cat) cat = filter (fun d => negb (marked d)) cat.
Proof.
  intros Hnd. rewrite drop_all_filter. apply filter_ext_in.
  intros d Hd. now rewrite mem_sweep_rows.
Qed.

Lemma strip_create_drop_quoted (x : string) :
  strip_prefix "CREATE DATABASE " (drop_quoted_sql x) = None.
Proof. reflexivity. Qed.

Lemma strip_comment_drop_quoted (x : string) :
  strip_prefix "COMMENT ON DATABASE " (drop_quoted_sql x) = None.
Proof. reflexivity. Qed.

Lemma parse_drop_quoted (n : string) :
  str_contains dquote n = false ->
  parse_statement (drop_quoted_sql n)
  = match n with EmptyString => None | _ => Some (DropDatabase n) end.
Proof.
  intros Hq. unfold parse_statement.
  rewrite strip_create_drop_quoted, strip_comment_drop_quoted.
  unfold drop_quoted_sql. rewrite strip_prefix_app.
  change (dq ++ n ++ dq) with (String dquote (n ++ String dquote "")).
  cbn [lex_ident]. rewrite Ascii.eqb_refl.
  rewrite (lex_quoted_plain n "" Hq eq_refl).
  destruct n; reflexivity.
Qed.

Lemma drop_orphan_eq (args : Args) (n : string) (w : world) :
  drop_orphan args n w =
  if str_contains dquote n then (Raise unsafe_name_error, w)
  else if verbose args
  then (Raise (Exn TypeError "'out' is an invalid keyword argument for print()"), w)
  else match fst (cursor_execute (Sql (drop_quoted_sql n)) w) with
       | Return _ => (Return tt, snd (cursor_execute (Sql (drop_quoted_sql n)) w))
       | Raise e => (Raise e, snd (cursor_execute (Sql (drop_quoted_sql n)) w))
       end.
Proof.
  unfold drop_orphan. destruct (str_contains dquote n); [reflexivity|].
  destruct (verbose args); [reflexivity|].
  rewrite bind_eq. cbn [ret fst snd]. rewrite bind_eq. cbn [when_ ret fst snd].
  rewrite bind_eq.
  destruct (fst (cursor_execute (Sql (drop_quoted_sql n)) w)); reflexivity.
Qed.

(** One row of the sweep: the drop statement is sent for a name without a
    double quote, in silent mode, and removes that database if accepted. *)
Lemma drop_orphan_cases (args : Args) (n : string) (w : world) :
  (drop_orphan args n w = (Raise unsafe_name_error, w) /\
   str_contains dquote n = true) \/
  (str_contains dquote n = false /\
   ((exists e, drop_orphan args n w = (Raise e, w)) \/
    (exists e resp,
        fst (drop_orphan args n w) = Raise e /\
        admin_log (snd (drop_orphan args n w))
        = (admin_log w ++ [(Sql (drop_quoted_sql n), resp)])%list /\
        catalog (snd (drop_orphan args n w)) = catalog w) \/
    (fst (drop_orphan args n w) = Return tt /\
     admin_log (snd (drop_orphan args n w))
     = (admin_log w ++ [(Sql (drop_quoted_sql n), Accepted (Dropped n))])%list /\
     catalog (snd (drop_orphan args n w)) = remove_db n (catalog w)))).
Proof.
  rewrite drop_orphan_eq. destruct (str_contains dquote n) eqn:Hq.
  - left. split; reflexivity.
  - right. split; [reflexivity|].
    destruct (verbose args); [left; eexists; reflexivity|].
    destruct (cursor_execute_cases (Sql (drop_quoted_sql n)) w)
      as (r & Ho & Hl & _ & [[-> Hc]|Hp]).
    + right. left. rewrite Ho. cbn [surfaced fst snd].
      do 2 eexists. split; [reflexivity|]. split; [exact Hl|exact Hc].
    + unfold pg_execute in Hp. rewrite (parse_drop_quoted n Hq) in Hp.
      destruct n as [|c n].
      { injection Hp as <- Hc. right. left. rewrite Ho. cbn [surfaced fst snd].
        do 2 eexists. split; [reflexivity|]. split; [exact Hl|now rewrite <- Hc]. }
      unfold pg_statement in Hp.
      destruct (lookup_db (String c n) (catalog w)) as [d|];
        [destruct (backends d =? 0)%nat|]; injection Hp as <- Hc;
        rewrite Ho; cbn [surfaced fst snd].
      * right. right. split; [reflexivity|]. split; [exact Hl|now rewrite <- Hc].
      * right. left. do 2 eexists. split; [reflexivity|].
        split; [exact Hl|now rewrite <- Hc].
      * right. left. do 2 eexists. split; [reflexivity|].
        split; [exact Hl|now rewrite <- Hc].
Qed.

(** The sweep loop sends drop statements for a prefix [sent] of the rows,
    all of them free of double quotes, and the catalog loses exactly the
    databases whose drop was accepted. *)
Lemma sweep_loop (args : Args) (rows : list string) (w : world) :
  exists sent rest dropped delta,
    rows = (sent ++ rest)%list /\
    Forall (fun n => str_contains dquote n = false) sent /\
    incl dropped sent /\
    catalog (snd (for_each rows (drop_orphan args) w))
    = drop_all dropped (catalog w) /\
    admin_log (snd (for_each rows (drop_orphan args) w))
    = (admin_log w ++ delta)%list /\
    (forall rq resp, In (rq, resp) delta ->
                     exists n, In n sent /\ rq = Sql (drop_quoted_sql n)) /\
    (fst (for_each rows (drop_orphan args) w) = Return tt ->
     rest = [] /\ dropped = rows).
Proof.
  revert w. induction rows as [|n rows IH]; intros w.
  - exists [], [], [], []. cbn. rewrite app_nil_r.
    repeat split; auto using incl_refl. intros rq resp [].
  - cbn [for_each]. rewrite bind_eq.
    assert (Hstop : forall e,
               drop_orphan args n w = (Raise e, w) ->
               exists sent rest dropped delta,
                 n :: rows = (sent ++ rest)%list /\
                 Forall (fun n => str_contains dquote n = false) sent /\
                 incl dropped sent /\
                 catalog (snd (Raise (A:=unit) e, w)) = drop_all dropped (catalog w) /\
                 admin_log (snd (Raise (A:=unit) e, w)) = (admin_log w ++ delta)%list /\
                 (forall rq resp, In (rq, resp) delta ->
                                  exists n, In n sent /\ rq = Sql (drop_quoted_sql n)) /\
                 (fst (Raise (A:=unit) e, w) = Return tt ->
                  rest = [] /\ dropped = n :: rows)).
    { intros e _. exists [], (n :: rows), [], []. cbn. rewrite app_nil_r.
      repeat split; auto using incl_refl; try discriminate. intros rq resp []. }
    destruct (drop_orphan_cases args n w)
      as [[H _]|[Hq [[e H]|[(e & resp & Ho & Hl & Hc)|(Ho & Hl & Hc)]]]].
    + rewrite H. cbn [fst snd]. exact (Hstop _ H).
    + rewrite H. cbn [fst snd]. exact (Hstop _ H).
    + rewrite Ho. cbn [fst snd].
      exists [n], rows, [], [(Sql (drop_quoted_sql n), resp)].
      repeat split; auto; try discriminate.
      * intros x [].
      * intros rq r [E|[]]. injection E as <- <-. exists n. split; [now left|reflexivity].
    + rewrite Ho.
      destruct (IH (snd (drop_orphan args n w)))
        as (sent & rest & dropped & delta & Hr & Hs & Hd & Hcat & Hlog & Hrq & Hok).
      exists (n :: sent), rest, (n :: dropped),
        ((Sql (drop_quoted_sql n), Accepted (Dropped n)) :: delta).
      repeat split.
      * cbn. now rewrite Hr.
      * now constructor.
      * intros x [<-|Hx]; [now left|right; now apply Hd].
      * rewrite Hcat, Hc. reflexivity.
      * rewrite Hlog, Hl, <- app_assoc. reflexivity.
      * intros rq r [E|Hin].
        -- injection E as <- <-. exists n. split; [now left|reflexivity].
        -- destruct (Hrq rq r Hin) as (m & Hm & ->). exists m.
           split; [now right|reflexivity].
      * now apply Hok.
      * destruct (Hok ltac:(assumption)) as [_ ->]. reflexivity.
Qed.

Lemma try_finally_ret {A} (m : M A) (w : world) :
  try_finally m (ret tt) w = m w.
Proof. unfold try_finally, ret. destruct (m w) as [[a|e] w1]; reflexivity. Qed.

Lemma DatabaseAdmin_init_frame (cfg : Config) (w : world) :
  catalog (snd (DatabaseAdmin_init cfg w)) = catalog w /\
  admin_log (snd (DatabaseAdmin_init cfg w)) = admin_log w.
Proof.
  unfold DatabaseAdmin_init, _connect, psycopg2_connect, bind, fault.
  destruct (truthy (url (database cfg))); destruct (faults w) as [|[|] f];
    split; reflexivity.
Qed.

(** The sweep before its loop: it fails without touching a database, or it
    enters the loop with the names of the marked databases. *)
Lemma cmd_clean_cases (args : Args) (cfg : Config) (w : world) :
  ((exists e, fst (cmd_clean args cfg w) = Raise e) /\
   catalog (snd (cmd_clean args cfg w)) = catalog w /\
   (admin_log (snd (cmd_clean args cfg w)) = admin_log w \/
    admin_log (snd (cmd_clean args cfg w))
    = (admin_log w ++ [(SelectMarked TUSKER_COMMENT, Rejected server_fault)])%list)) \/
  (exists w1,
      catalog w1 = catalog w /\
      admin_log w1
      = (admin_log w
         ++ [(SelectMarked TUSKER_COMMENT,
              Accepted (Selected (sweep_rows (catalog w))))])%list /\
      cmd_clean args cfg w
      = for_each (sweep_rows (catalog w)) (drop_orphan args) w1).
Proof.
  unfold cmd_clean. rewrite bind_eq.
  destruct (DatabaseAdmin_init_frame cfg w) as [Hc0 Hl0].
  destruct (fst (DatabaseAdmin_init cfg w)) as [dba|e].
  - set (w0 := snd (DatabaseAdmin_init cfg w)) in *.
    rewrite try_finally_ret, bind_eq.
    destruct (cursor_execute_cases (SelectMarked TUSKER_COMMENT) w0)
      as (r & Ho & Hl & _ & [[-> Hc]|Hp]).
    + left. rewrite Ho. cbn [surfaced fst snd].
      split; [eexists; reflexivity|]. rewrite Hc, Hl, Hc0, Hl0. auto.
    + right. cbn [pg_execute] in Hp. injection Hp as <- Hc.
      rewrite Ho. cbn [surfaced].
      exists (snd (cursor_execute (SelectMarked TUSKER_COMMENT) w0)).
      rewrite <- Hc, Hl, Hc0, Hl0. auto.
  - left. cbn [fst snd]. split; [eexists; reflexivity|]. auto.
Qed.


Lemma NoDup_names_decide (l : list string) :
  (fix nodup (l : list string) : bool :=
     match l with
     | [] => true
     | x :: l' => negb (mem x l') && nodup l'
     end) l = true -> NoDup l.
Proof.
  induction l as [|x l IH]; [constructor|].
  intros H. apply andb_true_iff in H as [Hx Hl]. constructor; [|now apply IH].
  intros Hin. apply mem_In in Hin. rewrite Hin in Hx. discriminate.
Qed.



(** ** Unsafe names in the sweep *)

Lemma prefix_before_unsafe {X} (P : X -> Prop) (sent rest pre post : list X) (bad : X) :
  (sent ++ rest = pre ++ bad :: post)%list ->
  Forall P sent -> ~ P bad ->
  exists mid, pre = (sent ++ mid)%list.
Proof.
  revert sent. induction pre as [|p pre IH]; intros sent E Hs Hbad.
  - destruct sent as [|s sent]; [now exists []|].
    cbn in E. injection E as -> _. inversion Hs; subst. contradiction.
  - destruct sent as [|s sent]; [now exists (p :: pre)|].
    cbn in E. injection E as -> E. inversion Hs; subst.
    destruct (IH sent E) as [mid ->]; auto. now exists mid.
Qed.

Lemma for_each_app {X} (a b : list X) (f : X -> M unit) (w : world) :
  for_each (a ++ b) f w = bind (for_each a f) (fun _ => for_each b f) w.
Proof.
  revert w. induction a as [|x a IH]; intros w; cbn [for_each Datatypes.app].
  - reflexivity.
  - unfold bind. destruct (f x w) as [[u|e] w1]; [|reflexivity].
    rewrite IH. reflexivity.
Qed.

Lemma select_marked_rows (t : string) (w w' : world) (rows : list string) :
  cursor_execute (SelectMarked t) w = (Return rows, w') ->
  rows = names (filter (has_description t) (catalog w)).
Proof.
  intros H.
  destruct (cursor_execute_cases (SelectMarked t) w)
    as (r & Ho & _ & _ & [[-> _]|Hp]); rewrite H in Ho; cbn [fst] in Ho.
  - discriminate.
  - cbn [pg_execute] in Hp. injection Hp as <- _. cbn in Ho. now injection Ho.
Qed.

(** C9: an orphan whose name contains a double quote makes the sweep fail,
    and its name is never put into a statement.  Whatever else happens,
    the sweep ends with an error, that database and every row after it
    stay as they are, and only rows before it are ever named in a drop
    statement.  If everything before that row went through, the error is
    the unsafe-name error, raised at once: the world is left as it was
    when the row was reached. *)
Theorem clean_unsafe_name (args : Args) (cfg : Config) (w : world)
    (pre post : list string) (bad : string) :
  NoDup (names (catalog w)) ->
  sweep_rows (catalog w) = (pre ++ bad :: post)%list ->
  str_contains dquote bad = true ->
  (exists e, fst (cmd_clean args cfg w) = Raise e) /\
  (forall d, In d (catalog w) -> In (datname d) (bad :: post) ->
             In d (catalog (snd (cmd_clean args cfg w)))) /\
  (forall rq resp,
      In (rq, resp) (admin_log (snd (cmd_clean args cfg w))) ->
      In (rq, resp) (admin_log w) \/ rq = SelectMarked TUSKER_COMMENT \/
      exists n, In n pre /\ rq = Sql (drop_quoted_sql n)) /\
  (forall w1,
      (DatabaseAdmin_init cfg ;;
       cursor_execute (SelectMarked TUSKER_COMMENT) ;;
       for_each pre (drop_orphan args)) w = (Return tt, w1) ->
      cmd_clean args cfg w = (Raise unsafe_name_error, w1)).
Proof.
  intros Hnd Hrows Hbad.
  assert (Hlast : forall w1,
      (DatabaseAdmin_init cfg ;;
       cursor_execute (SelectMarked TUSKER_COMMENT) ;;
       for_each pre (drop_orphan args)) w = (Return tt, w1) ->
      cmd_clean args cfg w = (Raise unsafe_name_error, w1)).
  { intros w1 H.
    apply bind_return_inv in H as (dba & w0 & Hinit & H).
    apply bind_return_inv in H as (rows & w0' & Hsel & Hpre).
    pose proof (select_marked_rows _ _ _ _ Hsel) as ->.
    pose proof (DatabaseAdmin_init_frame cfg w) as [Hc0 _].
    rewrite Hinit in Hc0. cbn [snd] in Hc0. rewrite Hc0 in Hsel.
    change (names (filter (has_description TUSKER_COMMENT) (catalog w)))
      with (sweep_rows (catalog w)) in Hsel.
    unfold cmd_clean, bind at 1. rewrite Hinit, try_finally_ret.
    unfold bind at 1. rewrite Hsel, Hrows, for_each_app.
    unfold bind at 1. rewrite Hpre. cbn [for_each]. unfold bind at 1.
    rewrite drop_orphan_eq, Hbad. reflexivity. }
  destruct (cmd_clean_cases args cfg w)
    as [(He & Hc & Hl)|(w1 & Hc1 & Hl1 & Heq)].
  - split; [exact He|]. rewrite Hc. split; [auto|]. split; [|exact Hlast].
    intros rq resp Hin. destruct Hl as [Hl|Hl]; rewrite Hl in Hin; [now left|].
    apply in_app_or in Hin as [Hin|[E|[]]]; [now left|].
    injection E as <- _. right. now left.
  - rewrite Heq.
    destruct (sweep_loop args (sweep_rows (catalog w)) w1)
      as (sent & rest & dropped & delta & Hr & Hs & Hd & Hcat & Hlog & Hrq & Hok).
    rewrite Hrows in Hr.
    assert (Hnot : ~ str_contains dquote bad = false) by congruence.
    destruct (prefix_before_unsafe _ sent rest pre post bad (eq_sym Hr) Hs Hnot)
      as [mid Hpre].
    split; [|split; [|split; [|rewrite <- Heq; exact Hlast]]].
    + destruct (fst (for_each (sweep_rows (catalog w)) (drop_orphan args) w1))
        as [[]|e] eqn:E; [|now exists e].
      destruct (Hok eq_refl) as [-> _]. rewrite app_nil_r in Hr. subst sent.
      rewrite Forall_forall in Hs.
      rewrite (Hs bad) in Hbad; [discriminate|].
      apply in_or_app. right. now left.
    + intros d Hin Hname. rewrite Hcat, Hc1. apply drop_all_In.
      split; [exact Hin|]. intros Hdrop. apply Hd in Hdrop.
      assert (Hrn : NoDup (pre ++ bad :: post)).
      { rewrite <- Hrows. unfold sweep_rows, names. now apply NoDup_map_filter. }
      apply (NoDup_app_disjoint pre (bad :: post) (datname d) Hrn); [|exact Hname].
      rewrite Hpre. apply in_or_app. now left.
    + intros rq resp Hin. rewrite Hlog, Hl1 in Hin.
      apply in_app_or in Hin as [Hin|Hin].
      * apply in_app_or in Hin as [Hin|[E|[]]]; [now left|].
        injection E as <- _. right. now left.
      * destruct (Hrq rq resp Hin) as (n & Hn & ->). right. right.
        exists n. split; [|reflexivity]. rewrite Hpre. apply in_or_app. now left.
Qed.

(** Three orphans, the second with a double quote in its name: the first
    is dropped, the second stops the sweep, the third is never reached. *)
Lemma clean_unsafe_name_witness :
  let w := example_world unsafe_catalog [] in
  NoDup (names (catalog w)) /\
  sweep_rows (catalog w)
  = (["app_1600000000_schema"] ++ unsafe_name
       :: ["app_1600000000_migrations"])%list /\
  str_contains dquote unsafe_name = true /\
  fst (cmd_clean quiet_args example_cfg w) = Raise unsafe_name_error /\
  names (catalog (snd (cmd_clean quiet_args example_cfg w)))
  = [unsafe_name; "app_1600000000_migrations"].
Proof.
  intros w.
  assert (Hnd : NoDup (names (catalog w))) by (apply NoDup_names_decide; reflexivity).
  split; [exact Hnd|]. split; [reflexivity|]. split; [reflexivity|].
  destruct (clean_unsafe_name quiet_args example_cfg w
              ["app_1600000000_schema"] ["app_1600000000_migrations"]
              unsafe_name Hnd eq_refl eq_refl)
    as (_ & _ & _ & H).
  rewrite (H (snd (cmd_clean quiet_args example_cfg w))).
  - split; [reflexivity|]. vm_compute. reflexivity.
  - vm_compute. reflexivity.
Defined.

(** ** Order of the migration files *)

Lemma leb_cases (a b : string) :
  String.leb a b = true <-> a = b \/ String_as_OT.lt a b.
Proof.
  unfold String.leb. split.
  - destruct (String.compare a b) eqn:E; try discriminate; intros _.
    + left. now apply String.compare_eq_iff.
    + right. now apply String_as_OT.cmp_lt.
  - intros [->|H].
    + assert (E : String.compare b b = Eq) by now apply String_as_OT.cmp_eq.
      now rewrite E.
    + apply String_as_OT.cmp_lt in H. unfold String_as_OT.cmp in H.
      now rewrite H.
Qed.

Lemma str_le_trans (a b c : string) : str_le a b -> str_le b c -> str_le a c.
Proof.
  unfold str_le. rewrite !leb_cases.
  intros [->|H1] [->|H2]; auto.
  right. exact (String_as_OT.lt_trans a b c H1 H2).
Qed.

Lemma insert_sorted_perm (x : string) (l : list string) :
  Permutation (insert_sorted x l) (x :: l).
Proof.
  induction l as [|y l IH]; cbn [insert_sorted]; [apply Permutation_refl|].
  destruct (String.leb x y); [apply Permutation_refl|].
  eapply perm_trans; [apply perm_skip, IH|apply perm_swap].
Qed.

Lemma sorted_perm (l : list string) : Permutation (sorted l) l.
Proof.
  induction l as [|x l IH]; cbn [sorted]; [constructor|].
  eapply perm_trans; [apply insert_sorted_perm|now apply perm_skip].
Qed.

Lemma insert_sorted_sorted (x : string) (l : list string) :
  StronglySorted str_le l -> StronglySorted str_le (insert_sorted x l).
Proof.
  induction l as [|y l IH]; cbn [insert_sorted]; intros Hs.
  - repeat constructor.
  - inversion Hs as [|? ? Hl Hy]; subst.
    destruct (String.leb x y) eqn:E.
    + constructor; [exact Hs|]. constructor; [exact E|].
      eapply Forall_impl; [|exact Hy]. intros z Hz.
      exact (str_le_trans x y z E Hz).
    + constructor; [now apply IH|].
      apply (Permutation_Forall (Permutation_sym (insert_sorted_perm x l))).
      constructor; [|exact Hy].
      destruct (String.leb_total x y) as [H|H]; [congruence|exact H].
Qed.

Lemma sorted_sorted (l : list string) : StronglySorted str_le (sorted l).
Proof.
  induction l as [|x l IH]; cbn [sorted]; [constructor|].
  now apply insert_sorted_sorted.
Qed.

Lemma filter_sorted (p : string -> bool) (l : list string) :
  StronglySorted str_le l -> StronglySorted str_le (filter p l).
Proof.
  induction 1 as [|x l Hl IH Hx]; cbn [filter]; [constructor|].
  destruct (p x); [|exact IH]. constructor; [exact IH|].
  apply Forall_forall. intros y Hy. apply filter_In in Hy as [Hy _].
  rewrite Forall_forall in Hx. now apply Hx.
Qed.

Lemma filter_perm (p : string -> bool) (l l' : list string) :
  Permutation l l' -> Permutation (filter p l) (filter p l').
Proof.
  induction 1 as [|x l l' _ IH|x y l|l l' l'' _ IH1 _ IH2]; cbn [filter].
  - constructor.
  - destruct (p x); [now apply perm_skip|exact IH].
  - destruct (p x), (p y); try apply Permutation_refl. apply perm_swap.
  - eapply perm_trans; eassumption.
Qed.

Lemma sorted_split_after (l1 l2 : list string) (x y : string) :
  StronglySorted str_le (l1 ++ x :: l2) -> In y l2 -> str_le x y.
Proof.
  induction l1 as [|z l1 IH]; cbn [Datatypes.app]; intros Hs Hy.
  - inversion Hs as [|? ? _ Hx]; subst. rewrite Forall_forall in Hx. now apply Hx.
  - inversion Hs; subst. now apply IH.
Qed.

Lemma apply_migration_eq (args : Args) (cfg : Config) (c : Connection)
    (f : string) (w : world) :
  apply_migration args cfg c f w =
  if negb (is_sql f) then (Return tt, w)
  else if verbose args then (Raise print_type_error, w)
  else
    let path := os_path_join (directory (migrations cfg)) f in
    match assoc path (files (fs w)) with
    | None => (Raise (Exn FileNotFoundError path), log_open path w)
    | Some sql =>
        if strip_nonempty sql
        then connection_execute c sql (log_open path w)
        else (Return tt, log_open path w)
    end.
Proof.
  unfold apply_migration, is_sql. destruct (negb (endswith f ".sql")); [reflexivity|].
  destruct (verbose args); [reflexivity|].
  cbn [when_]. unfold bind at 1. cbn [ret]. unfold bind, open_read.
  destruct (assoc _ (files (fs w))) as [sql|]; [|reflexivity].
  destruct (strip_nonempty sql); reflexivity.
Qed.

Lemma connection_execute_io (c : Connection) (sql : string) (w : world) :
  same_io w (snd (connection_execute c sql w)).
Proof.
  unfold connection_execute, bind, fault, same_io.
  destruct (faults w) as [|[|] f]; cbn [set_faults catalog ret raise fst snd];
    try destruct (lookup_db (connected_to c) (catalog w));
    cbn; repeat split; reflexivity.
Qed.

(** The files the migration loop opens: the [.sql] entries of the sorted
    listing, in that order, up to the first one that fails. *)
Lemma migration_loop_opened (args : Args) (cfg : Config) (c : Connection)
    (l : list string) (w : world) :
  let join := os_path_join (directory (migrations cfg)) in
  (exists k,
      opened (snd (for_each l (apply_migration args cfg c) w))
      = (opened w ++ map join (firstn k (filter is_sql l)))%list) /\
  (fst (for_each l (apply_migration args cfg c) w) = Return tt ->
   opened (snd (for_each l (apply_migration args cfg c) w))
   = (opened w ++ map join (filter is_sql l))%list).
Proof.
  intros join. revert w. induction l as [|f l IH]; intros w.
  - split; [exists 0|intros _]; cbn; now rewrite app_nil_r.
  - cbn [for_each filter]. rewrite bind_eq, apply_migration_eq.
    destruct (is_sql f); cbn [negb].
    2:{ cbn [fst snd]. apply IH. }
    destruct (verbose args).
    { cbn [fst snd]. split; [exists 0; cbn; now rewrite app_nil_r|discriminate]. }
    cbn zeta. fold (join f).
    assert (Hstop : forall (e : exn) (w1 : world),
               opened w1 = (opened w ++ [join f])%list ->
               (exists k, opened (snd (Raise (A:=unit) e, w1))
                          = (opened w ++ map join (firstn k (f :: filter is_sql l)))%list) /\
               (fst (Raise (A:=unit) e, w1) = Return tt ->
                opened (snd (Raise (A:=unit) e, w1))
                = (opened w ++ map join (f :: filter is_sql l))%list)).
    { intros e w1 H. split; [exists 1; exact H|discriminate]. }
    assert (Hgo : forall w1,
               opened w1 = (opened w ++ [join f])%list ->
               (exists k, opened (snd (for_each l (apply_migration args cfg c) w1))
                          = (opened w ++ map join (firstn k (f :: filter is_sql l)))%list) /\
               (fst (for_each l (apply_migration args cfg c) w1) = Return tt ->
                opened (snd (for_each l (apply_migration args cfg c) w1))
                = (opened w ++ map join (f :: filter is_sql l))%list)).
    { intros w1 H. destruct (IH w1) as [[k Hk] Hall]. split.
      - exists (S k). rewrite Hk, H, <- app_assoc. reflexivity.
      - intros Hok. rewrite (Hall Hok), H, <- app_assoc. reflexivity. }
    destruct (assoc (join f) (files (fs w))) as [sql|].
    + destruct (strip_nonempty sql).
      * pose proof (connection_execute_io c sql (log_open (join f) w))
          as (_ & Hopen & _).
        destruct (connection_execute c sql (log_open (join f) w)) as [[[]|e] w1];
          cbn [fst snd] in *; [apply Hgo|apply Hstop]; exact Hopen.
      * cbn [fst snd]. now apply Hgo.
    + cbn [fst snd]. now apply Hstop.
Qed.

(** ** What the diff engine is given *)

Lemma fault_cases (w : world) :
  exists b w1,
    fault w = (Return b, w1) /\
    catalog w1 = catalog w /\ fs w1 = fs w /\ stdout w1 = stdout w.
Proof.
  unfold fault. destruct (faults w) as [|b f]; do 2 eexists; repeat split.
Qed.

Lemma guarded_return_inv {A} (e : exn) (m : M A) (w w' : world) (a : A) :
  (failed <- fault ;; if failed then raise e else m) w = (Return a, w') ->
  exists w1,
    m w1 = (Return a, w') /\
    catalog w1 = catalog w /\ fs w1 = fs w /\ stdout w1 = stdout w.
Proof.
  intros H. apply bind_return_inv in H as (b & w1 & Hf & H).
  destruct (fault_cases w) as (b' & w1' & Hf' & Hc & Hfs & Ho).
  rewrite Hf in Hf'. injection Hf' as <- <-.
  destruct b; [discriminate|]. now exists w1.
Qed.

Lemma engine_connect_inv (e : Engine) (w w' : world) (c : Connection) :
  engine_connect e w = (Return c, w') ->
  connected_to c = engine_dbname e /\ fs w' = fs w /\ stdout w' = stdout w /\
  exists d,
    lookup_db (engine_dbname e) (catalog w) = Some d /\
    catalog w'
    = update_db (engine_dbname e) (set_backends (S (backends d))) (catalog w).
Proof.
  intros H. apply guarded_return_inv in H as (w1 & H & Hc & Hfs & Ho).
  rewrite Hc in H.
  destruct (lookup_db (engine_dbname e) (catalog w)) as [d|] eqn:E; [|discriminate].
  injection H as <- <-. cbn. repeat split; auto. now exists d.
Qed.

Lemma connection_execute_inv (c : Connection) (sql : string) (w w' : world) :
  connection_execute c sql w = (Return tt, w') ->
  fs w' = fs w /\ stdout w' = stdout w /\
  catalog w' = update_db (connected_to c) (add_commands (commands_of sql)) (catalog w).
Proof.
  intros H. apply guarded_return_inv in H as (w1 & H & Hc & Hfs & Ho).
  destruct (lookup_db (connected_to c) (catalog w1)) as [d|]; [|discriminate].
  injection H as <-. cbn. rewrite Hc. auto.
Qed.

Lemma when_print_out_inv (b : bool) (text : string) (w w' : world) :
  when_ b (print text out_stderr) w = (Return tt, w') -> b = false /\ w' = w.
Proof.
  destruct b; cbn [when_]; [discriminate|].
  intros H. injection H as <-. auto.
Qed.

Lemma open_read_inv (p : string) (w w' : world) (s : string) :
  open_read p w = (Return s, w') ->
  assoc p (files (fs w)) = Some s /\ w' = log_open p w.
Proof.
  unfold open_read. destruct (assoc p (files (fs w))); [|discriminate].
  intros H. injection H as <- <-. auto.
Qed.

Lemma os_listdir_inv (p : string) (w w' : world) (l : list string) :
  os_listdir p w = (Return l, w') ->
  assoc p (dirs (fs w)) = Some l /\ w' = w.
Proof.
  unfold os_listdir. destruct (assoc p (dirs (fs w))); [|discriminate].
  intros H. injection H as <- <-. auto.
Qed.

Lemma migra_Migration_inv (a b : Engine) (w w' : world) (m : Migration) :
  migra_Migration a b w = (Return m, w') ->
  fs w' = fs w /\ stdout w' = stdout w /\ catalog w' = catalog w /\
  exists da db,
    lookup_db (engine_dbname a) (catalog w) = Some da /\
    lookup_db (engine_dbname b) (catalog w) = Some db /\
    m = mk_Migration (applied da) (applied db) true "".
Proof.
  intros H. apply guarded_return_inv in H as (w1 & H & Hc & Hfs & Ho).
  rewrite Hc in H.
  destruct (lookup_db (engine_dbname a) (catalog w)) as [da|]; [|discriminate].
  destruct (lookup_db (engine_dbname b) (catalog w)) as [db|]; [|discriminate].
  injection H as <- <-. repeat split; auto. now exists da, db.
Qed.


(** A migration loop that completes has executed, in the connection's
    database and in order, the non-blank scripts of the [.sql] entries. *)
Lemma migration_loop_applied (args : Args) (cfg : Config) (c : Connection)
    (l : list string) (w w' : world) :
  let join := os_path_join (directory (migrations cfg)) in
  for_each l (apply_migration args cfg c) w = (Return tt, w') ->
  fs w' = fs w /\ stdout w' = stdout w /\
  (forall m, m <> connected_to c ->
             lookup_db m (catalog w') = lookup_db m (catalog w)) /\
  (forall d, lookup_db (connected_to c) (catalog w) = Some d ->
             exists d',
               lookup_db (connected_to c) (catalog w') = Some d' /\
               applied d'
               = (applied d ++ scripts_of (fs w) (map join (filter is_sql l)))%list).
Proof.
  intros join. revert w. induction l as [|f l IH]; intros w H.
  - injection H as <-. repeat split; auto.
    intros d Hd. exists d. cbn. now rewrite app_nil_r.
  - cbn [for_each] in H. apply bind_return_inv in H as ([] & w1 & Hf & H).
    rewrite apply_migration_eq in Hf. cbn [filter].
    destruct (is_sql f); cbn [negb] in Hf.
    2:{ injection Hf as <-. now apply IH. }
    destruct (verbose args); [discriminate|]. cbn zeta in Hf. fold (join f) in Hf.
    cbn [map scripts_of flat_map]. fold (scripts_of (fs w) (map join (filter is_sql l))).
    destruct (assoc (join f) (files (fs w))) as [sql|]; [|discriminate].
    destruct (IH w1 H) as (Hfs & Ho & Hother & Hsame).
    destruct (strip_nonempty sql).
    + apply connection_execute_inv in Hf as (Hfs1 & Ho1 & Hc1).
      cbn [fs stdout catalog log_open] in Hfs1, Ho1, Hc1.
      rewrite Hfs, Ho, Hfs1, Ho1. repeat split.
      * intros m Hm. rewrite (Hother m Hm), Hc1.
        now apply lookup_db_update_other.
      * intros d Hd.
        destruct (Hsame (add_commands (commands_of sql) d)) as (d' & Hd' & Hap).
        { rewrite Hc1, lookup_db_update_same, Hd; reflexivity. }
        exists d'. split; [exact Hd'|].
        rewrite Hap, Hfs1. cbn [add_commands applied]. now rewrite <- app_assoc.
    + injection Hf as <-. cbn [fs stdout catalog log_open] in *.
      cbn [Datatypes.app]. repeat split; auto.
Qed.



(** ** The migration files in a run of the block *)

Lemma keeps_files_ret {A} (a : A) : keeps_files (ret a).
Proof. intros w. now split. Qed.

Lemma keeps_files_guarded {A} (e : exn) (m : M A) :
  keeps_files m ->
  keeps_files (failed <- fault ;; if failed then raise e else m).
Proof.
  intros H w. rewrite guarded_eq. destruct (next_fault w); [now split|].
  exact (H (pop_fault w)).
Qed.

Lemma keeps_files_when_print (b : bool) (text : string) :
  keeps_files (when_ b (print text out_stderr)).
Proof. intros w. destruct b; now split. Qed.

Lemma keeps_files_engine_connect (e : Engine) : keeps_files (engine_connect e).
Proof.
  apply keeps_files_guarded. intros w.
  destruct (lookup_db (engine_dbname e) (catalog w)); now split.
Qed.

Lemma keeps_files_when_execute (b : bool) (c : Connection) (sql : string) :
  keeps_files (when_ b (connection_execute c sql)).
Proof.
  destruct b; [|apply keeps_files_ret].
  apply keeps_files_guarded. intros w.
  destruct (lookup_db (connected_to c) (catalog w)); now split.
Qed.

Lemma keeps_files_diff_tail (changes : list string -> list string -> string)
    (args : Args) (se me : Engine) :
  keeps_files
    (when_ (verbose args) (print "Diffing..." out_stderr) ;;
     migration <- migra_Migration me se ;;
     migration <- add_all_changes changes (set_safety migration false) ;;
     print (migration_sql migration) [("end", kw_str "")]).
Proof.
  intros w. rewrite bind_eq.
  destruct (keeps_files_when_print (verbose args) "Diffing..." w) as [Hf Ho].
  destruct (fst (when_ (verbose args) (print "Diffing..." out_stderr) w));
    [|now split].
  set (w1 := snd (when_ (verbose args) (print "Diffing..." out_stderr) w)) in *.
  unfold migra_Migration. rewrite bind_eq, guarded_eq.
  destruct (next_fault w1); cbn [fst snd]; [now split|].
  change (catalog (pop_fault w1)) with (catalog w1).
  destruct (lookup_db (engine_dbname me) (catalog w1)) as [da|]; [|now split].
  destruct (lookup_db (engine_dbname se) (catalog w1)) as [db|]; [|now split].
  cbn [fst snd]. unfold add_all_changes. rewrite bind_eq, guarded_eq.
  destruct (next_fault (pop_fault w1)); cbn [fst snd ret]; now split.
Qed.

Lemma print_end_eq (text : string) (w : world) :
  print text [("end", kw_str "")] w = (Return tt, write_stdout (text ++ "") w).
Proof. reflexivity. Qed.

(** The files a run of the block opens, whatever its outcome: the schema
    file, then the [.sql] entries of the listing in sorted order, up to
    the point where the run ended. *)
Lemma diff_body_opened (changes : list string -> list string -> string)
    (args : Args) (cfg : Config) (se me : Engine) (w : world)
    (listing : list string) :
  let join := os_path_join (directory (migrations cfg)) in
  let paths := filename (schema cfg)
               :: map join (filter is_sql (sorted listing)) in
  assoc (directory (migrations cfg)) (dirs (fs w)) = Some listing ->
  (exists k,
      opened (snd (diff_body changes args cfg se me w))
      = (opened w ++ firstn k paths)%list) /\
  (fst (diff_body changes args cfg se me w) = Return tt ->
   opened (snd (diff_body changes args cfg se me w)) = (opened w ++ paths)%list).
Proof.
  intros join paths Hdir.
  assert (Hstop : forall (e : exn) (w' : world) (k : nat),
             opened w' = (opened w ++ firstn k paths)%list ->
             (exists k, opened (snd (@Raise unit e, w'))
                        = (opened w ++ firstn k paths)%list) /\
             (fst (@Raise unit e, w') = Return tt ->
              opened (snd (@Raise unit e, w')) = (opened w ++ paths)%list)).
  { intros e w' k H. split; [now exists k|discriminate]. }
  assert (H0 : forall w', opened w' = opened w ->
                          opened w' = (opened w ++ firstn 0 paths)%list).
  { intros w' H. cbn. now rewrite app_nil_r. }
  assert (H1 : forall w', opened w' = (opened w ++ [filename (schema cfg)])%list ->
                          opened w' = (opened w ++ firstn 1 paths)%list).
  { intros w' H. exact H. }
  unfold diff_body.
  (* schema_cursor = schema_engine.connect() *)
  rewrite bind_eq. destruct (keeps_files_engine_connect se w) as [Hf1 Ho1].
  destruct (fst (engine_connect se w)) as [sc|e]; [|apply (Hstop e _ 0); auto].
  set (w1 := snd (engine_connect se w)) in *.
  rewrite bind_eq.
  destruct (keeps_files_when_print (verbose args) "Creating target schema..." w1)
    as [Hf2 Ho2].
  destruct (fst (when_ (verbose args) (print "Creating target schema..." out_stderr) w1));
    [|apply (Hstop e _ 0); apply H0; congruence].
  set (w2 := snd (when_ (verbose args) _ w1)) in *.
  (* the schema file *)
  destruct (assoc (filename (schema cfg)) (files (fs w2))) as [sql|] eqn:Es.
  2:{ assert (Eo : open_read (filename (schema cfg)) w2
                   = (Raise (Exn FileNotFoundError (filename (schema cfg))),
                      log_open (filename (schema cfg)) w2))
        by (unfold open_read; now rewrite Es).
      rewrite bind_eq, Eo. cbn [fst snd].
      apply (Hstop _ _ 1). apply H1. cbn. congruence. }
  assert (Eo : open_read (filename (schema cfg)) w2
               = (Return sql, log_open (filename (schema cfg)) w2))
    by (unfold open_read; now rewrite Es).
  rewrite bind_eq, Eo. cbn [fst snd].
  set (w3 := log_open (filename (schema cfg)) w2).
  assert (Ho3 : opened w3 = (opened w ++ [filename (schema cfg)])%list)
    by (cbn; congruence).
  assert (Hf3 : fs w3 = fs w) by (cbn; congruence).
  rewrite bind_eq.
  destruct (keeps_files_when_execute (strip_nonempty sql) sc sql w3) as [Hf4 Ho4].
  destruct (fst (when_ (strip_nonempty sql) (connection_execute sc sql) w3));
    [|apply (Hstop e _ 1); apply H1; congruence].
  set (w4 := snd (when_ (strip_nonempty sql) _ w3)) in *.
  rewrite bind_eq.
  destruct (keeps_files_when_print (verbose args) "Creating migrated schema..." w4)
    as [Hf5 Ho5].
  destruct (fst (when_ (verbose args) (print "Creating migrated schema..." out_stderr) w4));
    [|apply (Hstop e _ 1); apply H1; congruence].
  set (w5 := snd (when_ (verbose args) _ w4)) in *.
  (* migrations_cursor = migrations_engine.connect() *)
  rewrite bind_eq. destruct (keeps_files_engine_connect me w5) as [Hf6 Ho6].
  destruct (fst (engine_connect me w5)) as [mc|e];
    [|apply (Hstop e _ 1); apply H1; congruence].
  set (w6 := snd (engine_connect me w5)) in *.
  (* the listing and the loop *)
  assert (El : os_listdir (directory (migrations cfg)) w6 = (Return listing, w6)).
  { unfold os_listdir.
    replace (fs w6) with (fs w) by congruence. now rewrite Hdir. }
  rewrite bind_eq, El. cbn [fst snd]. rewrite bind_eq.
  destruct (migration_loop_opened args cfg mc (sorted listing) w6) as [[k Hk] Hall].
  fold join in Hk, Hall.
  assert (Ho6' : opened w6 = (opened w ++ [filename (schema cfg)])%list) by congruence.
  destruct (fst (for_each (sorted listing) (apply_migration args cfg mc) w6))
    as [[]|e] eqn:Eloop.
  2:{ apply (Hstop e _ (S k)). rewrite Hk, Ho6', <- app_assoc.
      cbn [firstn Datatypes.app paths]. now rewrite firstn_map. }
  specialize (Hall eq_refl).
  set (w7 := snd (for_each (sorted listing) (apply_migration args cfg mc) w6)) in *.
  destruct (keeps_files_diff_tail changes args se me w7) as [_ Ho8].
  assert (Hfull : opened (snd ((when_ (verbose args) (print "Diffing..." out_stderr) ;;
                                migration <- migra_Migration me se ;;
                                migration <- add_all_changes changes
                                               (set_safety migration false) ;;
                                print (migration_sql migration) [("end", kw_str "")]) w7))
                  = (opened w ++ paths)%list).
  { rewrite Ho8, Hall, Ho6', <- app_assoc. reflexivity. }
  split; [|intros _; exact Hfull].
  exists (length paths). now rewrite firstn_all.
Qed.

(** The block, when it completes, has executed in the migrations database
    the non-blank scripts of the [.sql] entries, in sorted order. *)
Lemma diff_body_applied (changes : list string -> list string -> string)
    (args : Args) (cfg : Config) (se me : Engine) (w w' : world)
    (dm : pg_database) :
  let join := os_path_join (directory (migrations cfg)) in
  diff_body changes args cfg se me w = (Return tt, w') ->
  engine_dbname se <> engine_dbname me ->
  lookup_db (engine_dbname me) (catalog w) = Some dm ->
  exists listing dm',
    assoc (directory (migrations cfg)) (dirs (fs w)) = Some listing /\
    lookup_db (engine_dbname me) (catalog w') = Some dm' /\
    applied dm'
    = (applied dm
       ++ scripts_of (fs w) (map join (filter is_sql (sorted listing))))%list.
Proof.
  intros join H Hne Hdm. unfold diff_body in H.
  assert (Hne' : engine_dbname me <> engine_dbname se) by congruence.
  apply bind_return_inv in H as (sc & w1 & H1 & H).
  apply engine_connect_inv in H1 as (Hsc & Hfs1 & Ho1 & d1 & Hd1 & Hc1).
  apply bind_return_inv in H as ([] & w2 & H2 & H).
  apply when_print_out_inv in H2 as [Hverbose ->].
  apply bind_return_inv in H as (sql & w3 & H3 & H).
  apply open_read_inv in H3 as [Hsql ->].
  apply bind_return_inv in H as ([] & w4 & H4 & H).
  apply bind_return_inv in H as ([] & w5 & H5 & H).
  apply when_print_out_inv in H5 as [_ ->].
  apply bind_return_inv in H as (mc & w6 & H6 & H).
  apply engine_connect_inv in H6 as (Hmc & Hfs6 & Ho6 & d6 & Hd6 & Hc6).
  apply bind_return_inv in H as (listing & w7 & H7 & H).
  apply os_listdir_inv in H7 as [Hlisting ->].
  apply bind_return_inv in H as ([] & w8 & H8 & H).
  apply migration_loop_applied in H8 as (Hfs8 & Ho8 & Hother & Hsame).
  apply bind_return_inv in H as ([] & w9 & H9 & H).
  apply when_print_out_inv in H9 as [_ ->].
  apply bind_return_inv in H as (m & w10 & H10 & H).
  apply migra_Migration_inv in H10 as (Hfs10 & Ho10 & Hc10 & _).
  apply bind_return_inv in H as (m' & w11 & H11 & H).
  apply guarded_return_inv in H11 as (w11' & H11 & Hc11 & _).
  injection H11 as _ <-.
  rewrite print_end_eq in H. injection H as <-.
  (* the migrations database before the loop *)
  assert (H4' : fs w4 = fs w /\
                lookup_db (engine_dbname me) (catalog w4) = Some dm).
  { destruct (strip_nonempty sql); cbn [when_] in H4.
    - apply connection_execute_inv in H4 as (Hfs4 & _ & Hc4).
      cbn [fs catalog log_open] in Hfs4, Hc4. split; [congruence|].
      rewrite Hc4, Hsc, Hc1.
      rewrite !lookup_db_update_other by (auto || reflexivity). exact Hdm.
    - injection H4 as <-. cbn [fs catalog log_open]. split; [exact Hfs1|].
      rewrite Hc1, lookup_db_update_other by (auto || reflexivity). exact Hdm. }
  destruct H4' as [Hfs4 Hdm4].
  rewrite Hfs6, Hfs4 in Hlisting.
  rewrite Hmc in Hsame.
  destruct (Hsame (set_backends (S (backends d6)) dm)) as (d8 & Hd8 & Hap8).
  { rewrite Hc6, lookup_db_update_same, Hdm4; reflexivity. }
  exists listing, d8. split; [exact Hlisting|].
  split.
  - cbn [catalog write_stdout]. now rewrite Hc11, Hc10.
  - rewrite Hap8, Hfs6, Hfs4. reflexivity.
Qed.

(** C6: the block of the diff goes through the [.sql] entries of the
    migration directory in lexicographic order of their names.  There is
    an arrangement of those entries, ascending when the names are
    well-formed text, such that in every run, whatever its outcome, the
    files opened are the schema file and then the entries in that
    arrangement, up to the point where the run ended; a run that
    completes has opened them all and has executed their non-blank
    scripts in the migrations database in that same order.  When the
    directory has [10-a.sql] and [2-b.sql], the turn of [2-b.sql] comes
    after [10-a.sql], never before. *)
Theorem migrations_in_lexicographic_order
    (changes : list string -> list string -> string)
    (args : Args) (cfg : Config) (se me : Engine) (w : world)
    (listing : list string) (dm : pg_database) :
  let join := os_path_join (directory (migrations cfg)) in
  let run := diff_body changes args cfg se me w in
  assoc (directory (migrations cfg)) (dirs (fs w)) = Some listing ->
  engine_dbname se <> engine_dbname me ->
  lookup_db (engine_dbname me) (catalog w) = Some dm ->
  exists order,
    Permutation order (filter is_sql listing) /\
    (forallb utf8_valid listing = true -> StronglySorted str_le order) /\
    (In "10-a.sql" listing -> In "2-b.sql" listing ->
     forall l1 l2, order = (l1 ++ "2-b.sql" :: l2)%list ->
                   In "10-a.sql" l1 /\ ~ In "10-a.sql" l2) /\
    (exists k,
        opened (snd run)
        = (opened w ++ firstn k (filename (schema cfg) :: map join order))%list) /\
    (fst run = Return tt ->
     opened (snd run)
     = (opened w ++ filename (schema cfg) :: map join order)%list /\
     exists dm',
       lookup_db (engine_dbname me) (catalog (snd run)) = Some dm' /\
       applied dm' = (applied dm ++ scripts_of (fs w) (map join order))%list).
Proof.
  intros join run Hdir Hne Hdm.
  set (order := filter is_sql (sorted listing)).
  assert (Hperm : Permutation order (filter is_sql listing))
    by apply filter_perm, sorted_perm.
  assert (Hsorted : StronglySorted str_le order)
    by apply filter_sorted, sorted_sorted.
  destruct (diff_body_opened changes args cfg se me w listing Hdir) as [Hk Hall].
  exists order. split; [exact Hperm|]. split; [intros _; exact Hsorted|].
  split; [|split].
  - intros Ha Hb l1 l2 E.
    assert (Hafter : ~ In "10-a.sql" l2).
    { intros Hin. rewrite E in Hsorted.
      pose proof (sorted_split_after l1 l2 _ _ Hsorted Hin) as H.
      unfold str_le in H. vm_compute in H. discriminate. }
    split; [|exact Hafter].
    assert (Hin : In "10-a.sql" order).
    { apply (Permutation_in _ (Permutation_sym Hperm)).
      apply filter_In. split; [exact Ha|reflexivity]. }
    rewrite E in Hin. apply in_app_or in Hin as [Hin|[Hin|Hin]]; auto.
    + discriminate.
    + contradiction.
  - exact Hk.
  - intros Hret. split; [exact (Hall Hret)|].
    assert (Hrun : diff_body changes args cfg se me w = (Return tt, snd run)).
    { unfold run in *. destruct (diff_body changes args cfg se me w) as [o w'].
      cbn [fst snd] in *. now rewrite Hret. }
    destruct (diff_body_applied changes args cfg se me w (snd run) dm Hrun Hne Hdm)
      as (listing' & dm' & Hdir' & Hdm' & Hap).
    rewrite Hdir in Hdir'. injection Hdir' as <-.
    exists dm'. split; [exact Hdm'|exact Hap].
Qed.

(** The example directory, [2-b.sql], [README], [10-a.sql]: the scripts
    are executed in the migrations database in the order [10-a.sql],
    [2-b.sql]. *)
Lemma migrations_in_lexicographic_order_witness :
  let se := mk_Engine "postgresql://" "s" in
  let me := mk_Engine "postgresql://" "m" in
  let w := example_world [new_database "s"; new_database "m"] [] in
  let run := diff_body example_changes quiet_args example_cfg se me w in
  forallb utf8_valid ["2-b.sql"; "README"; "10-a.sql"] = true /\
  fst run = Return tt /\
  opened (snd run)
  = ["schema.sql"; "migrations/10-a.sql"; "migrations/2-b.sql"] /\
  exists order dm',
    StronglySorted str_le order /\
    opened (snd run) = "schema.sql" :: map (os_path_join "migrations") order /\
    lookup_db "m" (catalog (snd run)) = Some dm' /\
    applied dm' = scripts_of example_fs (map (os_path_join "migrations") order).
Proof.
  intros se me w run.
  assert (Hne : engine_dbname se <> engine_dbname me) by discriminate.
  assert (Hret : fst run = Return tt) by (vm_compute; reflexivity).
  split; [reflexivity|]. split; [exact Hret|].
  split; [vm_compute; reflexivity|].
  destruct (migrations_in_lexicographic_order example_changes quiet_args
              example_cfg se me w ["2-b.sql"; "README"; "10-a.sql"]
              (new_database "m") eq_refl Hne eq_refl)
    as (order & _ & Hsorted & _ & _ & Hdone).
  destruct (Hdone Hret) as (Hopen & dm' & Hdm' & Hap).
  exists order, dm'. split; [exact (Hsorted eq_refl)|]. split; [exact Hopen|].
  split; [exact Hdm'|exact Hap].
Defined.

Lemma after_time_io (w : world) : same_io w (after_time w).
Proof. unfold after_time, same_io. destruct (clock w); cbn; auto. Qed.

Lemma teardown_io (name : string) (w : world) : same_io w (snd (teardown name w)).
Proof.
  rewrite teardown_snd.
  destruct (cursor_execute_cases (TerminateBackends name) w) as (r & _ & _ & Hio & _).
  destruct (fst (cursor_execute (TerminateBackends name) w)); [|exact Hio].
  destruct (cursor_execute_cases (Sql (drop_sql name))
              (snd (cursor_execute (TerminateBackends name) w)))
    as (r2 & _ & _ & Hio2 & _).
  unfold same_io in *. intuition congruence.
Qed.





(** * Further properties of the program *)

(** ** Connecting *)

Lemma DatabaseAdmin_init_next (cfg : Config) (w : world) :
  DatabaseAdmin_init cfg w =
  if next_fault w then (Raise connect_error, pop_fault w)
  else (Return (mk_DatabaseAdmin (database cfg) (mk_connection "template1" true)),
        pop_fault w).
Proof.
  unfold DatabaseAdmin_init, _connect, psycopg2_connect. unfold bind at 1.
  destruct (truthy (url (database cfg))); rewrite guarded_eq;
    destruct (next_fault w); reflexivity.
Qed.

(** X1: when the admin connection cannot be opened, either command ends
    with the connection error before anything is created: no statement
    is sent, the server and both output streams are as they were. *)
Theorem connect_failure_touches_nothing
    (changes : list string -> list string -> string)
    (args : Args) (cfg : Config) (w : world) :
  next_fault w = true ->
  (fst (cmd_diff changes args cfg w) = Raise connect_error /\
   catalog (snd (cmd_diff changes args cfg w)) = catalog w /\
   admin_log (snd (cmd_diff changes args cfg w)) = admin_log w /\
   stdout (snd (cmd_diff changes args cfg w)) = stdout w /\
   stderr (snd (cmd_diff changes args cfg w)) = stderr w) /\
  (fst (cmd_clean args cfg w) = Raise connect_error /\
   catalog (snd (cmd_clean args cfg w)) = catalog w /\
   admin_log (snd (cmd_clean args cfg w)) = admin_log w /\
   stdout (snd (cmd_clean args cfg w)) = stdout w /\
   stderr (snd (cmd_clean args cfg w)) = stderr w).
Proof.
  intros H.
  assert (Hd : cmd_diff changes args cfg w = (Raise connect_error, pop_fault w)).
  { unfold cmd_diff. unfold bind at 1. now rewrite DatabaseAdmin_init_next, H. }
  assert (Hc : cmd_clean args cfg w = (Raise connect_error, pop_fault w)).
  { unfold cmd_clean. unfold bind at 1. now rewrite DatabaseAdmin_init_next, H. }
  rewrite Hd, Hc. cbn. repeat split; reflexivity.
Qed.

(** A server that cannot be reached. *)
Lemma connect_failure_touches_nothing_witness :
  let w := example_world sweep_catalog [true] in
  next_fault w = true /\
  fst (cmd_diff example_changes quiet_args example_cfg w) = Raise connect_error /\
  fst (cmd_clean quiet_args example_cfg w) = Raise connect_error /\
  catalog (snd (cmd_clean quiet_args example_cfg w)) = sweep_catalog.
Proof.
  intros w.
  destruct (connect_failure_touches_nothing example_changes quiet_args
              example_cfg w eq_refl) as ((Hd & _) & Hc & Hcat & _).
  split; [reflexivity|]. split; [exact Hd|]. split; [exact Hc|exact Hcat].
Defined.

(** ** Names *)

Lemma last_char_app (a b : string) :
  b <> "" -> last_char (a ++ b) = last_char b.
Proof.
  intros Hb. induction a as [|c a IH]; [reflexivity|].
  cbn [append last_char]. rewrite IH.
  destruct (a ++ b) eqn:E; [|reflexivity].
  destruct a; [cbn in E; congruence|discriminate].
Qed.

Lemma ephemeral_name_last (p : string) (now : N) (s : string) :
  s <> "" -> last_char (ephemeral_name p now s) = last_char s.
Proof.
  intros Hs. unfold ephemeral_name.
  rewrite !last_char_app; try reflexivity; try exact Hs;
    destruct s; try congruence; try discriminate;
    destruct (str_of_N now); discriminate.
Qed.

Lemma append_inj_l (a x y : string) : a ++ x = a ++ y -> x = y.
Proof.
  induction a as [|c a IH]; cbn [append]; [auto|].
  intros H. injection H as H. auto.
Qed.

Lemma append_length (a b : string) :
  String.length (a ++ b) = String.length a + String.length b.
Proof. induction a as [|c a IH]; cbn; [reflexivity|]. now rewrite IH. Qed.

Lemma append_inj_r (a b x : string) : a ++ x = b ++ x -> a = b.
Proof.
  revert b. induction a as [|c a IH]; intros [|d b] H; cbn [append] in H.
  - reflexivity.
  - exfalso. apply (f_equal String.length) in H. cbn in H.
    rewrite append_length in H. lia.
  - exfalso. apply (f_equal String.length) in H. cbn in H.
    rewrite append_length in H. lia.
  - injection H as -> H. f_equal. now apply IH.
Qed.

Lemma str_of_N_inj (n m : N) : str_of_N n = str_of_N m -> n = m.
Proof.
  unfold str_of_N. intros H.
  assert (Hn : forall k, N.to_uint k <> Nil).
  { intros [|p]; [discriminate|]. apply DecimalPos.Unsigned.to_uint_nonnil. }
  apply (f_equal NilZero.uint_of_string) in H.
  rewrite !NilZero.usu in H by apply Hn.
  injection H as H. now apply DecimalN.Unsigned.to_uint_inj.
Qed.

(** X2: the names of ephemeral databases keep invocations apart on the
    server.  For derived names within the identifier limit and without a
    double quote, the creation statements of the schema and the migrations
    database of a run name two different databases, whatever the clock
    readings; and for one prefix and suffix, the creation statements of
    runs started at different seconds name different databases. *)
Theorem ephemeral_names_distinct (p : string) (t1 t2 : N) (s1 s2 : string) :
  let n1 := ephemeral_name p t1 s1 in
  let n2 := ephemeral_name p t2 s2 in
  str_contains dquote n1 = false -> str_contains dquote n2 = false ->
  fits_identifier n1 = true -> fits_identifier n2 = true ->
  (s1 = "schema" /\ s2 = "migrations") \/ (s1 = s2 /\ t1 <> t2) ->
  parse_statement (create_sql n1) = Some (CreateDatabase n1) /\
  parse_statement (create_sql n2) = Some (CreateDatabase n2) /\
  n1 <> n2.
Proof.
  intros n1 n2 Hq1 Hq2 _ _ Hcase.
  split; [apply parse_create; [exact Hq1|apply ephemeral_name_not_empty]|].
  split; [apply parse_create; [exact Hq2|apply ephemeral_name_not_empty]|].
  unfold n1, n2. destruct Hcase as [[-> ->]|[-> Ht]].
  - intros H. apply (f_equal last_char) in H.
    rewrite !ephemeral_name_last in H by discriminate. discriminate.
  - unfold ephemeral_name. intros H. apply Ht.
    apply append_inj_l in H. apply (append_inj_l "_") in H.
    apply append_inj_r in H. now apply str_of_N_inj.
Qed.

Lemma ephemeral_names_distinct_witness :
  let n1 := ephemeral_name "my-app" 1700000000 "schema" in
  let n2 := ephemeral_name "my-app" 1700000001 "schema" in
  str_contains dquote n1 = false /\ str_contains dquote n2 = false /\
  fits_identifier n1 = true /\ fits_identifier n2 = true /\
  (1700000000 <> 1700000001)%N /\
  parse_statement (create_sql n1) = Some (CreateDatabase n1) /\
  n1 <> n2.
Proof.
  intros n1 n2.
  assert (Ht : (1700000000 <> 1700000001)%N) by discriminate.
  do 4 (split; [reflexivity|]). split; [exact Ht|].
  destruct (ephemeral_names_distinct "my-app" 1700000000 1700000001
              "schema" "schema" eq_refl eq_refl eq_refl eq_refl
              (or_intror (conj eq_refl Ht))) as (H1 & _ & H3).
  split; [exact H1|exact H3].
Defined.

(** ** Creation and teardown *)

Lemma next_fault_after_time (w : world) : next_fault (after_time w) = next_fault w.
Proof. unfold next_fault. now rewrite after_time_faults. Qed.

(** X3: when a database of the derived name is already there, [createdb]
    ends at its first statement with the server's duplicate-database
    error: the block is never entered, no teardown runs, and the database
    that was there is neither marked nor dropped. *)
Theorem createdb_name_taken {A} (self : DatabaseAdmin) (suffix : string)
    (body : Engine -> M A) (w : world) (d : pg_database) :
  let name := ephemeral_name (dbname (config self)) (now_of w) suffix in
  str_contains dquote name = false ->
  lookup_db name (catalog w) = Some d ->
  next_fault w = false ->
  fst (createdb self suffix body w) = Raise duplicate_error /\
  catalog (snd (createdb self suffix body w)) = catalog w /\
  admin_log (snd (createdb self suffix body w))
  = (admin_log w ++ [(Sql (create_sql name), Rejected duplicate_database)])%list.
Proof.
  intros name Hq Hd Hf.
  assert (Hp : parse_statement (create_sql name) = Some (CreateDatabase name)).
  { apply parse_create; [exact Hq|apply ephemeral_name_not_empty]. }
  assert (Hc : cursor_execute (Sql (create_sql name)) (after_time w)
               = (Raise duplicate_error,
                  log_admin (Sql (create_sql name)) (Rejected duplicate_database)
                    (set_catalog (catalog w) (pop_fault (after_time w))))).
  { rewrite cursor_execute_next, next_fault_after_time, Hf, after_time_catalog.
    cbn [pg_execute]. rewrite Hp. cbn [pg_statement]. rewrite Hd. reflexivity. }
  rewrite createdb_eq. fold name. rewrite Hc. cbn [fst snd].
  repeat split. cbn. now rewrite after_time_log.
Qed.

Lemma createdb_name_taken_witness :
  let w := example_world [new_database "my-app_1700000000_schema"] [] in
  let name := "my-app_1700000000_schema" in
  str_contains dquote name = false /\
  lookup_db name (catalog w) = Some (new_database name) /\
  next_fault w = false /\
  fst (createdb dashed_admin "schema" (fun _ => ret tt) w) = Raise duplicate_error /\
  catalog (snd (createdb dashed_admin "schema" (fun _ => ret tt) w)) = catalog w.
Proof.
  intros w name. do 3 (split; [reflexivity|]).
  destruct (createdb_name_taken dashed_admin "schema" (fun _ => ret tt) w
              (new_database name) eq_refl eq_refl eq_refl) as (H1 & H2 & _).
  split; [exact H1|exact H2].
Defined.

(** X4: the teardown removes the database whatever sessions are open on
    it.  For a name that reads the same quoted and unquoted, and with the
    two statements of the teardown not failed by the server, the teardown
    returns and the server holds what it held without that database:
    every other database is as it was, its sessions included. *)
Theorem teardown_drops_despite_sessions (name : string) (w : world)
    (d : pg_database) :
  unquoted_ok name = true -> no_upper name = true ->
  lookup_db name (catalog w) = Some d ->
  calm 2 w = true ->
  fst (teardown name w) = Return tt /\
  catalog (snd (teardown name w)) = remove_db name (catalog w).
Proof.
  intros Hu Hn Hd Hc.
  rewrite (teardown_calm name name w (parse_drop_plain name Hu Hn) Hc).
  cbv zeta. cbn [pg_statement].
  rewrite lookup_db_update_same by reflexivity. rewrite Hd. cbn.
  split; [reflexivity|]. now apply remove_update_same.
Qed.

Lemma teardown_drops_despite_sessions_witness :
  let busy := mk_database "app_1_schema" (Some TUSKER_COMMENT) 3 [] in
  let other := mk_database "other" None 2 [] in
  let w := example_world [other; busy] [] in
  unquoted_ok "app_1_schema" = true /\
  no_upper "app_1_schema" = true /\
  lookup_db "app_1_schema" (catalog w) = Some busy /\
  calm 2 w = true /\
  fst (teardown "app_1_schema" w) = Return tt /\
  catalog (snd (teardown "app_1_schema" w)) = [other].
Proof.
  intros busy other w. do 4 (split; [reflexivity|]).
  destruct (teardown_drops_despite_sessions "app_1_schema" w busy
              eq_refl eq_refl eq_refl eq_refl) as (H1 & H2).
  split; [exact H1|]. rewrite H2. reflexivity.
Defined.

(** X5: the unquoted drop statement of the teardown folds upper-case
    letters.  For a derived name that is a valid identifier with an
    upper-case letter, the created database is still there after the
    teardown; the teardown fails when no database has the folded name, and
    when one has it and is idle that database is dropped in its place. *)
Theorem teardown_folds_upper_case (name : string) (w : world) :
  unquoted_ok name = true ->
  downcase name <> name ->
  In name (names (catalog w)) ->
  calm 2 w = true ->
  In name (names (catalog (snd (teardown name w)))) /\
  (lookup_db (downcase name) (catalog w) = None ->
   fst (teardown name w) = Raise missing_error /\
   names (catalog (snd (teardown name w))) = names (catalog w)) /\
  (forall v, lookup_db (downcase name) (catalog w) = Some v -> backends v = 0 ->
             fst (teardown name w) = Return tt /\
             ~ In (downcase name) (names (catalog (snd (teardown name w))))).
Proof.
  intros Hu Hne Hin Hc.
  rewrite (teardown_calm name (downcase name) w (parse_drop_unquoted name Hu) Hc).
  cbv zeta. cbn [pg_statement].
  rewrite lookup_db_update_other by (reflexivity || exact Hne).
  assert (Hnames : names (update_db name (set_backends 0) (catalog w))
                   = names (catalog w))
    by (apply names_update_db; reflexivity).
  assert (Hkeep : In name
            (names (remove_db (downcase name)
                      (update_db name (set_backends 0) (catalog w))))).
  { rewrite names_remove_db, Hnames. apply filter_In. split; [exact Hin|].
    apply negb_true_iff, String.eqb_neq. congruence. }
  assert (Hgone : ~ In (downcase name)
            (names (remove_db (downcase name)
                      (update_db name (set_backends 0) (catalog w))))).
  { rewrite names_remove_db. intros H. apply filter_In in H as [_ H].
    now rewrite String.eqb_refl in H. }
  destruct (lookup_db (downcase name) (catalog w)) as [v|] eqn:Hv.
  - destruct (backends v =? 0)%nat eqn:Hb; cbn [fst snd catalog log_admin set_catalog].
    + split; [exact Hkeep|]. split; [discriminate|].
      intros v' _ _. split; [reflexivity|exact Hgone].
    + split; [now rewrite Hnames|]. split; [discriminate|].
      intros v' Hv' Hb'. injection Hv' as <-. rewrite Hb' in Hb. discriminate.
  - cbn [fst snd catalog log_admin set_catalog].
    split; [now rewrite Hnames|]. split; [|discriminate].
    intros _. split; [reflexivity|exact Hnames].
Qed.

Lemma teardown_folds_upper_case_witness :
  let mine := mk_database "App_1_schema" (Some TUSKER_COMMENT) 0 [] in
  let bystander := mk_database "app_1_schema" None 0 [] in
  let w := example_world [mine; bystander] [] in
  unquoted_ok "App_1_schema" = true /\
  downcase "App_1_schema" <> "App_1_schema" /\
  In "App_1_schema" (names (catalog w)) /\
  calm 2 w = true /\
  fst (teardown "App_1_schema" w) = Return tt /\
  In "App_1_schema" (names (catalog (snd (teardown "App_1_schema" w)))) /\
  ~ In "app_1_schema" (names (catalog (snd (teardown "App_1_schema" w)))).
Proof.
  intros mine bystander w.
  assert (H2 : downcase "App_1_schema" <> "App_1_schema") by discriminate.
  assert (H3 : In "App_1_schema" (names (catalog w))) by (left; reflexivity).
  split; [reflexivity|]. split; [exact H2|]. split; [exact H3|].
  split; [reflexivity|].
  destruct (teardown_folds_upper_case "App_1_schema" w eq_refl H2 H3 eq_refl)
    as (Hk & _ & Hd).
  destruct (Hd bystander eq_refl eq_refl) as (Hr & Hg).
  split; [exact Hr|]. split; [exact Hk|exact Hg].
Defined.

(** ** The statements of the sweep *)

Lemma lex_quoted_length (k : nat) :
  forall s n r,
    (String.length s <= k)%nat ->
    lex_quoted s = Some (n, r) ->
    (String.length n + String.length r + 1 <= String.length s)%nat /\
    ((String.length n + String.length r + 1 = String.length s)%nat ->
     str_contains dquote n = false).
Proof.
  induction k as [|k IH]; intros s n r Hk H.
  - destruct s; [discriminate|cbn in Hk; lia].
  - destruct s as [|c s]; [discriminate|].
    cbn [lex_quoted] in H. destruct (Ascii.eqb c dquote) eqn:Ec.
    + destruct s as [|d s].
      * injection H as <- <-. cbn. split; [lia|reflexivity].
      * destruct (Ascii.eqb d dquote) eqn:Ed.
        -- destruct (lex_quoted s) as [[n' r']|] eqn:E; [|discriminate].
           injection H as <- <-.
           destruct (IH s n' r') as [Hl _]; [cbn in Hk; lia|exact E|].
           cbn [String.length]. split; lia.
        -- injection H as <- <-. cbn [String.length]. split; [lia|reflexivity].
    + destruct (lex_quoted s) as [[n' r']|] eqn:E; [|discriminate].
      injection H as <- <-.
      destruct (IH s n' r') as [Hl He]; [cbn in Hk; lia|exact E|].
      cbn [String.length str_contains]. split; [lia|].
      intros Hlen. rewrite Ascii.eqb_sym, Ec. apply He. lia.
Qed.

(** X6: the quoted drop statement of the sweep names a row's database
    exactly when the row has no double quote, so the check that precedes
    it refuses the names the statement would misread and no others. *)
Theorem quoted_drop_names_row (n : string) :
  n <> "" ->
  (parse_statement (drop_quoted_sql n) = Some (DropDatabase n)
   <-> str_contains dquote n = false).
Proof.
  intros Hn. split.
  - unfold parse_statement.
    rewrite strip_create_drop_quoted, strip_comment_drop_quoted.
    unfold drop_quoted_sql. rewrite strip_prefix_app.
    change (dq ++ n ++ dq) with (String dquote (n ++ dq)).
    cbn [lex_ident]. rewrite Ascii.eqb_refl.
    destruct (lex_quoted (n ++ dq)) as [[m r]|] eqn:E; [|discriminate].
    intros H.
    assert (Hm : m = n /\ r = "").
    { destruct m; [discriminate|]. destruct r; [|discriminate].
      injection H as H. now split. }
    destruct Hm as [-> ->].
    apply (lex_quoted_length _ _ _ _ (le_n _)) in E as [_ E].
    apply E. rewrite append_length. cbn. lia.
  - intros Hq. rewrite (parse_drop_quoted n Hq). destruct n; congruence.
Qed.

Lemma quoted_drop_names_row_witness :
  unsafe_name <> "" /\
  str_contains dquote unsafe_name = true /\
  parse_statement (drop_quoted_sql unsafe_name) <> Some (DropDatabase unsafe_name).
Proof.
  assert (Hn : unsafe_name <> "") by discriminate.
  split; [exact Hn|]. split; [reflexivity|].
  intros H. apply (proj1 (quoted_drop_names_row unsafe_name Hn)) in H.
  discriminate.
Defined.

(** ** The sweep *)

(** X7: in verbose mode the sweep drops nothing.  Its notice is printed
    before the drop statement and with the keyword [out], so the server
    is left as it was, no statement other than the query is sent, and the
    command completes only when the query returns no row. *)
Theorem verbose_clean_drops_nothing (cfg : Config) (w : world) :
  catalog (snd (cmd_clean verbose_args cfg w)) = catalog w /\
  (forall rq r,
      In (rq, r) (admin_log (snd (cmd_clean verbose_args cfg w))) ->
      In (rq, r) (admin_log w) \/ rq = SelectMarked TUSKER_COMMENT) /\
  (sweep_rows (catalog w) = [] \/
   exists e, fst (cmd_clean verbose_args cfg w) = Raise e).
Proof.
  destruct (cmd_clean_cases verbose_args cfg w)
    as [(He & Hc & Hl)|(w1 & Hc & Hl & Heq)].
  - split; [exact Hc|]. split; [|right; exact He].
    intros rq r Hin. destruct Hl as [Hl|Hl]; rewrite Hl in Hin; [now left|].
    apply in_app_or in Hin as [Hin|[Hin|[]]]; [now left|].
    right. congruence.
  - rewrite Heq.
    assert (Hloop : for_each (sweep_rows (catalog w)) (drop_orphan verbose_args) w1
                    = (Return tt, w1) /\ sweep_rows (catalog w) = [] \/
                    exists e, for_each (sweep_rows (catalog w))
                                (drop_orphan verbose_args) w1 = (Raise e, w1)).
    { destruct (sweep_rows (catalog w)) as [|n rest]; [left; now split|].
      right. cbn [for_each]. rewrite bind_eq, drop_orphan_eq.
      destruct (str_contains dquote n); cbn; eauto. }
    assert (Hlog : forall rq r, In (rq, r) (admin_log w1) ->
                                In (rq, r) (admin_log w) \/
                                rq = SelectMarked TUSKER_COMMENT).
    { intros rq r Hin. rewrite Hl in Hin.
      apply in_app_or in Hin as [Hin|[Hin|[]]]; [now left|].
      right. congruence. }
    destruct Hloop as [[-> Hr]|[e ->]]; cbn [fst snd].
    + split; [exact Hc|]. split; [exact Hlog|now left].
    + split; [exact Hc|]. split; [exact Hlog|right; eauto].
Qed.

Lemma cmd_clean_calm (args : Args) (cfg : Config) (w : world) :
  next_fault w = false -> next_fault (pop_fault w) = false ->
  cmd_clean args cfg w
  = for_each (sweep_rows (catalog w)) (drop_orphan args)
      (log_admin (SelectMarked TUSKER_COMMENT)
         (Accepted (Selected (sweep_rows (catalog w))))
         (set_catalog (catalog w) (pop_fault (pop_fault w)))).
Proof.
  intros H1 H2. unfold cmd_clean. unfold bind at 1. rewrite DatabaseAdmin_init_next, H1.
  rewrite try_finally_ret. unfold bind at 1.
  rewrite cursor_execute_next, H2. reflexivity.
Qed.

(** X8: the sweep does not end the sessions of a database before it
    drops it.  When the first row is a database with an open session, the
    command ends with the server's error for a database in use and the
    server holds what it held: that database and every row after it
    stay. *)
Theorem clean_blocked_by_sessions (cfg : Config) (w : world)
    (n : string) (rest : list string) (d : pg_database) :
  sweep_rows (catalog w) = n :: rest ->
  str_contains dquote n = false ->
  n <> "" ->
  lookup_db n (catalog w) = Some d ->
  backends d <> 0 ->
  calm 3 w = true ->
  fst (cmd_clean quiet_args cfg w) = Raise in_use_error /\
  catalog (snd (cmd_clean quiet_args cfg w)) = catalog w /\
  admin_log (snd (cmd_clean quiet_args cfg w))
  = (admin_log w
     ++ [(SelectMarked TUSKER_COMMENT, Accepted (Selected (n :: rest)));
         (Sql (drop_quoted_sql n), Rejected object_in_use)])%list.
Proof.
  intros Hrows Hq Hn Hd Hb Hc.
  apply calm_S in Hc as [H1 Hc]. apply calm_S in Hc as [H2 Hc].
  apply calm_S in Hc as [H3 _].
  rewrite (cmd_clean_calm quiet_args cfg w H1 H2), Hrows.
  cbn [for_each]. rewrite bind_eq, drop_orphan_eq, Hq. cbn [verbose quiet_args].
  rewrite cursor_execute_next.
  change (next_fault (log_admin _ _ (set_catalog _ (pop_fault (pop_fault w)))))
    with (next_fault (pop_fault (pop_fault w))).
  rewrite H3. cbn [pg_execute catalog log_admin set_catalog].
  rewrite (parse_drop_quoted n Hq). destruct n as [|c n]; [congruence|].
  cbn [pg_statement]. rewrite Hd.
  destruct (backends d =? 0)%nat eqn:E; [apply Nat.eqb_eq in E; congruence|].
  cbn. repeat split. now rewrite <- app_assoc.
Qed.

Lemma clean_blocked_by_sessions_witness :
  let busy := mk_database "app_1_schema" (Some TUSKER_COMMENT) 1 [] in
  let idle := mk_database "app_1_migrations" (Some TUSKER_COMMENT) 0 [] in
  let w := example_world [busy; idle] [] in
  sweep_rows (catalog w) = ["app_1_schema"; "app_1_migrations"] /\
  str_contains dquote "app_1_schema" = false /\
  "app_1_schema" <> "" /\
  lookup_db "app_1_schema" (catalog w) = Some busy /\
  backends busy <> 0 /\
  calm 3 w = true /\
  fst (cmd_clean quiet_args example_cfg w) = Raise in_use_error /\
  catalog (snd (cmd_clean quiet_args example_cfg w)) = [busy; idle].
Proof.
  intros busy idle w.
  assert (H3 : "app_1_schema" <> "") by discriminate.
  assert (H5 : backends busy <> 0) by discriminate.
  split; [reflexivity|]. split; [reflexivity|]. split; [exact H3|].
  split; [reflexivity|]. split; [exact H5|]. split; [reflexivity|].
  destruct (clean_blocked_by_sessions example_cfg w "app_1_schema"
              ["app_1_migrations"] busy eq_refl eq_refl H3 eq_refl H5 eq_refl)
    as (Hr & Hcat & _).
  split; [exact Hr|exact Hcat].
Defined.

Lemma sweep_rows_unmarked (cat : list pg_database) :
  sweep_rows (filter (fun d => negb (marked d)) cat) = [].
Proof.
  unfold sweep_rows. induction cat as [|d cat IH]; [reflexivity|].
  cbn [filter]. destruct (marked d) eqn:E; cbn [negb]; [exact IH|].
  cbn [filter]. rewrite E. exact IH.
Qed.

(** X9: the sweep is idempotent.  After a sweep that completed, the
    query finds no marked database, and a second sweep, in either mode
    and whatever it meets, leaves the server as the first one left it. *)
Theorem clean_is_idempotent (args : Args) (cfg : Config) (w w' : world) :
  NoDup (names (catalog w)) ->
  cmd_clean args cfg w = (Return tt, w') ->
  sweep_rows (catalog w') = [] /\
  forall args' cfg', catalog (snd (cmd_clean args' cfg' w')) = catalog w'.
Proof.
  intros Hnd Hrun.
  assert (Hrows : sweep_rows (catalog w') = []).
  { destruct (cmd_clean_cases args cfg w)
      as [([e He] & _)|(w1 & Hc & _ & Heq)].
    - rewrite Hrun in He. discriminate.
    - destruct (sweep_loop args (sweep_rows (catalog w)) w1)
        as (sent & rest & dropped & delta & _ & _ & _ & Hcat & _ & _ & Hret).
      rewrite <- Heq, Hrun in Hcat, Hret. cbn [fst snd] in Hcat, Hret.
      destruct (Hret eq_refl) as [_ ->].
      rewrite Hcat, Hc, (drop_all_rows _ Hnd). apply sweep_rows_unmarked. }
  split; [exact Hrows|]. intros args' cfg'.
  destruct (cmd_clean_cases args' cfg' w')
    as [(_ & Hc & _)|(w1 & Hc & _ & Heq)]; [exact Hc|].
  rewrite Heq, Hrows. exact Hc.
Qed.

Lemma clean_is_idempotent_witness :
  let w := example_world sweep_catalog [] in
  let w' := snd (cmd_clean quiet_args example_cfg w) in
  NoDup (names (catalog w)) /\
  cmd_clean quiet_args example_cfg w = (Return tt, w') /\
  sweep_rows (catalog w') = [].
Proof.
  intros w w'.
  assert (Hnd : NoDup (names (catalog w))) by (apply NoDup_names_decide; reflexivity).
  assert (Hrun : cmd_clean quiet_args example_cfg w = (Return tt, w'))
    by (vm_compute; reflexivity).
  split; [exact Hnd|]. split; [exact Hrun|].
  exact (proj1 (clean_is_idempotent quiet_args example_cfg w w' Hnd Hrun)).
Defined.

(** ** Runs in which no external call fails *)

Lemma fault_free_next (w : world) : fault_free w = true -> next_fault w = false.
Proof.
  unfold fault_free, next_fault. destruct (faults w) as [|[|] f]; cbn; congruence.
Qed.

Lemma fault_free_pop (w : world) :
  fault_free w = true -> fault_free (pop_fault w) = true.
Proof.
  unfold fault_free, pop_fault. cbn. destruct (faults w) as [|b f]; cbn; [auto|].
  intros H. now apply andb_true_iff in H.
Qed.

Lemma guarded_calm {A} (e : exn) (m : M A) (w : world) :
  fault_free w = true ->
  (failed <- fault ;; if failed then raise e else m) w = m (pop_fault w).
Proof. intros H. now rewrite guarded_eq, (fault_free_next w H). Qed.

Lemma cursor_execute_calm (rq : request) (w : world) :
  fault_free w = true ->
  cursor_execute rq w
  = (surfaced (fst (pg_execute rq (catalog w))), answered rq w).
Proof. intros H. now rewrite cursor_execute_next, (fault_free_next w H). Qed.

Lemma fault_free_answered (rq : request) (w : world) :
  fault_free w = true -> fault_free (answered rq w) = true.
Proof. intros H. apply fault_free_pop in H. exact H. Qed.

Lemma fault_free_after_time (w : world) :
  fault_free w = true -> fault_free (after_time w) = true.
Proof. unfold fault_free. now rewrite after_time_faults. Qed.

Lemma update_db_absent (n : string) (f : pg_database -> pg_database)
    (cat : list pg_database) :
  ~ In n (names cat) -> update_db n f cat = cat.
Proof.
  unfold update_db, named. induction cat as [|d cat IH]; [reflexivity|].
  cbn. intros H. destruct (String.eqb (datname d) n) eqn:E.
  - apply String.eqb_eq in E. tauto.
  - f_equal. apply IH. tauto.
Qed.

Lemma update_db_app (n : string) (f : pg_database -> pg_database)
    (a b : list pg_database) :
  update_db n f (a ++ b) = (update_db n f a ++ update_db n f b)%list.
Proof. apply map_app. Qed.

Lemma remove_db_absent (n : string) (cat : list pg_database) :
  ~ In n (names cat) -> remove_db n cat = cat.
Proof.
  unfold remove_db, named. induction cat as [|d cat IH]; [reflexivity|].
  cbn. intros H. destruct (String.eqb (datname d) n) eqn:E.
  - apply String.eqb_eq in E. tauto.
  - cbn. f_equal. apply IH. tauto.
Qed.

Lemma remove_db_app (n : string) (a b : list pg_database) :
  remove_db n (a ++ b) = (remove_db n a ++ remove_db n b)%list.
Proof. apply filter_app. Qed.

Lemma teardown_scope_left (name : string) (wb : world) (d : pg_database) :
  unquoted_ok name = true -> no_upper name = true ->
  fault_free wb = true ->
  lookup_db name (catalog wb) = Some d ->
  (failed <- fault ;;
   if failed then raise (Exn OperationalError "dispose failed") else ret tt) wb
  = (Return tt, pop_fault wb) /\
  teardown name (pop_fault wb) = (Return tt, scope_left name wb) /\
  catalog (scope_left name wb) = remove_db name (catalog wb) /\
  admin_log (scope_left name wb)
  = (admin_log wb
     ++ [(TerminateBackends name, Accepted (Terminated name));
         (Sql (drop_sql name), Accepted (Dropped name))])%list.
Proof.
  intros Hu Hn Hf Hd.
  assert (Hp := parse_drop_plain name Hu Hn).
  assert (Hdrop : pg_execute (Sql (drop_sql name))
                    (update_db name (set_backends 0) (catalog wb))
                  = (Accepted (Dropped name), remove_db name (catalog wb))).
  { cbn [pg_execute]. rewrite Hp. cbn [pg_statement].
    rewrite lookup_db_update_same by reflexivity. rewrite Hd. cbn.
    now rewrite remove_update_same. }
  split; [now apply guarded_calm|].
  assert (Hf1 := fault_free_pop wb Hf).
  unfold teardown, scope_left.
  rewrite bind_eq, (cursor_execute_calm _ _ Hf1). cbn [fst snd pg_execute surfaced].
  rewrite bind_eq, (cursor_execute_calm _ _ (fault_free_answered _ _ Hf1)).
  change (catalog (answered (TerminateBackends name) (pop_fault wb)))
    with (update_db name (set_backends 0) (catalog wb)).
  rewrite Hdrop. cbn [fst snd surfaced]. split; [reflexivity|].
  unfold answered at 1 3.
  change (catalog (answered (TerminateBackends name) (pop_fault wb)))
    with (update_db name (set_backends 0) (catalog wb)).
  rewrite Hdrop. cbn. split; [reflexivity|]. now rewrite <- app_assoc.
Qed.

Lemma scope_entered_spec (p : string) (now : N) (suffix : string) (w : world) :
  let name := ephemeral_name p now suffix in
  plain_prefix p = true -> plain suffix = true ->
  fault_free w = true ->
  lookup_db name (catalog w) = None ->
  cursor_execute (Sql (create_sql name)) (after_time w)
  = (Return [], answered (Sql (create_sql name)) (after_time w)) /\
  cursor_execute (Sql (comment_sql name))
    (answered (Sql (create_sql name)) (after_time w))
  = (Return [], answered (Sql (comment_sql name))
                  (answered (Sql (create_sql name)) (after_time w))) /\
  catalog (scope_entered name w) = (catalog w ++ [fresh_database name])%list /\
  admin_log (scope_entered name w)
  = (admin_log w
     ++ [(Sql (create_sql name), Accepted (Created name));
         (Sql (comment_sql name), Accepted (Commented name TUSKER_COMMENT))])%list /\
  fault_free (scope_entered name w) = true.
Proof.
  intros name Hp Hs Hf Hd.
  destruct (plain_name_reads p now suffix Hp Hs) as [Hc Hm _]. fold name in Hc, Hm.
  assert (Hf0 := fault_free_after_time w Hf).
  assert (Hcreate : pg_execute (Sql (create_sql name)) (catalog (after_time w))
                    = (Accepted (Created name),
                       (catalog w ++ [new_database name])%list)).
  { cbn [pg_execute]. rewrite Hc, after_time_catalog. cbn [pg_statement].
    now rewrite Hd. }
  assert (Hnin : ~ In name (names (catalog w))) by now apply lookup_db_none.
  assert (Hcomment : pg_execute (Sql (comment_sql name))
                       (catalog w ++ [new_database name])%list
                     = (Accepted (Commented name TUSKER_COMMENT),
                        (catalog w ++ [fresh_database name])%list)).
  { cbn [pg_execute]. rewrite Hm. cbn [pg_statement].
    rewrite lookup_db_app, Hd, lookup_db_new.
    rewrite update_db_app, (update_db_absent _ _ _ Hnin).
    cbn. unfold named. cbn. now rewrite String.eqb_refl. }
  assert (Hcat1 : catalog (answered (Sql (create_sql name)) (after_time w))
                  = (catalog w ++ [new_database name])%list).
  { unfold answered. cbn [catalog log_admin set_catalog]. now rewrite Hcreate. }
  split.
  { rewrite (cursor_execute_calm _ _ Hf0), Hcreate. reflexivity. }
  split.
  { rewrite (cursor_execute_calm _ _ (fault_free_answered _ _ Hf0)).
    rewrite Hcat1, Hcomment. reflexivity. }
  unfold scope_entered. split.
  { unfold answered at 1. cbn [catalog log_admin set_catalog pop_fault set_faults].
    now rewrite Hcat1, Hcomment. }
  split.
  { unfold answered at 1. cbn [admin_log catalog log_admin set_catalog pop_fault set_faults].
    rewrite Hcat1, Hcomment. cbn [fst].
    unfold answered. cbn [admin_log catalog log_admin set_catalog pop_fault set_faults].
    rewrite Hcreate. cbn [fst]. rewrite after_time_log. now rewrite <- app_assoc. }
  apply fault_free_pop. now do 2 apply fault_free_answered.
Qed.

Lemma createdb_calm {A} (self : DatabaseAdmin) (suffix : string)
    (body : Engine -> M A) (w wb : world) (o : outcome A) (d : pg_database) :
  let name := ephemeral_name (dbname (config self)) (now_of w) suffix in
  plain_prefix (dbname (config self)) = true -> plain suffix = true ->
  fault_free w = true ->
  lookup_db name (catalog w) = None ->
  body (engine_for self name) (scope_entered name w) = (o, wb) ->
  fault_free wb = true ->
  lookup_db name (catalog wb) = Some d ->
  createdb self suffix body w = (o, scope_left name wb).
Proof.
  intros name Hp Hs Hf Hd Hb Hfb Hdb.
  destruct (scope_entered_spec _ (now_of w) suffix w Hp Hs Hf Hd)
    as (Hc1 & Hc2 & _ & _ & _). fold name in Hc1, Hc2.
  assert (Hu : unquoted_ok name = true) by now apply ephemeral_unquoted_ok.
  assert (Hn : no_upper name = true).
  { assert (H : plain name = true).
    { apply plain_ephemeral; [|exact Hs].
      unfold plain_prefix in Hp. now apply andb_true_iff in Hp. }
    unfold plain in H. now apply andb_true_iff in H. }
  destruct (teardown_scope_left name wb d Hu Hn Hfb Hdb) as (Hdis & Htd & _).
  rewrite createdb_eq. fold name. rewrite Hc1. cbn [fst snd]. rewrite Hc2.
  cbn [fst snd]. unfold createdb_scope.
  apply (try_finally_final_ok _ _ _ (pop_fault wb)); [|exact Htd].
  unfold createdb_try.
  assert (He : forall u,
             bind (create_engine u name)
               (fun engine => try_finally (body engine) (engine_dispose engine))
               (answered (Sql (comment_sql name))
                  (answered (Sql (create_sql name)) (after_time w)))
             = try_finally (body (mk_Engine u name))
                 (engine_dispose (mk_Engine u name)) (scope_entered name w)).
  { intros u. unfold create_engine. unfold bind at 1.
    rewrite guarded_calm; [reflexivity|].
    do 2 apply fault_free_answered. now apply fault_free_after_time. }
  unfold engine_for in Hb.
  destruct (url (config self)) as [u|] eqn:Eu; cbn [truthy] in *.
  - destruct (negb (String.eqb u "")); rewrite He;
      apply (try_finally_final_ok _ _ _ wb); assumption.
  - rewrite He. apply (try_finally_final_ok _ _ _ wb); assumption.
Qed.

Lemma lookup_pair_first (base : list pg_database) (ds dm : pg_database) :
  apart base ds dm -> lookup_db (datname ds) (base ++ [ds; dm]) = Some ds.
Proof.
  intros (_ & H & _). rewrite lookup_db_app.
  apply lookup_db_none in H. rewrite H. unfold lookup_db, named. cbn.
  now rewrite String.eqb_refl.
Qed.

Lemma lookup_pair_second (base : list pg_database) (ds dm : pg_database) :
  apart base ds dm -> lookup_db (datname dm) (base ++ [ds; dm]) = Some dm.
Proof.
  intros (Hne & _ & H). rewrite lookup_db_app.
  apply lookup_db_none in H. rewrite H. unfold lookup_db, named. cbn.
  apply String.eqb_neq in Hne. now rewrite Hne, String.eqb_refl.
Qed.

Lemma update_pair_first (base : list pg_database) (ds dm : pg_database)
    (f : pg_database -> pg_database) :
  apart base ds dm ->
  update_db (datname ds) f (base ++ [ds; dm]) = (base ++ [f ds; dm])%list.
Proof.
  intros (Hne & H & _). rewrite update_db_app, (update_db_absent _ _ _ H).
  unfold update_db, named. cbn. rewrite String.eqb_refl.
  assert (Hne' : datname dm <> datname ds) by congruence.
  apply String.eqb_neq in Hne'. now rewrite Hne'.
Qed.

Lemma update_pair_second (base : list pg_database) (ds dm : pg_database)
    (f : pg_database -> pg_database) :
  apart base ds dm ->
  update_db (datname dm) f (base ++ [ds; dm]) = (base ++ [ds; f dm])%list.
Proof.
  intros (Hne & _ & H). rewrite update_db_app, (update_db_absent _ _ _ H).
  unfold update_db, named. cbn. rewrite String.eqb_refl.
  apply String.eqb_neq in Hne. now rewrite Hne.
Qed.

Lemma add_commands_nil (d : pg_database) : add_commands [] d = d.
Proof. destruct d. unfold add_commands. cbn. now rewrite app_nil_r. Qed.

Lemma add_commands_app (l1 l2 : list string) (d : pg_database) :
  add_commands l2 (add_commands l1 d) = add_commands (l1 ++ l2) d.
Proof. unfold add_commands. cbn. now rewrite <- app_assoc. Qed.

Lemma engine_connect_first (e : Engine) (base : list pg_database)
    (ds dm : pg_database) (w0 w : world) :
  stage base ds dm w0 w -> apart base ds dm -> engine_dbname e = datname ds ->
  exists w',
    engine_connect e w = (Return (mk_Connection (datname ds)), w') /\
    stage base (set_backends (S (backends ds)) ds) dm w0 w'.
Proof.
  intros (Hf & Hc & Hfs & Ho & He & Hl) Ha Hn.
  unfold engine_connect. rewrite (guarded_calm _ _ _ Hf). rewrite Hn.
  change (catalog (pop_fault w)) with (catalog w).
  rewrite Hc, (lookup_pair_first _ _ _ Ha), (update_pair_first _ _ _ _ Ha).
  eexists. split; [reflexivity|].
  repeat split; try assumption. now apply fault_free_pop.
Qed.

Lemma engine_connect_second (e : Engine) (base : list pg_database)
    (ds dm : pg_database) (w0 w : world) :
  stage base ds dm w0 w -> apart base ds dm -> engine_dbname e = datname dm ->
  exists w',
    engine_connect e w = (Return (mk_Connection (datname dm)), w') /\
    stage base ds (set_backends (S (backends dm)) dm) w0 w'.
Proof.
  intros (Hf & Hc & Hfs & Ho & He & Hl) Ha Hn.
  unfold engine_connect. rewrite (guarded_calm _ _ _ Hf). rewrite Hn.
  change (catalog (pop_fault w)) with (catalog w).
  rewrite Hc, (lookup_pair_second _ _ _ Ha), (update_pair_second _ _ _ _ Ha).
  eexists. split; [reflexivity|].
  repeat split; try assumption. now apply fault_free_pop.
Qed.

Lemma connection_execute_first (sql : string) (base : list pg_database)
    (ds dm : pg_database) (w0 w : world) :
  stage base ds dm w0 w -> apart base ds dm ->
  exists w',
    connection_execute (mk_Connection (datname ds)) sql w = (Return tt, w') /\
    stage base (add_commands (commands_of sql) ds) dm w0 w'.
Proof.
  intros (Hf & Hc & Hfs & Ho & He & Hl) Ha.
  unfold connection_execute. rewrite (guarded_calm _ _ _ Hf).
  cbn [connected_to]. change (catalog (pop_fault w)) with (catalog w).
  rewrite Hc, (lookup_pair_first _ _ _ Ha), (update_pair_first _ _ _ _ Ha).
  eexists. split; [reflexivity|].
  repeat split; try assumption. now apply fault_free_pop.
Qed.

Lemma connection_execute_second (sql : string) (base : list pg_database)
    (ds dm : pg_database) (w0 w : world) :
  stage base ds dm w0 w -> apart base ds dm ->
  exists w',
    connection_execute (mk_Connection (datname dm)) sql w = (Return tt, w') /\
    stage base ds (add_commands (commands_of sql) dm) w0 w'.
Proof.
  intros (Hf & Hc & Hfs & Ho & He & Hl) Ha.
  unfold connection_execute. rewrite (guarded_calm _ _ _ Hf).
  cbn [connected_to]. change (catalog (pop_fault w)) with (catalog w).
  rewrite Hc, (lookup_pair_second _ _ _ Ha), (update_pair_second _ _ _ _ Ha).
  eexists. split; [reflexivity|].
  repeat split; try assumption. now apply fault_free_pop.
Qed.

Lemma stage_log_open (path : string) (base : list pg_database)
    (ds dm : pg_database) (w0 w : world) :
  stage base ds dm w0 w -> stage base ds dm w0 (log_open path w).
Proof. intros H. exact H. Qed.

Lemma apart_first (base : list pg_database) (ds dm : pg_database)
    (f : pg_database -> pg_database) :
  datname (f ds) = datname ds -> apart base ds dm -> apart base (f ds) dm.
Proof. unfold apart. intros ->. auto. Qed.

Lemma apart_second (base : list pg_database) (ds dm : pg_database)
    (f : pg_database -> pg_database) :
  datname (f dm) = datname dm -> apart base ds dm -> apart base ds (f dm).
Proof. unfold apart. intros ->. auto. Qed.

Lemma migration_loop_calm (args : Args) (cfg : Config) (l : list string)
    (base : list pg_database) (ds : pg_database) (w0 : world) :
  let join := os_path_join (directory (migrations cfg)) in
  verbose args = false ->
  scripts_present (fs w0) (directory (migrations cfg)) l ->
  forall (dm : pg_database) (w : world),
    stage base ds dm w0 w -> apart base ds dm ->
    exists w',
      for_each l (apply_migration args cfg (mk_Connection (datname dm))) w
      = (Return tt, w') /\
      stage base ds
        (add_commands (scripts_of (fs w0) (map join (filter is_sql l))) dm) w0 w'.
Proof.
  intros join Hv. induction l as [|f l IH]; intros Hp dm w Hs Ha.
  - exists w. split; [reflexivity|]. cbn. now rewrite add_commands_nil.
  - assert (Hp' : scripts_present (fs w0) (directory (migrations cfg)) l).
    { intros g Hg. apply Hp. now right. }
    cbn [for_each]. rewrite bind_eq, apply_migration_eq, Hv.
    cbn [filter]. destruct (is_sql f) eqn:Ef; cbn [negb].
    + assert (Hfs : fs w = fs w0) by apply Hs.
      rewrite Hfs. cbn [map scripts_of flat_map]. fold join.
      destruct (assoc (join f) (files (fs w0))) as [sql|] eqn:Es.
      2:{ exfalso. apply (Hp f); [now left|exact Ef|exact Es]. }
      destruct (strip_nonempty sql) eqn:En.
      * destruct (connection_execute_second sql base ds dm w0 (log_open (join f) w)
                    (stage_log_open _ _ _ _ _ _ Hs) Ha) as (w1 & -> & Hs1).
        cbn [fst snd].
        destruct (IH Hp' (add_commands (commands_of sql) dm) w1 Hs1
                    (apart_second base ds dm (add_commands (commands_of sql)) eq_refl Ha))
          as (w' & Hrun & Hs').
        exists w'. split; [exact Hrun|].
        rewrite add_commands_app in Hs'. exact Hs'.
      * cbn [fst snd].
        destruct (IH Hp' dm (log_open (join f) w) (stage_log_open _ _ _ _ _ _ Hs) Ha)
          as (w' & Hrun & Hs').
        exists w'. split; [exact Hrun|exact Hs'].
    + cbn [fst snd]. exact (IH Hp' dm w Hs Ha).
Qed.

Lemma scripts_present_sorted (fsys : filesystem) (dir : string)
    (listing : list string) :
  scripts_present fsys dir listing -> scripts_present fsys dir (sorted listing).
Proof.
  intros H f Hf. apply H.
  apply (Permutation_in f (sorted_perm listing)). exact Hf.
Qed.

Lemma migra_Migration_calm (base : list pg_database) (ds dm : pg_database)
    (se me : Engine) (w0 w : world) :
  stage base ds dm w0 w -> apart base ds dm ->
  engine_dbname se = datname ds -> engine_dbname me = datname dm ->
  migra_Migration me se w
  = (Return (mk_Migration (applied dm) (applied ds) true ""), pop_fault w).
Proof.
  intros (Hf & Hc & _) Ha Hs Hm.
  unfold migra_Migration. rewrite (guarded_calm _ _ _ Hf), Hs, Hm.
  change (catalog (pop_fault w)) with (catalog w).
  now rewrite Hc, (lookup_pair_first _ _ _ Ha), (lookup_pair_second _ _ _ Ha).
Qed.

Lemma stage_pop (base : list pg_database) (ds dm : pg_database) (w0 w : world) :
  stage base ds dm w0 w -> stage base ds dm w0 (pop_fault w).
Proof.
  intros (Hf & H). split; [now apply fault_free_pop|exact H].
Qed.

Lemma diff_body_calm (changes : list string -> list string -> string)
    (args : Args) (cfg : Config) (se me : Engine)
    (base : list pg_database) (ds dm : pg_database) (w : world)
    (sql : string) (listing : list string) :
  let join := os_path_join (directory (migrations cfg)) in
  verbose args = false ->
  fault_free w = true ->
  catalog w = (base ++ [ds; dm])%list ->
  apart base ds dm ->
  engine_dbname se = datname ds -> engine_dbname me = datname dm ->
  assoc (filename (schema cfg)) (files (fs w)) = Some sql ->
  assoc (directory (migrations cfg)) (dirs (fs w)) = Some listing ->
  scripts_present (fs w) (directory (migrations cfg)) listing ->
  exists w' ds' dm',
    diff_body changes args cfg se me w = (Return tt, w') /\
    fault_free w' = true /\
    catalog w' = (base ++ [ds'; dm'])%list /\
    datname ds' = datname ds /\ datname dm' = datname dm /\
    stdout w'
    = stdout w
      ++ changes
           (applied dm
            ++ scripts_of (fs w) (map join (filter is_sql (sorted listing))))%list
           (applied ds ++ (if strip_nonempty sql then commands_of sql else []))%list /\
    stderr w' = stderr w /\
    admin_log w' = admin_log w.
Proof.
  intros join Hv Hf Hc Ha Hse Hme Hsql Hdir Hp.
  assert (Hs0 : stage base ds dm w w) by (repeat split; assumption).
  unfold diff_body. rewrite Hv. cbn [when_].
  (* schema_cursor = schema_engine.connect() *)
  destruct (engine_connect_first se base ds dm w w Hs0 Ha Hse) as (w1 & E1 & Hs1).
  rewrite bind_eq, E1. cbn [fst snd]. rewrite bind_eq. cbn [ret fst snd].
  assert (Ha1 := apart_first base ds dm (set_backends (S (backends ds))) eq_refl Ha).
  (* the schema file *)
  assert (Hfs1 : fs w1 = fs w) by apply Hs1.
  assert (Eo : open_read (filename (schema cfg)) w1
               = (Return sql, log_open (filename (schema cfg)) w1)).
  { unfold open_read. now rewrite Hfs1, Hsql. }
  rewrite bind_eq, Eo. cbn [fst snd].
  assert (Hstep : exists w2 ds2,
             when_ (strip_nonempty sql)
               (connection_execute (mk_Connection (datname ds)) sql)
               (log_open (filename (schema cfg)) w1) = (Return tt, w2) /\
             stage base ds2 dm w w2 /\ datname ds2 = datname ds /\
             applied ds2
             = (applied ds ++ (if strip_nonempty sql then commands_of sql else []))%list).
  { destruct (strip_nonempty sql); cbn [when_].
    - destruct (connection_execute_first sql base _ dm w
                  (log_open (filename (schema cfg)) w1)
                  (stage_log_open _ _ _ _ _ _ Hs1) Ha1) as (w2 & E2 & Hs2).
      exists w2. eexists. split; [exact E2|]. split; [exact Hs2|].
      split; reflexivity.
    - eexists. eexists. split; [reflexivity|].
      split; [exact (stage_log_open _ _ _ _ _ _ Hs1)|].
      split; [reflexivity|]. cbn. now rewrite app_nil_r. }
  destruct Hstep as (w2 & ds2 & E2 & Hs2 & Hn2 & Hap2).
  rewrite bind_eq, E2. cbn [fst snd]. rewrite bind_eq. cbn [ret fst snd].
  assert (Ha2 : apart base ds2 dm).
  { destruct Ha as (A1 & A2 & A3). unfold apart. rewrite Hn2. auto. }
  (* migrations_cursor = migrations_engine.connect() *)
  destruct (engine_connect_second me base ds2 dm w w2 Hs2 Ha2 Hme) as (w3 & E3 & Hs3).
  rewrite bind_eq, E3. cbn [fst snd].
  assert (Ha3 := apart_second base ds2 dm (set_backends (S (backends dm))) eq_refl Ha2).
  (* the listing and the loop *)
  assert (Hfs3 : fs w3 = fs w) by apply Hs3.
  assert (El : os_listdir (directory (migrations cfg)) w3 = (Return listing, w3)).
  { unfold os_listdir. now rewrite Hfs3, Hdir. }
  rewrite bind_eq, El. cbn [fst snd].
  destruct (migration_loop_calm args cfg (sorted listing) base ds2 w Hv
              (scripts_present_sorted _ _ _ Hp) _ w3 Hs3 Ha3)
    as (w4 & E4 & Hs4).
  cbn [datname set_backends] in E4.
  rewrite bind_eq, E4. cbn [fst snd]. rewrite bind_eq. cbn [ret fst snd].
  fold join in Hs4.
  set (dm4 := add_commands
                (scripts_of (fs w) (map join (filter is_sql (sorted listing))))
                (set_backends (S (backends dm)) dm)) in *.
  assert (Ha4 : apart base ds2 dm4).
  { unfold apart, dm4 in *. cbn [datname add_commands set_backends] in *.
    exact Ha3. }
  (* the diff *)
  assert (Hse4 : engine_dbname se = datname ds2) by congruence.
  rewrite bind_eq,
    (migra_Migration_calm base ds2 dm4 se me w w4 Hs4 Ha4 Hse4 Hme).
  cbn [fst snd]. unfold add_all_changes. rewrite bind_eq.
  assert (Hs5 := stage_pop _ _ _ _ _ Hs4).
  rewrite (guarded_calm _ _ _ (proj1 Hs5)). cbn [ret fst snd].
  rewrite print_end_eq.
  assert (Hs6 := stage_pop _ _ _ _ _ Hs5).
  destruct Hs6 as (Hf6 & Hc6 & _ & Ho6 & He6 & Hl6).
  eexists. exists ds2, dm4. split; [reflexivity|].
  split; [exact Hf6|]. split; [exact Hc6|]. split; [exact Hn2|].
  split; [reflexivity|]. split; [|split; [exact He6|exact Hl6]].
  cbn [stdout write_stdout migration_sql statements set_safety from_state
       target_state append].
  rewrite Ho6, append_nil_r, Hap2. unfold dm4. reflexivity.
Qed.

Lemma scope_entered_frame (name : string) (w : world) :
  fs (scope_entered name w) = fs w /\
  stdout (scope_entered name w) = stdout w /\
  stderr (scope_entered name w) = stderr w /\
  now_of (scope_entered name w) = now_of (after_time w).
Proof.
  destruct (after_time_io w) as (H1 & _ & H3 & H4).
  repeat split; [exact H1|exact H3|exact H4].
Qed.

Lemma scope_left_frame (name : string) (wb : world) :
  fault_free wb = true ->
  fault_free (scope_left name wb) = true /\
  stdout (scope_left name wb) = stdout wb /\
  stderr (scope_left name wb) = stderr wb.
Proof.
  intros H. split; [|split; reflexivity].
  unfold scope_left. do 2 apply fault_free_answered. now apply fault_free_pop.
Qed.

Lemma remove_pair_second (base : list pg_database) (ds dm : pg_database) :
  apart base ds dm ->
  remove_db (datname dm) (base ++ [ds; dm]) = (base ++ [ds])%list.
Proof.
  intros (Hne & _ & H). rewrite remove_db_app, (remove_db_absent _ _ H).
  unfold remove_db, named. cbn. rewrite String.eqb_refl.
  apply String.eqb_neq in Hne. now rewrite Hne.
Qed.

Lemma remove_last (base : list pg_database) (ds : pg_database) :
  ~ In (datname ds) (names base) ->
  remove_db (datname ds) (base ++ [ds]) = base.
Proof.
  intros H. rewrite remove_db_app, (remove_db_absent _ _ H).
  unfold remove_db, named. cbn. rewrite String.eqb_refl. apply app_nil_r.
Qed.

Lemma lookup_last (base : list pg_database) (ds : pg_database) :
  ~ In (datname ds) (names base) ->
  lookup_db (datname ds) (base ++ [ds]) = Some ds.
Proof.
  intros H. rewrite lookup_db_app. apply lookup_db_none in H. rewrite H.
  unfold lookup_db, named. cbn. now rewrite String.eqb_refl.
Qed.

Lemma schema_migrations_apart (p : string) (t1 t2 : N) :
  ephemeral_name p t1 "schema" <> ephemeral_name p t2 "migrations".
Proof.
  intros H. apply (f_equal last_char) in H.
  rewrite !ephemeral_name_last in H by discriminate. discriminate.
Qed.

(** The two scopes of [cmd_diff] around its block, when no call fails: the
    block starts with both databases fresh, and whatever its outcome both
    are released, the migrations database first. *)
Lemma cmd_diff_scopes (changes : list string -> list string -> string)
    (args : Args) (cfg : Config) (w : world) :
  let p := dbname (database cfg) in
  let s := ephemeral_name p (now_of w) "schema" in
  let m := ephemeral_name p (now_of (after_time w)) "migrations" in
  let dba := mk_DatabaseAdmin (database cfg) (mk_connection "template1" true) in
  let wc := scope_entered m (scope_entered s (pop_fault w)) in
  verbose args = false ->
  fault_free w = true ->
  plain_prefix p = true ->
  ~ In s (names (catalog w)) -> ~ In m (names (catalog w)) ->
  (fault_free wc = true /\
   catalog wc = (catalog w ++ [fresh_database s; fresh_database m])%list /\
   apart (catalog w) (fresh_database s) (fresh_database m) /\
   fs wc = fs w /\ stdout wc = stdout w /\ stderr wc = stderr w /\
   admin_log wc
   = (admin_log w
      ++ [(Sql (create_sql s), Accepted (Created s));
          (Sql (comment_sql s), Accepted (Commented s TUSKER_COMMENT));
          (Sql (create_sql m), Accepted (Created m));
          (Sql (comment_sql m), Accepted (Commented m TUSKER_COMMENT))])%list) /\
  forall (o : outcome unit) (wd : world) (ds dm : pg_database),
    diff_body changes args cfg (engine_for dba s) (engine_for dba m) wc = (o, wd) ->
    fault_free wd = true ->
    catalog wd = (catalog w ++ [ds; dm])%list ->
    datname ds = s -> datname dm = m ->
    exists w',
      cmd_diff changes args cfg w = (o, w') /\
      catalog w' = catalog w /\
      stdout w' = stdout wd /\ stderr w' = stderr wd /\
      admin_log w'
      = (admin_log wd
         ++ [(TerminateBackends m, Accepted (Terminated m));
             (Sql (drop_sql m), Accepted (Dropped m));
             (TerminateBackends s, Accepted (Terminated s));
             (Sql (drop_sql s), Accepted (Dropped s))])%list.
Proof.
  intros p s m dba wc Hv Hf Hp Hs Hm.
  assert (Hsm : s <> m) by apply schema_migrations_apart.
  assert (Hf0 := fault_free_pop w Hf).
  assert (Hls : lookup_db s (catalog (pop_fault w)) = None)
    by now apply lookup_db_none.
  destruct (scope_entered_spec p (now_of w) "schema" (pop_fault w) Hp eq_refl Hf0 Hls)
    as (_ & _ & Hcat1 & Hlog1 & Hf1).
  fold s in Hcat1, Hlog1, Hf1. set (wb := scope_entered s (pop_fault w)) in *.
  change (catalog (pop_fault w)) with (catalog w) in Hcat1.
  change (admin_log (pop_fault w)) with (admin_log w) in Hlog1.
  destruct (scope_entered_frame s (pop_fault w)) as (Hfs1 & Ho1 & He1 & Hn1).
  fold wb in Hfs1, Ho1, He1, Hn1.
  change (fs (pop_fault w)) with (fs w) in Hfs1.
  change (stdout (pop_fault w)) with (stdout w) in Ho1.
  change (stderr (pop_fault w)) with (stderr w) in He1.
  assert (Hn0 : now_of (after_time (pop_fault w)) = now_of (after_time w)).
  { unfold now_of, after_time. change (clock (pop_fault w)) with (clock w).
    destruct (clock w); reflexivity. }
  rewrite Hn0 in Hn1.
  assert (Hlm : lookup_db m (catalog wb) = None).
  { rewrite Hcat1, lookup_db_app. apply lookup_db_none in Hm. rewrite Hm.
    unfold lookup_db, named. cbn. apply String.eqb_neq in Hsm. now rewrite Hsm. }
  assert (Hlm' : lookup_db (ephemeral_name p (now_of (after_time w)) "migrations")
                   (catalog wb) = None) by exact Hlm.
  destruct (scope_entered_spec p (now_of (after_time w)) "migrations" wb
              Hp eq_refl Hf1 Hlm')
    as (_ & _ & Hcat2 & Hlog2 & Hf2).
  fold m in Hcat2, Hlog2, Hf2. fold wc in Hcat2, Hlog2, Hf2.
  destruct (scope_entered_frame m wb) as (Hfs2 & Ho2 & He2 & _).
  fold wc in Hfs2, Ho2, He2.
  assert (Hap : apart (catalog w) (fresh_database s) (fresh_database m))
    by (repeat split; assumption).
  split.
  { split; [exact Hf2|]. split; [now rewrite Hcat2, Hcat1, <- app_assoc|].
    split; [exact Hap|]. split; [congruence|]. split; [congruence|].
    split; [congruence|]. now rewrite Hlog2, Hlog1, <- app_assoc. }
  intros o wd ds dm Hbody Hfd Hcd Hds Hdm.
  assert (Hap' : apart (catalog w) ds dm).
  { unfold apart. rewrite Hds, Hdm. repeat split; assumption. }
  (* the scope of the migrations database *)
  assert (Hld : lookup_db m (catalog wd) = Some dm).
  { rewrite Hcd, <- Hdm. now apply lookup_pair_second. }
  assert (Hinner : createdb dba "migrations"
                     (fun me => diff_body changes args cfg (engine_for dba s) me) wb
                   = (o, scope_left m wd)).
  { assert (Hname : ephemeral_name (dbname (config dba)) (now_of wb) "migrations" = m).
    { unfold m. now rewrite Hn1. }
    rewrite <- Hname.
    apply (createdb_calm dba "migrations" _ wb wd o dm Hp eq_refl Hf1).
    - rewrite Hname. exact Hlm.
    - rewrite Hname. exact Hbody.
    - exact Hfd.
    - rewrite Hname. exact Hld. }
  assert (Hu : forall now sfx, plain sfx = true ->
                 unquoted_ok (ephemeral_name p now sfx) = true /\
                 no_upper (ephemeral_name p now sfx) = true).
  { intros now sfx Hsfx. split; [now apply ephemeral_unquoted_ok|].
    assert (H : plain (ephemeral_name p now sfx) = true).
    { apply plain_ephemeral; [|exact Hsfx].
      unfold plain_prefix in Hp. now apply andb_true_iff in Hp. }
    unfold plain in H. now apply andb_true_iff in H. }
  destruct (Hu (now_of (after_time w)) "migrations" eq_refl) as (Hum & Hnm).
  destruct (Hu (now_of w) "schema" eq_refl) as (Hus & Hns).
  fold m in Hum, Hnm. fold s in Hus, Hns.
  destruct (teardown_scope_left m wd dm Hum Hnm Hfd Hld) as (_ & _ & Hcat3 & Hlog3).
  destruct (scope_left_frame m wd Hfd) as (Hf3 & Ho3 & He3).
  set (we := scope_left m wd) in *.
  assert (Hcat3' : catalog we = (catalog w ++ [ds])%list).
  { rewrite Hcat3, Hcd, <- Hdm. now apply remove_pair_second. }
  (* the scope of the schema database *)
  assert (Hle : lookup_db s (catalog we) = Some ds).
  { rewrite Hcat3', <- Hds. apply lookup_last. now rewrite Hds. }
  assert (Houter : createdb dba "schema"
                     (fun se => createdb dba "migrations"
                                  (fun me => diff_body changes args cfg se me))
                     (pop_fault w)
                   = (o, scope_left s we)).
  { apply (createdb_calm dba "schema" _ (pop_fault w) we o ds Hp eq_refl Hf0 Hls).
    - exact Hinner.
    - exact Hf3.
    - exact Hle. }
  destruct (teardown_scope_left s we ds Hus Hns Hf3 Hle) as (_ & _ & Hcat4 & Hlog4).
  exists (scope_left s we). split.
  { unfold cmd_diff. rewrite bind_eq, DatabaseAdmin_init_next.
    rewrite (fault_free_next w Hf). cbn [fst snd]. rewrite Hv. cbn [when_].
    rewrite bind_eq. cbn [ret fst snd]. exact Houter. }
  split.
  { rewrite Hcat4, Hcat3', <- Hds. apply remove_last. now rewrite Hds. }
  split; [reflexivity|]. split; [reflexivity|].
  now rewrite Hlog4, Hlog3, <- app_assoc.
Qed.

Lemma cmd_diff_calm (changes : list string -> list string -> string)
    (args : Args) (cfg : Config) (w : world)
    (sql : string) (listing : list string) :
  let p := dbname (database cfg) in
  let s := ephemeral_name p (now_of w) "schema" in
  let m := ephemeral_name p (now_of (after_time w)) "migrations" in
  let join := os_path_join (directory (migrations cfg)) in
  verbose args = false ->
  fault_free w = true ->
  plain_prefix p = true ->
  ~ In s (names (catalog w)) -> ~ In m (names (catalog w)) ->
  assoc (filename (schema cfg)) (files (fs w)) = Some sql ->
  assoc (directory (migrations cfg)) (dirs (fs w)) = Some listing ->
  scripts_present (fs w) (directory (migrations cfg)) listing ->
  exists w',
    cmd_diff changes args cfg w = (Return tt, w') /\
    catalog w' = catalog w /\
    stdout w'
    = stdout w
      ++ changes (scripts_of (fs w) (map join (filter is_sql (sorted listing))))
                 (if strip_nonempty sql then commands_of sql else []) /\
    stderr w' = stderr w /\
    admin_log w'
    = (admin_log w
       ++ [(Sql (create_sql s), Accepted (Created s));
           (Sql (comment_sql s), Accepted (Commented s TUSKER_COMMENT));
           (Sql (create_sql m), Accepted (Created m));
           (Sql (comment_sql m), Accepted (Commented m TUSKER_COMMENT));
           (TerminateBackends m, Accepted (Terminated m));
           (Sql (drop_sql m), Accepted (Dropped m));
           (TerminateBackends s, Accepted (Terminated s));
           (Sql (drop_sql s), Accepted (Dropped s))])%list.
Proof.
  intros p s m join Hv Hf Hp Hs Hm Hsql Hdir Hpres.
  destruct (cmd_diff_scopes changes args cfg w Hv Hf Hp Hs Hm)
    as ((Hfc & Hcc & Hap & Hfs & Hoc & Hec & Hlc) & Hrun).
  fold p s m in Hfc, Hcc, Hap, Hfs, Hoc, Hec, Hlc, Hrun.
  set (dba := mk_DatabaseAdmin (database cfg) (mk_connection "template1" true)) in *.
  set (wc := scope_entered m (scope_entered s (pop_fault w))) in *.
  rewrite <- Hfs in Hsql, Hdir, Hpres.
  destruct (diff_body_calm changes args cfg (engine_for dba s) (engine_for dba m)
              (catalog w) (fresh_database s) (fresh_database m) wc sql listing
              Hv Hfc Hcc Hap eq_refl eq_refl Hsql Hdir Hpres)
    as (wd & ds & dm & Hbody & Hfd & Hcd & Hds & Hdm & Hod & Hed & Hld).
  destruct (Hrun (Return tt) wd ds dm Hbody Hfd Hcd Hds Hdm)
    as (w' & Hcmd & Hcat & Ho & He & Hl).
  exists w'. split; [exact Hcmd|]. split; [exact Hcat|].
  split; [|split].
  - rewrite Ho, Hod, Hoc, Hfs. reflexivity.
  - now rewrite He, Hed.
  - rewrite Hl, Hld, Hlc. now rewrite <- app_assoc.
Qed.

(** X10: a run of the diff in which nothing fails completes.  With a base
    prefix that needs no quoting, the two derived names within the
    identifier limit and free on the server, the schema file and the
    migration directory in place, every [.sql] entry of the directory a
    file, and names and contents well-formed text, the command returns,
    the primary stream gains exactly the script of the diff engine from
    what the migrations session received (the scripts in sorted order,
    each with its commit if it has one) to what the schema session
    received, and the server holds exactly what it held before. *)
Theorem diff_completes (changes : list string -> list string -> string)
    (args : Args) (cfg : Config) (w : world)
    (sql : string) (listing : list string) :
  let p := dbname (database cfg) in
  let s := ephemeral_name p (now_of w) "schema" in
  let m := ephemeral_name p (now_of (after_time w)) "migrations" in
  let join := os_path_join (directory (migrations cfg)) in
  verbose args = false ->
  fault_free w = true ->
  plain_prefix p = true -> utf8_valid p = true ->
  fits_identifier s = true -> fits_identifier m = true ->
  ~ In s (names (catalog w)) -> ~ In m (names (catalog w)) ->
  assoc (filename (schema cfg)) (files (fs w)) = Some sql ->
  utf8_valid sql = true ->
  assoc (directory (migrations cfg)) (dirs (fs w)) = Some listing ->
  scripts_present (fs w) (directory (migrations cfg)) listing ->
  listing_well_formed (fs w) (directory (migrations cfg)) listing = true ->
  fst (cmd_diff changes args cfg w) = Return tt /\
  catalog (snd (cmd_diff changes args cfg w)) = catalog w /\
  stdout (snd (cmd_diff changes args cfg w))
  = stdout w
    ++ changes (scripts_of (fs w) (map join (filter is_sql (sorted listing))))
               (if strip_nonempty sql then commands_of sql else []).
Proof.
  intros p s m join Hv Hf Hp _ _ _ Hs Hm Hsql _ Hdir Hpres _.
  destruct (cmd_diff_calm changes args cfg w sql listing
              Hv Hf Hp Hs Hm Hsql Hdir Hpres)
    as (w' & -> & Hcat & Ho & He & _).
  cbn [fst snd]. auto.
Qed.

Lemma example_scripts_present :
  scripts_present example_fs "migrations" ["2-b.sql"; "README"; "10-a.sql"].
Proof.
  intros f [<-|[<-|[<-|[]]]] Hsql;
    try (vm_compute; discriminate); vm_compute in Hsql; discriminate.
Qed.

Lemma diff_completes_witness :
  let w := example_world sweep_catalog [false; false; false] in
  verbose quiet_args = false /\
  fault_free w = true /\
  plain_prefix "app" = true /\
  fits_identifier "app_1700000001_migrations" = true /\
  ~ In "app_1700000000_schema" (names (catalog w)) /\
  ~ In "app_1700000001_migrations" (names (catalog w)) /\
  listing_well_formed (fs w) "migrations" ["2-b.sql"; "README"; "10-a.sql"] = true /\
  fst (cmd_diff example_changes quiet_args example_cfg w) = Return tt /\
  catalog (snd (cmd_diff example_changes quiet_args example_cfg w)) = sweep_catalog /\
  stdout (snd (cmd_diff example_changes quiet_args example_cfg w))
  = "-- from [create table t (a int); COMMIT alter table t add b int; COMMIT] to [create table t (a int, b int); COMMIT]".
Proof.
  intros w.
  assert (Hs : ~ In "app_1700000000_schema" (names (catalog w))).
  { intros [H|[H|[H|[]]]]; discriminate. }
  assert (Hm : ~ In "app_1700000001_migrations" (names (catalog w))).
  { intros [H|[H|[H|[]]]]; discriminate. }
  do 4 (split; [reflexivity|]).
  split; [exact Hs|]. split; [exact Hm|]. split; [reflexivity|].
  destruct (diff_completes example_changes quiet_args example_cfg w
              "create table t (a int, b int);" ["2-b.sql"; "README"; "10-a.sql"]
              eq_refl eq_refl eq_refl eq_refl eq_refl eq_refl Hs Hm
              eq_refl eq_refl eq_refl example_scripts_present eq_refl)
    as (Hr & Hc & Ho).
  split; [exact Hr|]. split; [exact Hc|]. rewrite Ho. reflexivity.
Defined.

(** X11: the admin statements of a run in which nothing fails (a plain
    prefix, names within the identifier limit and free, files in place
    and well-formed) are, in order: create and mark the schema database,
    create and mark the migrations database, end the sessions of the
    migrations database and drop it, end the sessions of the schema
    database and drop it.  The databases are released in the reverse
    order of their creation and every statement is accepted. *)
Theorem diff_statements_in_order (changes : list string -> list string -> string)
    (args : Args) (cfg : Config) (w : world)
    (sql : string) (listing : list string) :
  let p := dbname (database cfg) in
  let s := ephemeral_name p (now_of w) "schema" in
  let m := ephemeral_name p (now_of (after_time w)) "migrations" in
  verbose args = false ->
  fault_free w = true ->
  plain_prefix p = true -> utf8_valid p = true ->
  fits_identifier s = true -> fits_identifier m = true ->
  ~ In s (names (catalog w)) -> ~ In m (names (catalog w)) ->
  assoc (filename (schema cfg)) (files (fs w)) = Some sql ->
  utf8_valid sql = true ->
  assoc (directory (migrations cfg)) (dirs (fs w)) = Some listing ->
  scripts_present (fs w) (directory (migrations cfg)) listing ->
  listing_well_formed (fs w) (directory (migrations cfg)) listing = true ->
  admin_log (snd (cmd_diff changes args cfg w))
  = (admin_log w
     ++ [(Sql (create_sql s), Accepted (Created s));
         (Sql (comment_sql s), Accepted (Commented s TUSKER_COMMENT));
         (Sql (create_sql m), Accepted (Created m));
         (Sql (comment_sql m), Accepted (Commented m TUSKER_COMMENT));
         (TerminateBackends m, Accepted (Terminated m));
         (Sql (drop_sql m), Accepted (Dropped m));
         (TerminateBackends s, Accepted (Terminated s));
         (Sql (drop_sql s), Accepted (Dropped s))])%list.
Proof.
  intros p s m Hv Hf Hp _ _ _ Hs Hm Hsql _ Hdir Hpres _.
  destruct (cmd_diff_calm changes args cfg w sql listing
              Hv Hf Hp Hs Hm Hsql Hdir Hpres)
    as (w' & -> & _ & _ & _ & Hl).
  exact Hl.
Qed.

Lemma diff_statements_in_order_witness :
  let w := example_world [] [] in
  fault_free w = true /\
  plain_prefix "app" = true /\
  fits_identifier "app_1700000001_migrations" = true /\
  listing_well_formed (fs w) "migrations" ["2-b.sql"; "README"; "10-a.sql"] = true /\
  map fst (admin_log (snd (cmd_diff example_changes quiet_args example_cfg w)))
  = [Sql (create_sql "app_1700000000_schema");
     Sql (comment_sql "app_1700000000_schema");
     Sql (create_sql "app_1700000001_migrations");
     Sql (comment_sql "app_1700000001_migrations");
     TerminateBackends "app_1700000001_migrations";
     Sql (drop_sql "app_1700000001_migrations");
     TerminateBackends "app_1700000000_schema";
     Sql (drop_sql "app_1700000000_schema")].
Proof.
  intros w. do 4 (split; [reflexivity|]).
  rewrite (diff_statements_in_order example_changes quiet_args example_cfg w
             "create table t (a int, b int);" ["2-b.sql"; "README"; "10-a.sql"]
             eq_refl eq_refl eq_refl eq_refl eq_refl eq_refl
             (fun H => H) (fun H => H) eq_refl eq_refl eq_refl
             example_scripts_present eq_refl).
  reflexivity.
Defined.

(** X12: when the schema file is missing, the diff ends with the error of
    [open] for that path and no script is printed; with no other failure
    (a plain prefix, names within the identifier limit and free) both
    ephemeral databases are released all the same, the session the block
    had opened on the schema database included, and the server holds
    exactly what it held before. *)
Theorem diff_missing_schema_file (changes : list string -> list string -> string)
    (args : Args) (cfg : Config) (w : world) :
  let p := dbname (database cfg) in
  let s := ephemeral_name p (now_of w) "schema" in
  let m := ephemeral_name p (now_of (after_time w)) "migrations" in
  verbose args = false ->
  fault_free w = true ->
  plain_prefix p = true -> utf8_valid p = true ->
  fits_identifier s = true -> fits_identifier m = true ->
  ~ In s (names (catalog w)) -> ~ In m (names (catalog w)) ->
  assoc (filename (schema cfg)) (files (fs w)) = None ->
  fst (cmd_diff changes args cfg w)
  = Raise (Exn FileNotFoundError (filename (schema cfg))) /\
  catalog (snd (cmd_diff changes args cfg w)) = catalog w /\
  stdout (snd (cmd_diff changes args cfg w)) = stdout w.
Proof.
  intros p s m Hv Hf Hp _ _ _ Hs Hm Hsql.
  destruct (cmd_diff_scopes changes args cfg w Hv Hf Hp Hs Hm)
    as ((Hfc & Hcc & Hap & Hfs & Hoc & Hec & Hlc) & Hrun).
  fold p s m in Hfc, Hcc, Hap, Hfs, Hoc, Hec, Hlc, Hrun.
  set (dba := mk_DatabaseAdmin (database cfg) (mk_connection "template1" true)) in *.
  set (wc := scope_entered m (scope_entered s (pop_fault w))) in *.
  assert (Hs0 : stage (catalog w) (fresh_database s) (fresh_database m) wc wc)
    by (repeat split; assumption).
  destruct (engine_connect_first (engine_for dba s) (catalog w) _ _ wc wc
              Hs0 Hap eq_refl)
    as (w1 & E1 & (Hf1 & Hc1 & Hfs1 & Ho1 & He1 & Hl1)).
  assert (Hbody : diff_body changes args cfg (engine_for dba s) (engine_for dba m) wc
                  = (Raise (Exn FileNotFoundError (filename (schema cfg))),
                     log_open (filename (schema cfg)) w1)).
  { unfold diff_body. rewrite Hv. cbn [when_].
    rewrite bind_eq, E1. cbn [fst snd]. rewrite bind_eq. cbn [ret fst snd].
    rewrite bind_eq. unfold open_read. now rewrite Hfs1, Hfs, Hsql. }
  destruct (Hrun _ _ _ _ Hbody Hf1 Hc1 eq_refl eq_refl)
    as (w' & -> & Hcat & Ho & He & _).
  cbn [fst snd]. split; [reflexivity|]. split; [exact Hcat|].
  rewrite Ho. cbn [stdout log_open]. congruence.
Qed.

Lemma diff_missing_schema_file_witness :
  let cfg := mk_Config (mk_DatabaseConfig None "app")
               (mk_SchemaConfig "missing.sql") (mk_MigrationsConfig "migrations") in
  let w := example_world sweep_catalog [] in
  fault_free w = true /\
  plain_prefix "app" = true /\
  fits_identifier "app_1700000001_migrations" = true /\
  assoc "missing.sql" (files (fs w)) = None /\
  fst (cmd_diff example_changes quiet_args cfg w)
  = Raise (Exn FileNotFoundError "missing.sql") /\
  catalog (snd (cmd_diff example_changes quiet_args cfg w)) = sweep_catalog.
Proof.
  intros cfg w.
  assert (Hs : ~ In "app_1700000000_schema" (names (catalog w))).
  { intros [H|[H|[H|[]]]]; discriminate. }
  assert (Hm : ~ In "app_1700000001_migrations" (names (catalog w))).
  { intros [H|[H|[H|[]]]]; discriminate. }
  do 4 (split; [reflexivity|]).
  destruct (diff_missing_schema_file example_changes quiet_args cfg w
              eq_refl eq_refl eq_refl eq_refl eq_refl eq_refl Hs Hm eq_refl)
    as (Hr & Hc & _).
  split; [exact Hr|exact Hc].
Defined.

(** X13: [createdb] is transparent to its block.  With a base prefix that
    needs no quoting, a derived name that is well-formed text within the
    identifier limit and free, and no statement of its own failed, the
    block starts on a server that holds the new database, marked and
    empty, beside what was there; whatever the block does -- return or
    raise -- is the outcome of [createdb], and the database is gone from
    what the block left. *)
Theorem createdb_transparent {A} (self : DatabaseAdmin) (suffix : string)
    (body : Engine -> M A) (w wb : world) (o : outcome A) (d : pg_database) :
  let name := ephemeral_name (dbname (config self)) (now_of w) suffix in
  plain_prefix (dbname (config self)) = true -> plain suffix = true ->
  utf8_valid name = true -> fits_identifier name = true ->
  fault_free w = true ->
  lookup_db name (catalog w) = None ->
  body (engine_for self name) (scope_entered name w) = (o, wb) ->
  fault_free wb = true ->
  lookup_db name (catalog wb) = Some d ->
  catalog (scope_entered name w) = (catalog w ++ [fresh_database name])%list /\
  fst (createdb self suffix body w) = o /\
  catalog (snd (createdb self suffix body w)) = remove_db name (catalog wb).
Proof.
  intros name Hp Hs _ _ Hf Hd Hb Hfb Hdb.
  destruct (scope_entered_spec _ (now_of w) suffix w Hp Hs Hf Hd)
    as (_ & _ & Hcat & _). fold name in Hcat.
  split; [exact Hcat|].
  rewrite (createdb_calm self suffix body w wb o d Hp Hs Hf Hd Hb Hfb Hdb).
  cbn [fst snd]. split; [reflexivity|].
  assert (Hu : unquoted_ok name = true) by now apply ephemeral_unquoted_ok.
  assert (Hn : no_upper name = true).
  { assert (H : plain name = true).
    { apply plain_ephemeral; [|exact Hs].
      unfold plain_prefix in Hp. now apply andb_true_iff in Hp. }
    unfold plain in H. now apply andb_true_iff in H. }
  now destruct (teardown_scope_left name wb d Hu Hn Hfb Hdb) as (_ & _ & H & _).
Qed.

Lemma createdb_transparent_witness :
  let self := mk_DatabaseAdmin (mk_DatabaseConfig None "app")
                (mk_connection "template1" true) in
  let w := example_world sweep_catalog [] in
  let boom := Exn RuntimeError "boom" in
  plain_prefix "app" = true /\ plain "schema" = true /\
  fits_identifier "app_1700000000_schema" = true /\
  fault_free w = true /\
  lookup_db "app_1700000000_schema" (catalog w) = None /\
  fst (createdb self "schema" (fun _ => @raise unit boom) w) = Raise boom /\
  catalog (snd (createdb self "schema" (fun _ => @raise unit boom) w)) = sweep_catalog.
Proof.
  intros self w boom. do 5 (split; [reflexivity|]).
  destruct (createdb_transparent self "schema" (fun _ => @raise unit boom) w
              (scope_entered "app_1700000000_schema" w) (Raise boom)
              (fresh_database "app_1700000000_schema")
              eq_refl eq_refl eq_refl eq_refl eq_refl eq_refl eq_refl eq_refl
              eq_refl)
    as (_ & Ho & Hc).
  split; [exact Ho|]. rewrite Hc. reflexivity.
Defined.

Lemma lookup_db_unique (cat : list pg_database) (d : pg_database) :
  NoDup (names cat) -> In d cat -> lookup_db (datname d) cat = Some d.
Proof.
  intros Hnd Hin.
  destruct (lookup_db_in (datname d) cat) as [d' Hd'].
  { now apply in_map. }
  rewrite Hd'. f_equal. apply lookup_db_some in Hd' as [Hin' Hn].
  exact (NoDup_map_inj datname cat d' d Hnd Hin' Hin Hn).
Qed.

Lemma lookup_db_remove_other (n m : string) (cat : list pg_database) :
  m <> n -> lookup_db m (remove_db n cat) = lookup_db m cat.
Proof.
  intros Hne. unfold lookup_db, remove_db, named.
  induction cat as [|d cat IH]; [reflexivity|].
  cbn [filter find]. destruct (String.eqb (datname d) n) eqn:En; cbn [negb].
  - apply String.eqb_eq in En.
    destruct (String.eqb (datname d) m) eqn:Em; [|exact IH].
    apply String.eqb_eq in Em. congruence.
  - cbn [find]. destruct (String.eqb (datname d) m); [reflexivity|exact IH].
Qed.

Lemma sweep_loop_calm (rows : list string) :
  forall w,
    fault_free w = true ->
    NoDup rows ->
    (forall n, In n rows ->
               str_contains dquote n = false /\ n <> "" /\
               exists d, lookup_db n (catalog w) = Some d /\ backends d = 0) ->
    exists w',
      for_each rows (drop_orphan quiet_args) w = (Return tt, w') /\
      catalog w' = drop_all rows (catalog w).
Proof.
  induction rows as [|n rows IH]; intros w Hf Hnd Hrows.
  - exists w. now split.
  - destruct (Hrows n (or_introl eq_refl)) as (Hq & Hne & d & Hd & Hb).
    assert (Hx : pg_execute (Sql (drop_quoted_sql n)) (catalog w)
                 = (Accepted (Dropped n), remove_db n (catalog w))).
    { cbn [pg_execute]. rewrite (parse_drop_quoted n Hq).
      destruct n as [|c n]; [congruence|]. cbn [pg_statement].
      now rewrite Hd, Hb. }
    cbn [for_each]. rewrite bind_eq, drop_orphan_eq, Hq. cbn [verbose quiet_args].
    rewrite (cursor_execute_calm _ _ Hf), Hx. cbn [fst snd surfaced].
    inversion Hnd as [|? ? Hnin Hnd']; subst.
    destruct (IH (answered (Sql (drop_quoted_sql n)) w)) as (w' & Hrun & Hcat).
    + now apply fault_free_answered.
    + exact Hnd'.
    + intros n' Hin'. destruct (Hrows n' (or_intror Hin')) as (Hq' & Hne' & d' & Hd' & Hb').
      split; [exact Hq'|]. split; [exact Hne'|]. exists d'. split; [|exact Hb'].
      unfold answered. cbn [catalog log_admin set_catalog]. rewrite Hx. cbn [snd].
      rewrite lookup_db_remove_other; [exact Hd'|].
      intros ->. contradiction.
    + exists w'. split; [exact Hrun|]. rewrite Hcat.
      unfold answered. cbn [catalog log_admin set_catalog]. now rewrite Hx.
Qed.

(** X14: a sweep in which nothing fails completes.  On a server whose
    marked databases are idle and have names the sweep accepts, the
    command returns and exactly the marked databases are gone: whatever a
    crashed run left behind is removed, the rest is as it was. *)
Theorem clean_completes (cfg : Config) (w : world) :
  fault_free w = true ->
  NoDup (names (catalog w)) ->
  (forall d, In d (catalog w) -> marked d = true ->
             backends d = 0 /\ str_contains dquote (datname d) = false /\
             datname d <> "") ->
  fst (cmd_clean quiet_args cfg w) = Return tt /\
  catalog (snd (cmd_clean quiet_args cfg w))
  = filter (fun d => negb (marked d)) (catalog w).
Proof.
  intros Hf Hnd Hm.
  assert (Hf1 := fault_free_pop w Hf).
  rewrite (cmd_clean_calm quiet_args cfg w (fault_free_next w Hf)
             (fault_free_next _ Hf1)).
  set (w1 := log_admin _ _ _).
  destruct (sweep_loop_calm (sweep_rows (catalog w)) w1) as (w' & Hrun & Hcat).
  - exact (fault_free_pop _ Hf1).
  - unfold sweep_rows, names. now apply NoDup_map_filter.
  - intros n Hin. unfold sweep_rows, names in Hin.
    apply in_map_iff in Hin as (d & <- & Hd). apply filter_In in Hd as [Hd Hmk].
    destruct (Hm d Hd Hmk) as (Hb & Hq & Hne).
    split; [exact Hq|]. split; [exact Hne|]. exists d. split; [|exact Hb].
    change (catalog w1) with (catalog w). now apply lookup_db_unique.
  - rewrite Hrun. cbn [fst snd]. split; [reflexivity|].
    rewrite Hcat. change (catalog w1) with (catalog w).
    now apply drop_all_rows.
Qed.

Lemma clean_completes_witness :
  let w := example_world sweep_catalog [false] in
  fault_free w = true /\
  NoDup (names (catalog w)) /\
  fst (cmd_clean quiet_args example_cfg w) = Return tt /\
  names (catalog (snd (cmd_clean quiet_args example_cfg w)))
  = ["app_1600000000_migrations"; "app_1600000001_schema"].
Proof.
  intros w.
  assert (Hnd : NoDup (names (catalog w))) by (apply NoDup_names_decide; reflexivity).
  assert (Hm : forall d, In d (catalog w) -> marked d = true ->
                         backends d = 0 /\
                         str_contains dquote (datname d) = false /\
                         datname d <> "").
  { intros d [<-|[<-|[<-|[]]]] Hmk;
      try (vm_compute in Hmk; discriminate);
      repeat split; try reflexivity; discriminate. }
  split; [reflexivity|]. split; [exact Hnd|].
  destruct (clean_completes example_cfg w eq_refl Hnd Hm) as (Hr & Hc).
  split; [exact Hr|]. rewrite Hc. vm_compute. reflexivity.
Defined.

(** ** The output streams *)

Lemma silent_ret {A} (a : A) : silent (ret a).
Proof. intros w. now split. Qed.

Lemma silent_raise {A} (e : exn) : silent (@raise A e).
Proof. intros w. now split. Qed.

Lemma silent_bind {A B} (m : M A) (k : A -> M B) :
  silent m -> (forall a, silent (k a)) -> silent (bind m k).
Proof.
  intros Hm Hk w. rewrite bind_eq. destruct (Hm w) as [H1 H2].
  destruct (fst (m w)) as [a|e]; cbn [snd]; [|now split].
  destruct (Hk a (snd (m w))) as [H3 H4]. split; congruence.
Qed.

Lemma silent_try_finally {A} (m : M A) (f : M unit) :
  silent m -> silent f -> silent (try_finally m f).
Proof.
  intros Hm Hf w. rewrite try_finally_snd.
  destruct (Hm w) as [H1 H2]. destruct (Hf (snd (m w))) as [H3 H4].
  split; congruence.
Qed.

Lemma silent_when (b : bool) (m : M unit) : silent m -> silent (when_ b m).
Proof. intros H. destruct b; [exact H|apply silent_ret]. Qed.

Lemma silent_for_each {X} (l : list X) (f : X -> M unit) :
  (forall x, silent (f x)) -> silent (for_each l f).
Proof.
  intros H. induction l as [|x l IH]; [apply silent_ret|].
  cbn [for_each]. apply silent_bind; [apply H|intros _; exact IH].
Qed.

Lemma silent_guarded {A} (e : exn) (m : M A) :
  silent m -> silent (failed <- fault ;; if failed then raise e else m).
Proof.
  intros H w. rewrite guarded_eq. destruct (next_fault w); [now split|].
  exact (H (pop_fault w)).
Qed.

Lemma silent_cursor_execute (rq : request) : silent (cursor_execute rq).
Proof.
  intros w. destruct (cursor_execute_cases rq w) as (r & _ & _ & Hio & _).
  destruct Hio as (_ & _ & H1 & H2). now split.
Qed.

Lemma silent_time : silent time_time.
Proof.
  intros w. rewrite time_time_eq. destruct (after_time_io w) as (_ & _ & H1 & H2).
  now split.
Qed.

Lemma silent_print_out (text : string) : silent (print text out_stderr).
Proof. intros w. now split. Qed.

Lemma silent_open_read (path : string) : silent (open_read path).
Proof.
  intros w. unfold open_read. destruct (assoc path (files (fs w))); now split.
Qed.

Lemma silent_listdir (path : string) : silent (os_listdir path).
Proof.
  intros w. unfold os_listdir. destruct (assoc path (dirs (fs w))); now split.
Qed.

Lemma silent_engine_connect (e : Engine) : silent (engine_connect e).
Proof.
  apply silent_guarded. intros w.
  destruct (lookup_db (engine_dbname e) (catalog w)); now split.
Qed.

Lemma silent_connection_execute (c : Connection) (sql : string) :
  silent (connection_execute c sql).
Proof.
  apply silent_guarded. intros w.
  destruct (lookup_db (connected_to c) (catalog w)); now split.
Qed.

Lemma silent_create_engine (u n : string) : silent (create_engine u n).
Proof. apply silent_guarded, silent_ret. Qed.

Lemma silent_engine_dispose (e : Engine) : silent (engine_dispose e).
Proof. apply silent_guarded, silent_ret. Qed.

Lemma silent_DatabaseAdmin_init (cfg : Config) : silent (DatabaseAdmin_init cfg).
Proof.
  intros w. rewrite DatabaseAdmin_init_next. destruct (next_fault w); now split.
Qed.

Lemma silent_teardown (name : string) : silent (teardown name).
Proof.
  intros w. destruct (teardown_io name w) as (_ & _ & H1 & H2). now split.
Qed.

Lemma silent_apply_migration (args : Args) (cfg : Config) (c : Connection)
    (f : string) :
  silent (apply_migration args cfg c f).
Proof.
  unfold apply_migration. destruct (negb (endswith f ".sql")); [apply silent_ret|].
  apply silent_bind; [apply silent_when, silent_print_out|]. intros _.
  apply silent_bind; [apply silent_open_read|]. intros sql.
  apply silent_when, silent_connection_execute.
Qed.

Lemma silent_drop_orphan (args : Args) (n : string) : silent (drop_orphan args n).
Proof.
  unfold drop_orphan. apply silent_bind.
  { destruct (str_contains dquote n); [apply silent_raise|apply silent_ret]. }
  intros _. apply silent_bind; [apply silent_when; intros w; now split|].
  intros _. apply silent_bind; [apply silent_cursor_execute|].
  intros _. apply silent_ret.
Qed.

Lemma prints_only_bind {A B} (P : string -> Prop) (m : M A) (k : A -> M B) :
  silent m -> (forall a, prints_only P (k a)) -> prints_only P (bind m k).
Proof.
  intros Hm Hk w. rewrite bind_eq. destruct (Hm w) as [H1 H2].
  destruct (fst (m w)) as [a|e]; cbn [snd]; [|split; [assumption|now left]].
  destruct (Hk a (snd (m w))) as [H3 H4]. rewrite H3, H2, H1 in *.
  split; [reflexivity|exact H4].
Qed.

Lemma prints_only_try_finally {A} (P : string -> Prop) (m : M A) (f : M unit) :
  prints_only P m -> silent f -> prints_only P (try_finally m f).
Proof.
  intros Hm Hf w. rewrite try_finally_snd.
  destruct (Hm w) as [H1 H2]. destruct (Hf (snd (m w))) as [H3 H4].
  rewrite H3, H4. split; assumption.
Qed.

Lemma prints_only_createdb {A} (P : string -> Prop) (self : DatabaseAdmin)
    (suffix : string) (body : Engine -> M A) :
  (forall e, prints_only P (body e)) -> prints_only P (createdb self suffix body).
Proof.
  intros Hb. unfold createdb.
  apply prints_only_bind; [apply silent_time|]. intros now.
  apply prints_only_bind; [apply silent_cursor_execute|]. intros _.
  apply prints_only_bind; [apply silent_cursor_execute|]. intros _.
  unfold createdb_scope. apply prints_only_try_finally; [|apply silent_teardown].
  unfold createdb_try. apply prints_only_bind.
  { destruct (url (config self)); [destruct (truthy _)|]; apply silent_create_engine. }
  intros e. apply prints_only_try_finally; [apply Hb|apply silent_engine_dispose].
Qed.

Lemma prints_only_diff_tail (changes : list string -> list string -> string)
    (se me : Engine) :
  prints_only (fun t => exists a b, t = changes a b)
    (migration <- migra_Migration me se ;;
     migration <- add_all_changes changes (set_safety migration false) ;;
     print (migration_sql migration) [("end", kw_str "")]).
Proof.
  intros w. unfold migra_Migration. rewrite bind_eq, guarded_eq.
  destruct (next_fault w); cbn [fst snd]; [split; [reflexivity|now left]|].
  change (catalog (pop_fault w)) with (catalog w).
  destruct (lookup_db (engine_dbname me) (catalog w)) as [a|];
    [|cbn; split; [reflexivity|now left]].
  destruct (lookup_db (engine_dbname se) (catalog w)) as [b|];
    [|cbn; split; [reflexivity|now left]].
  cbn [fst snd]. unfold add_all_changes. rewrite bind_eq, guarded_eq.
  destruct (next_fault (pop_fault w)); cbn [fst snd ret];
    [split; [reflexivity|now left]|].
  rewrite print_end_eq. cbn. split; [reflexivity|].
  right. exists (changes (applied a) (applied b)). split; [eauto|].
  now rewrite append_nil_r.
Qed.

Lemma prints_only_diff_body (changes : list string -> list string -> string)
    (args : Args) (cfg : Config) (se me : Engine) :
  prints_only (fun t => exists a b, t = changes a b)
    (diff_body changes args cfg se me).
Proof.
  unfold diff_body.
  apply prints_only_bind; [apply silent_engine_connect|]. intros c.
  apply prints_only_bind; [apply silent_when, silent_print_out|]. intros _.
  apply prints_only_bind; [apply silent_open_read|]. intros sql.
  apply prints_only_bind; [apply silent_when, silent_connection_execute|]. intros _.
  apply prints_only_bind; [apply silent_when, silent_print_out|]. intros _.
  apply prints_only_bind; [apply silent_engine_connect|]. intros c'.
  apply prints_only_bind; [apply silent_listdir|]. intros listing.
  apply prints_only_bind;
    [apply silent_for_each; intros f; apply silent_apply_migration|]. intros _.
  apply prints_only_bind; [apply silent_when, silent_print_out|]. intros _.
  apply prints_only_diff_tail.
Qed.

(** X15: what the commands print.  In every run, whatever fails and in
    either mode, the diff writes to the primary stream nothing or exactly
    one script of the diff engine, and the sweep writes nothing to it. *)
Theorem stdout_carries_only_the_script
    (changes : list string -> list string -> string)
    (args : Args) (cfg : Config) (w : world) :
  (stdout (snd (cmd_diff changes args cfg w)) = stdout w \/
   exists a b,
     stdout (snd (cmd_diff changes args cfg w)) = stdout w ++ changes a b) /\
  stdout (snd (cmd_clean args cfg w)) = stdout w.
Proof.
  assert (Hd : prints_only (fun t => exists a b, t = changes a b)
                 (cmd_diff changes args cfg)).
  { unfold cmd_diff.
    apply prints_only_bind; [apply silent_DatabaseAdmin_init|]. intros dba.
    apply prints_only_bind; [apply silent_when, silent_print_out|]. intros _.
    apply prints_only_createdb. intros se.
    apply prints_only_createdb. intros me.
    apply prints_only_diff_body. }
  assert (Hc : silent (cmd_clean args cfg)).
  { unfold cmd_clean.
    apply silent_bind; [apply silent_DatabaseAdmin_init|]. intros dba.
    apply silent_try_finally; [|apply silent_ret].
    apply silent_bind; [apply silent_cursor_execute|]. intros rows.
    apply silent_for_each. intros n. apply silent_drop_orphan. }
  destruct (Hd w) as [_ H2]. destruct (Hc w) as [H3 _].
  split; [|exact H3].
  destruct H2 as [H2|(t & (a & b & ->) & H2)]; [now left|right; eauto].
Qed.

(** ** The entries of the migration directory *)

Lemma substring_all (s : string) : substring 0 (String.length s) s = s.
Proof. induction s as [|c s IH]; cbn; [reflexivity|now rewrite IH]. Qed.

Lemma substring_suffix (a b : string) :
  substring (String.length a) (String.length b) (a ++ b) = b.
Proof. induction a as [|c a IH]; cbn; [apply substring_all|exact IH]. Qed.

Lemma substring_split (s : string) :
  forall i, (i <= String.length s)%nat ->
            s = substring 0 i s ++ substring i (String.length s - i) s.
Proof.
  induction s as [|c s IH]; intros i Hi.
  - destruct i; reflexivity.
  - destruct i as [|i].
    + cbn [substring append]. rewrite Nat.sub_0_r.
      change (String.length (String c s)) with (S (String.length s)).
      cbn [substring]. now rewrite substring_all.
    + cbn [String.length] in Hi. cbn [substring append String.length Nat.sub].
      f_equal. apply IH. lia.
Qed.

Lemma endswith_iff (s suffix : string) :
  endswith s suffix = true <-> exists stem, s = stem ++ suffix.
Proof.
  unfold endswith. split.
  - intros H. apply andb_true_iff in H as [Hk He].
    apply Nat.leb_le in Hk. apply String.eqb_eq in He.
    exists (substring 0 (String.length s - String.length suffix) s).
    assert (Hs := substring_split s (String.length s - String.length suffix)
                    (Nat.le_sub_l _ _)).
    replace (String.length s - (String.length s - String.length suffix))
      with (String.length suffix) in Hs by lia.
    rewrite He in Hs. exact Hs.
  - intros [stem ->]. rewrite append_length. apply andb_true_iff. split.
    + apply Nat.leb_le. lia.
    + replace (String.length stem + String.length suffix - String.length suffix)
        with (String.length stem) by lia.
      rewrite substring_suffix. apply String.eqb_refl.
Qed.

(** X16: which entries of the migration directory are migrations.  An
    entry is taken exactly when its name is some text followed by [.sql],
    in lower case; any other entry is passed over in either mode, without
    a file being opened or a statement executed. *)
Theorem migration_entry_filter (args : Args) (cfg : Config) (c : Connection)
    (f : string) (w : world) :
  (is_sql f = true <-> exists stem, f = stem ++ ".sql") /\
  ((forall stem, f <> stem ++ ".sql") ->
   apply_migration args cfg c f w = (Return tt, w)).
Proof.
  split; [apply endswith_iff|].
  intros H. rewrite apply_migration_eq.
  destruct (is_sql f) eqn:E; [|reflexivity].
  apply endswith_iff in E as [stem ->]. now destruct (H stem).
Qed.

Lemma migration_entry_filter_witness :
  let w := example_world [] [] in
  (forall stem, "README" <> stem ++ ".sql") /\
  apply_migration verbose_args example_cfg (mk_Connection "app_1_migrations")
    "README" w = (Return tt, w).
Proof.
  intros w.
  destruct (migration_entry_filter verbose_args example_cfg
              (mk_Connection "app_1_migrations") "README" w) as (Hiff & Hskip).
  assert (H : forall stem, "README" <> stem ++ ".sql").
  { intros stem E. assert (Ht : is_sql "README" = true) by (apply Hiff; eauto).
    vm_compute in Ht. discriminate. }
  split; [exact H|exact (Hskip H)].
Defined.
